(** * idnits: the plain-text parser, the XML adapter, the reference
      validators and the JSON report of the command line

    Source files embedded here:
    - the plain-text parser    (lib/parsers/txt.mjs, function [parse]),
    - the XML adapter          (lib/parsers/xml.mjs, function [parse]),
    - the reference validators (lib/modules/downref.mjs) with the helper
      extractDefinedReferences (lib/helpers/utils.mjs),
    - the command line         (cli.mjs, output case [json]).

    Text is a [string], a sequence of one-byte code units; the quotation
    marks above U+00FF that AUTHOR_SECTION_RE also accepts cannot occur in
    such text and are left out of that character class.  An exception of the
    language is a value of a sum type.  The [lastIndex] of the module-level
    regular expressions, which outlives a call of the parser, is threaded
    through it as an explicit state.  Helpers that are imported from files
    outside these sources are parameters of the sections that use them. *)

From Stdlib Require Import String Ascii List Arith Bool Lia PeanoNat.
Import ListNotations.
Local Open Scope string_scope.
Local Open Scope list_scope.
Local Open Scope nat_scope.

(* ================================================================== *)
(** * Regular expressions, as ECMAScript matches them                  *)
(* ================================================================== *)

Module Regex.

(** Character predicates of the ECMAScript pattern language. *)
Definition code (c : ascii) : nat := nat_of_ascii c.

Definition is_digit (c : ascii) : bool := (48 <=? code c) && (code c <=? 57).
Definition is_upper (c : ascii) : bool := (65 <=? code c) && (code c <=? 90).
Definition is_lower (c : ascii) : bool := (97 <=? code c) && (code c <=? 122).
Definition is_alpha (c : ascii) : bool := is_upper c || is_lower c.
Definition is_alnum (c : ascii) : bool := is_alpha c || is_digit c.
(** [\w] *)
Definition is_word (c : ascii) : bool := is_alnum c || (code c =? 95).
(** [\s]: TAB, LF, VT, FF, CR, SP and NBSP (the code units below 256). *)
Definition is_space (c : ascii) : bool :=
  ((9 <=? code c) && (code c <=? 13)) || (code c =? 32) || (code c =? 160).
(** [.] (no [s] flag): anything but LF and CR. *)
Definition is_dot (c : ascii) : bool :=
  negb ((code c =? 10) || (code c =? 13)).

Definition to_lower (c : ascii) : ascii :=
  if is_upper c then ascii_of_nat (code c + 32) else c.
Definition eq_ci (a b : ascii) : bool := Ascii.eqb (to_lower a) (to_lower b).

(** The pattern syntax that the repository's expressions use.  Bounded and
    one-or-more repetitions are written with [Cat], [Alt] and [Star] by the
    derived forms below, which keeps ECMAScript's greedy backtracking order. *)
Inductive regex : Type :=
| Eps                                  (* the empty pattern *)
| Chr (p : ascii -> bool)              (* one code unit in a class *)
| Cat (r1 r2 : regex)
| Alt (r1 r2 : regex)                  (* r1|r2, r1 tried first *)
| Star (r : regex)                     (* r*, greedy *)
| Group (n : nat) (r : regex)          (* capturing group number n *)
| Bol                                  (* ^ without the m flag *)
| Eol                                  (* $ without the m flag *)
| WordB                                (* \b *)
| NotAhead (r : regex).                (* (?!r) *)

Definition Plus (r : regex) : regex := Cat r (Star r).
Definition Opt (r : regex) : regex := Alt r Eps.
Fixpoint Times (n : nat) (r : regex) : regex :=
  match n with 0 => Eps | S n' => Cat r (Times n' r) end.
(** r{n,} *)
Definition AtLeast (n : nat) (r : regex) : regex := Cat (Times n r) (Star r).
(** r{n,n+k} *)
Fixpoint UpTo (k : nat) (r : regex) : regex :=
  match k with 0 => Eps | S k' => Opt (Cat r (UpTo k' r)) end.
Definition Between (n k : nat) (r : regex) : regex := Cat (Times n r) (UpTo k r).

Definition ch (c : ascii) : regex := Chr (Ascii.eqb c).
Definition chi (c : ascii) : regex := Chr (eq_ci c).
Fixpoint lit (s : string) : regex :=
  match s with
  | EmptyString => Eps
  | String c EmptyString => ch c
  | String c s' => Cat (ch c) (lit s')
  end.
(** A literal under the [i] flag. *)
Fixpoint liti (s : string) : regex :=
  match s with
  | EmptyString => Eps
  | String c EmptyString => chi c
  | String c s' => Cat (chi c) (liti s')
  end.
Fixpoint alts (rs : list regex) : regex :=
  match rs with
  | [] => Eps
  | [r] => r
  | r :: rs' => Alt r (alts rs')
  end.
Fixpoint cats (rs : list regex) : regex :=
  match rs with
  | [] => Eps
  | [r] => r
  | r :: rs' => Cat r (cats rs')
  end.

(** The matcher state: the code unit before the current position (for [^]
    and [\b]), the text still to read, and the captures so far. *)
Record mstate : Type := MState {
  prev : option ascii;
  rest : list ascii;
  caps : list (nat * list ascii)
}.

Definition word_opt (o : option ascii) : bool :=
  match o with Some c => is_word c | None => false end.

Definition set_cap (n : nat) (v : list ascii) (cs : list (nat * list ascii)) :=
  (n, v) :: filter (fun p => negb (fst p =? n)) cs.

Fixpoint get_cap (n : nat) (cs : list (nat * list ascii)) : option (list ascii) :=
  match cs with
  | [] => None
  | (m, v) :: cs' => if m =? n then Some v else get_cap n cs'
  end.

(** Backtracking matcher in continuation style: [m r st k] matches [r] at
    [st] and hands every way of doing so, in ECMAScript's priority order, to
    [k] until [k] accepts.  An iteration of [Star] that reads nothing is
    refused, as in the language definition. *)
Fixpoint m (r : regex) (st : mstate) (k : mstate -> option mstate)
  : option mstate :=
  match r with
  | Eps => k st
  | Chr p =>
      match rest st with
      | c :: tl => if p c then k (MState (Some c) tl (caps st)) else None
      | [] => None
      end
  | Cat r1 r2 => m r1 st (fun st1 => m r2 st1 k)
  | Alt r1 r2 =>
      match m r1 st k with
      | Some res => Some res
      | None => m r2 st k
      end
  | Star r1 =>
      (fix iter (fuel : nat) (st0 : mstate) : option mstate :=
         match fuel with
         | 0 => k st0
         | S fuel' =>
             match m r1 st0 (fun st1 =>
                     if length (rest st1) <? length (rest st0)
                     then iter fuel' st1 else None) with
             | Some res => Some res
             | None => k st0
             end
         end) (S (length (rest st))) st
  | Group n r1 =>
      m r1 st (fun st1 =>
        k (MState (prev st1) (rest st1)
             (set_cap n (firstn (length (rest st) - length (rest st1)) (rest st))
                      (caps st1))))
  | Bol => match prev st with None => k st | Some _ => None end
  | Eol => match rest st with [] => k st | _ :: _ => None end
  | WordB =>
      if xorb (word_opt (prev st)) (word_opt (hd_error (rest st)))
      then k st else None
  | NotAhead r1 =>
      match m r1 st Some with
      | Some _ => None
      | None => k st
      end
  end.

(** One successful match: where it starts, where it ends, the matched text
    and the captures. *)
Record rmatch : Type := RMatch {
  index : nat;
  endIndex : nat;
  matched : string;
  groups : list (nat * list ascii)
}.

Definition group (n : nat) (x : rmatch) : option string :=
  option_map string_of_list_ascii (get_cap n (groups x)).

(** The scan of [RegExpBuiltinExec]: try position [idx], then the next ones,
    up to and including the end of the text. *)
Fixpoint search (r : regex) (pv : option ascii) (tl : list ascii) (idx : nat)
  : option rmatch :=
  match m r (MState pv tl []) Some with
  | Some fin =>
      let n := length tl - length (rest fin) in
      Some (RMatch idx (idx + n) (string_of_list_ascii (firstn n tl)) (caps fin))
  | None =>
      match tl with
      | [] => None
      | c :: tl' => search r (Some c) tl' (S idx)
      end
  end.

Definition search_from (r : regex) (s : string) (from : nat) : option rmatch :=
  let l := list_ascii_of_string s in
  if length l <? from then None
  else search r (match from with
                 | 0 => None
                 | S i => nth_error l i
                 end) (skipn from l) from.

(** [exec] and [test] of an expression without the [g] flag. *)
Definition exec (r : regex) (s : string) : option rmatch := search_from r s 0.
Definition test (r : regex) (s : string) : bool :=
  match exec r s with Some _ => true | None => false end.

(** [exec] of an expression with the [g] flag: it starts at [lastIndex] and
    leaves the end of the match, or 0 after a failure, in [lastIndex]. *)
Definition exec_g (r : regex) (lastIndex : nat) (s : string)
  : option rmatch * nat :=
  match search_from r s lastIndex with
  | Some x => (Some x, endIndex x)
  | None => (None, 0)
  end.

Definition test_g (r : regex) (lastIndex : nat) (s : string) : bool * nat :=
  match exec_g r lastIndex s with
  | (Some _, li) => (true, li)
  | (None, li) => (false, li)
  end.

(** All matches from position [from] on, left to right and not overlapping:
    what [matchAll], [replaceAll] and a [while (exec)] loop that runs until
    [null] visit when [lastIndex] starts at [from].  After an empty match the
    scan moves one code unit on. *)
Fixpoint matches_from (fuel : nat) (r : regex) (s : string) (from : nat)
  : list rmatch :=
  match fuel with
  | 0 => []
  | S fuel' =>
      match search_from r s from with
      | None => []
      | Some x =>
          x :: matches_from fuel' r s
                 (if endIndex x =? index x then S (endIndex x) else endIndex x)
      end
  end.

Definition matchAll (r : regex) (s : string) : list rmatch :=
  matches_from (S (String.length s)) r s 0.

(** The text of [l] from position [pos] on, without the matches [ms]
    (which lie in it from left to right): what [replace] and [replaceAll]
    build when the replacement is the empty string. *)
Fixpoint without (l : list ascii) (pos : nat) (ms : list rmatch) : list ascii :=
  match ms with
  | [] => skipn pos l
  | x :: tl =>
      firstn (index x - pos) (skipn pos l) ++ without l (endIndex x) tl
  end.

(** [s.replace(r, '')] for [r] with the [g] flag, and [s.replaceAll(r, '')]. *)
Definition delete_all (r : regex) (s : string) : string :=
  string_of_list_ascii (without (list_ascii_of_string s) 0 (matchAll r s)).

(** [s.replace(r, '')] for [r] without the [g] flag. *)
Definition delete_first (r : regex) (s : string) : string :=
  string_of_list_ascii
    (without (list_ascii_of_string s) 0
       (match exec r s with Some x => [x] | None => [] end)).

End Regex.

Import Regex.

(* ================================================================== *)
(** * The string functions of the language that the sources call       *)
(* ================================================================== *)

Module Js.

Fixpoint drop_space (l : list ascii) : list ascii :=
  match l with
  | c :: tl => if is_space c then drop_space tl else l
  | [] => []
  end.

(** [String.prototype.trim] *)
Definition trim (s : string) : string :=
  string_of_list_ascii
    (rev (drop_space (rev (drop_space (list_ascii_of_string s))))).

(** [s.split(c)] for a separator of one code unit. *)
Fixpoint split_aux (c : ascii) (l : list ascii) (cur : list ascii)
  : list string :=
  match l with
  | [] => [string_of_list_ascii (rev cur)]
  | x :: tl =>
      if Ascii.eqb x c
      then string_of_list_ascii (rev cur) :: split_aux c tl []
      else split_aux c tl (x :: cur)
  end.
Definition split (c : ascii) (s : string) : list string :=
  split_aux c (list_ascii_of_string s) [].

Definition startsWith (p s : string) : bool := String.prefix p s.

(** [s.includes(p)] and [s.indexOf(p) >= 0], for a non-empty [p]. *)
Definition includes (p s : string) : bool :=
  match String.index 0 p s with Some _ => true | None => false end.

(** Truthiness of a string value. *)
Definition truthy (s : string) : bool :=
  match s with EmptyString => false | String _ _ => true end.

(** [String(v)] of a value that is a string, [undefined] or [null]. *)
Definition of_undefined (o : option string) : string :=
  match o with Some s => s | None => "undefined" end.
Definition of_null (o : option string) : string :=
  match o with Some s => s | None => "null" end.

(** [parseInt(s, 10)] on a string of decimal digits. *)
Definition parseInt_digits (s : string) : nat :=
  fold_left (fun acc c => 10 * acc + (code c - 48)) (list_ascii_of_string s) 0.

(** [xs.join(sep)] *)
Fixpoint join (sep : string) (xs : list string) : string :=
  match xs with
  | [] => ""
  | [x] => x
  | x :: tl => (x ++ sep ++ join sep tl)%string
  end.

(** [s.toLowerCase()] *)
Definition toLowerCase (s : string) : string :=
  string_of_list_ascii (map to_lower (list_ascii_of_string s)).

(** [String(n)] for a natural number. *)
Fixpoint decimal_aux (fuel n : nat) (acc : string) : string :=
  match fuel with
  | 0 => acc
  | S fuel' =>
      let acc' := String (ascii_of_nat (48 + n mod 10)) acc in
      if n / 10 =? 0 then acc' else decimal_aux fuel' (n / 10) acc'
  end.
Definition decimal (n : nat) : string := decimal_aux (S n) n "".

Definition FF : ascii := ascii_of_nat 12.
Definition LF : ascii := ascii_of_nat 10.

End Js.

Import Js.

(* ================================================================== *)
(** * The plain-text parser                                            *)
(* ================================================================== *)

Module Txt.

(** ** The patterns of the parser

    Each definition is preceded by the expression as the source writes it;
    in these comments a blank separates a star from a closing parenthesis,
    and QUOTES stands for the class of quotation marks of the source. *)

Definition d : regex := Chr is_digit.
Definition sp : regex := Chr is_space.
Definition dot : regex := Chr is_dot.
(** [[a-z]] under the [i] flag, [[a-zA-Z]] *)
Definition az : regex := Chr is_alpha.

(** /^(?<left>.* )\s{2,}(?<right>.* )$/, left = group 1, right = group 2 *)
Definition LINE_VALUES_EXTRACT_RE : regex :=
  cats [Bol; Group 1 (Star dot); AtLeast 2 sp; Group 2 (Star dot); Eol].

(** /^[a-z]\.\s[a-z]+$/i *)
Definition AUTHOR_NAME_RE : regex :=
  cats [Bol; az; ch "."; sp; Plus az; Eol].

(** /^(?:(?<day>[0-9]{1,2})\s)?(?<month>[a-z]{3,})\s(?<year>[0-9]{4})$/i,
    day = group 1, month = group 2, year = group 3 *)
Definition DATE_RE : regex :=
  cats [Bol; Opt (Cat (Group 1 (Between 1 1 d)) sp);
        Group 2 (AtLeast 3 az); sp; Group 3 (Times 4 d); Eol].

(** /^\d+\.\s+.+$/ *)
Definition SECTION_PATTERN : regex :=
  cats [Bol; Plus d; ch "."; Plus sp; Plus dot; Eol].

(** /^\d+\.\d+\.\s+(.+)$/ig *)
Definition SUBSECTION_PATTERN : regex :=
  cats [Bol; Plus d; ch "."; Plus d; ch "."; Plus sp; Group 1 (Plus dot); Eol].

(** /\.+\s*\d+$/ *)
Definition TOC_PATTERN : regex :=
  cats [Plus (ch "."); Star sp; Plus d; Eol].

(** /\bRFC\s?(\d+)\b|\[RFC(\d+)\]/gi *)
Definition RFC_REFERENCE_RE : regex :=
  Alt (cats [WordB; liti "RFC"; Opt sp; Group 1 (Plus d); WordB])
      (cats [ch "["; liti "RFC"; Group 2 (Plus d); ch "]"]).

(** /\[(?!RFC\d+)[a-zA-Z0-9-.]+\]/gi *)
Definition NON_RFC_REFERENCE_RE : regex :=
  cats [ch "["; NotAhead (Cat (liti "RFC") (Plus d));
        Plus (Chr (fun c => is_alnum c || Ascii.eqb c "-" || Ascii.eqb c "."));
        ch "]"].

(** /[A-Za-z][a-z] {2} ? ?[a-z]/ *)
Definition SPACING_PATTERN : regex :=
  cats [az; Chr is_lower; lit "  "; Opt (ch " "); Opt (ch " "); Chr is_lower].

(** The class QUOTES on one-byte text: apostrophe, backquote, double quote. *)
Definition quote : regex :=
  Chr (fun c => Ascii.eqb c "'" || Ascii.eqb c "`" || (code c =? 34)).
(** [[0-9a-z.]*] under the [i] flag *)
Definition num_prefix : regex :=
  Star (Chr (fun c => is_alnum c || Ascii.eqb c ".")).

(** /^(Authors?|Editors?)[QUOTES] Addresses$/i *)
Definition AUTHORS_OR_EDITORS_ADDRESSES_RE : regex :=
  cats [Bol; Alt (Cat (liti "Author") (Opt (chi "s")))
                 (Cat (liti "Editor") (Opt (chi "s")));
        quote; liti " Addresses"; Eol].
(** /^[0-9a-z.]*\s*author information$/i *)
Definition AUTHOR_INFORMATION_RE : regex :=
  cats [Bol; num_prefix; Star sp; liti "author information"; Eol].
(** /^[0-9a-z.]*\s*(author|editor)(?:[QUOTES]s?|s)?\s+contact information$/i *)
Definition AUTHOR_CONTACT_INFORMATION_RE : regex :=
  cats [Bol; num_prefix; Star sp; Alt (liti "author") (liti "editor");
        Opt (Alt (Cat quote (Opt (chi "s"))) (chi "s"));
        Plus sp; liti "contact information"; Eol].
(** /^[0-9a-z.]*\s*contact information$/i *)
Definition CONTACT_INFORMATION_RE : regex :=
  cats [Bol; num_prefix; Star sp; liti "contact information"; Eol].
(** /^[0-9a-z.]*\s*(author|editor)s?:?$/i *)
Definition AUTHOR_EDITORS_RE : regex :=
  cats [Bol; num_prefix; Star sp; Alt (liti "author") (liti "editor");
        Opt (chi "s"); Opt (ch ":"); Eol].

(** The five sources joined by [|] in one group, flag [i]. *)
Definition AUTHOR_SECTION_RE : regex :=
  alts [AUTHORS_OR_EDITORS_ADDRESSES_RE; AUTHOR_INFORMATION_RE;
        AUTHOR_CONTACT_INFORMATION_RE; CONTACT_INFORMATION_RE;
        AUTHOR_EDITORS_RE].

(** /\/\*|\*\/|^ *#/ig *)
Definition INLINE_CODE_FORMAT : regex :=
  alts [lit "/*"; lit "*/"; cats [Bol; Star (ch " "); ch "#"]].

(** /^\d+\.\s+ ... $/i, the frame of the section matchers *)
Definition heading (body : regex) : regex :=
  cats [Bol; Plus d; ch "."; Plus sp; body; Eol].
(** /^\d+\.\d+\.\s+ ... $/i, the frame of the subsection matchers *)
Definition subheading (body : regex) : regex :=
  cats [Bol; Plus d; ch "."; Plus d; ch "."; Plus sp; body; Eol].

Inductive SectionName : Type :=
| abstract | introduction | securityConsiderations
| authorAddress | references | ianaConsiderations.

Inductive SubSectionName : Type :=
| normative_references | informative_references | unclassified_references.

Definition sectionMatchers : list (SectionName * regex) :=
  [ (introduction,
      heading (alts [liti "Introduction"; liti "Overview"; liti "Background"]));
    (securityConsiderations, heading (liti "Security Considerations"));
    (authorAddress, AUTHOR_SECTION_RE);
    (references, heading (liti "References"));
    (ianaConsiderations, heading (liti "IANA Considerations")) ].

Definition subsectionMatchers : list (SubSectionName * regex) :=
  [ (normative_references,
      subheading (cats [liti "Normative"; Plus sp; liti "References"]));
    (informative_references,
      subheading (cats [liti "Informative"; Plus sp; liti "References"]));
    (unclassified_references,
      subheading (cats [Star (Group 1 (Cat (Plus az) (Plus sp)));
                        liti "Reference"; Opt (Group 2 (chi "s"))])) ].

(** /((NOT)\s)?(MUST|REQUIRED|SHALL|SHOULD|RECOMMENDED|OPTIONAL|MAY)(\s(NOT))?/g *)
Definition KEYWORDS_PATTERN : regex :=
  cats [Opt (Group 1 (Cat (Group 2 (lit "NOT")) sp));
        Group 3 (alts [lit "MUST"; lit "REQUIRED"; lit "SHALL"; lit "SHOULD";
                       lit "RECOMMENDED"; lit "OPTIONAL"; lit "MAY"]);
        Opt (Group 4 (Cat sp (Group 5 (lit "NOT"))))].

(** /(MUST not|SHALL not|SHOULD not|not RECOMMENDED|MAY NOT|NOT REQUIRED|NOT OPTIONAL)/g *)
Definition INVALID_COMBINATIONS_PATTERN : regex :=
  Group 1 (alts [lit "MUST not"; lit "SHALL not"; lit "SHOULD not";
                 lit "not RECOMMENDED"; lit "MAY NOT"; lit "NOT REQUIRED";
                 lit "NOT OPTIONAL"]).

(** /[0-9]+\.[0-9]+\.[0-9]+\.[0-9]+/g *)
Definition IPV4_REGEX : regex :=
  cats [Plus d; ch "."; Plus d; ch "."; Plus d; ch "."; Plus d].

(** /\[RFC2119\]/i, /\[RFC8174\]/i, /<CODE BEGINS>/i, /<CODE ENDS>/i *)
Definition REF_2119 : regex := liti "[RFC2119]".
Definition REF_8174 : regex := liti "[RFC8174]".
Definition CODE_BEGINS : regex := liti "<CODE BEGINS>".
Definition CODE_ENDS : regex := liti "<CODE ENDS>".

(** ** The patterns applied to the whole normalised text

    In these comments Q stands for the double quote. *)

Definition dquote : ascii := ascii_of_nat 34.
(** A quoted key word, under the [i] flag and without it. *)
Definition qi (w : string) : regex := cats [ch dquote; liti w; ch dquote].
Definition q (w : string) : regex := cats [ch dquote; lit w; ch dquote].

(** The key words QMUSTQ, QMUST NOTQ, QREQUIREDQ, QSHALLQ, QSHALL NOTQ,
    QSHOULDQ, QSHOULD NOTQ, QRECOMMENDEDQ, -- the common start of the three
    BOILERPLATE_PATTERNS, flag [i] *)
Definition keyWordsHead : regex :=
  cats [liti "The key words "; qi "MUST"; liti ", "; qi "MUST NOT"; liti ", ";
        qi "REQUIRED"; liti ", "; qi "SHALL"; liti ", "; qi "SHALL NOT";
        liti ", "; qi "SHOULD"; liti ", "; qi "SHOULD NOT"; liti ", ";
        qi "RECOMMENDED"; liti ","].

(** ... ?(QNOT RECOMMENDEDQ, )?QMAYQ, and QOPTIONALQ in this document are to
    be interpreted as described in -- the middle of rfc2119 and rfc2119_alt *)
Definition optionalNotRecommended : regex :=
  cats [Opt (ch " "); Opt (Group 1 (cats [qi "NOT RECOMMENDED"; liti ", "]));
        qi "MAY"; liti ", and "; qi "OPTIONAL";
        liti " in this document are to be interpreted as described in"].

(** BOILERPLATE_PATTERNS.rfc2119: ... ( BCP 14,)? RFC ?2119[.,;] /ig *)
Definition BP_rfc2119 : regex :=
  cats [keyWordsHead; optionalNotRecommended;
        Opt (Group 2 (liti " BCP 14,")); liti " RFC"; Opt (ch " ");
        lit "2119";
        Chr (fun c => Ascii.eqb c "." || Ascii.eqb c "," || Ascii.eqb c ";")].

(** BOILERPLATE_PATTERNS.rfc2119_alt: ... QKey words for use in RFCs to
    Indicate Requirement LevelsQ \[RFC2119\] /ig *)
Definition BP_rfc2119_alt : regex :=
  cats [keyWordsHead; optionalNotRecommended; ch " ";
        qi "Key words for use in RFCs to Indicate Requirement Levels";
        liti " [RFC2119]"].

(** BOILERPLATE_PATTERNS.rfc8174: ..., QNOT RECOMMENDEDQ, QMAYQ, and
    QOPTIONALQ in this document are to be interpreted as described in
    BCP 14 \[RFC2119\] \[RFC8174\] /ig *)
Definition BP_rfc8174 : regex :=
  cats [keyWordsHead; ch " "; qi "NOT RECOMMENDED"; liti ", "; qi "MAY";
        liti ", and "; qi "OPTIONAL";
        liti " in this document are to be interpreted as described in BCP 14 [RFC2119] [RFC8174]"].

(** [Object.values(BOILERPLATE_PATTERNS)], in the order of the literal. *)
Definition BOILERPLATE_PATTERNS : list regex :=
  [BP_rfc2119; BP_rfc2119_alt; BP_rfc8174].

(** The first four expressions of each group of BOILERPLATE_PARTS, all
    without the [i] flag and with the [g] flag. *)
Definition part_keyWords : regex := lit "The key words ".
Definition part_must : regex :=
  cats [q "MUST"; lit ", "; q "MUST NOT"; lit ", "; q "REQUIRED"; lit ", ";
        q "SHALL"].
Definition part_shallNot : regex :=
  cats [q "SHALL NOT"; lit ", "; q "SHOULD"; lit ", "; q "SHOULD NOT";
        lit ", "; q "RECOMMENDED"].
Definition part_notRecommended : regex :=
  cats [q "NOT RECOMMENDED"; lit ", "; q "MAY"; lit ", and "; q "OPTIONAL"].
Definition part_interpreted : regex :=
  lit "in this document are to be interpreted as described in".

(** BOILERPLATE_PARTS: each expression with whether it has the [g] flag.
    Every literal of the source is an object of its own. *)
Definition BOILERPLATE_PARTS : list (list (regex * bool)) :=
  [ (* rfc2119; the last one is /RFC ?2119[.,;]?/i *)
    [ (part_keyWords, true); (part_must, true); (part_shallNot, true);
      (part_notRecommended, true); (part_interpreted, true);
      (cats [liti "RFC"; Opt (ch " "); lit "2119";
             Opt (Chr (fun c => Ascii.eqb c "." || Ascii.eqb c ","
                                || Ascii.eqb c ";"))], false) ];
    (* rfc2119_alt; the last one has the flags gi *)
    [ (part_keyWords, true); (part_must, true); (part_shallNot, true);
      (part_notRecommended, true); (part_interpreted, true);
      (cats [qi "Key words for use in RFCs to Indicate Requirement Levels";
             liti " [RFC2119]"], true) ];
    (* rfc8174; the last one has the flags ig *)
    [ (part_keyWords, true); (part_must, true); (part_shallNot, true);
      (part_notRecommended, true);
      (lit "in this document are to be interpreted as described in BCP 14",
       true);
      (liti "[RFC2119] [RFC8174]", true) ] ].

(** licenseDeclarations.revised_bsd_license, without flags *)
Definition revised_bsd_license : regex :=
  lit "Code Components extracted from this document must include Revised BSD License text as described in Section 4.e of the Trust Legal Provisions and are provided without warranty as described in the Revised BSD License.".

(** ((?:rfc\s*[0-9]+(?:,|\s|and)*\s* )+), the capture of the next two *)
Definition rfcListGroup : regex :=
  Group 1 (Plus (cats [liti "rfc"; Star sp; Plus d;
                       Star (alts [ch ","; sp; liti "and"]); Star sp])).

(** /(?:obsoletes|replaces)\s*:\s*(...)/gi and /updates\s*:\s*(...)/gi *)
Definition OBSOLETES_RE : regex :=
  cats [Alt (liti "obsoletes") (liti "replaces"); Star sp; ch ":"; Star sp;
        rfcListGroup].
Definition UPDATES_RE : regex :=
  cats [liti "updates"; Star sp; ch ":"; Star sp; rfcListGroup].

(** /\b[0-9]+\b/g *)
Definition NUMBER_RE : regex := cats [WordB; Plus d; WordB].

(** ** The document model

    [data] of the source is split in four records: [pageCount], what is
    computed from the whole normalised text before the line loop
    ([boilerplate], boilerplate2119Keywords, obsoletesRfc, updatesRfc,
    revisedBsdLicense), the lexical elements that the loop collects (the
    rest of [extractedElements], [possibleIssues], [references],
    [contains.codeBlocks]) and the structure (header, title, slug, content,
    markers).  Left out are the four fields computed with code that is not
    part of these sources: fqdnDomains and ipv6 (the expressions FQDN_RE and
    IPV6_LOOSE_RE), intendedStatus and category (the table
    rfcStatusHierarchy); the loop writes them and never reads them. *)

Record Whole : Type := mkWhole {
  boilerplate_rfc2119 : bool;
  boilerplate_rfc8174 : bool;
  similar2119boilerplate : bool;
  boilerplate2119Keywords : list string;
  obsoletesRfc : list string;
  updatesRfc : list string;
  revisedBsdLicense : bool
}.

Record Marker : Type := mkMarker {
  start : nat;
  end_ : nat;
  closed : bool
}.

Record HeaderMarker : Type := mkHeaderMarker {
  h_start : nat;
  h_end : nat;
  lastAuthor : nat;
  h_closed : bool
}.

(** An object with one property per section name. *)
Record PerSection (T : Type) : Type := mkPerSection {
  of_abstract : T;
  of_introduction : T;
  of_securityConsiderations : T;
  of_authorAddress : T;
  of_references : T;
  of_ianaConsiderations : T
}.
Arguments mkPerSection {T}.
Arguments of_abstract {T}.
Arguments of_introduction {T}.
Arguments of_securityConsiderations {T}.
Arguments of_authorAddress {T}.
Arguments of_references {T}.
Arguments of_ianaConsiderations {T}.

Definition get {T} (n : SectionName) (o : PerSection T) : T :=
  match n with
  | abstract => of_abstract o
  | introduction => of_introduction o
  | securityConsiderations => of_securityConsiderations o
  | authorAddress => of_authorAddress o
  | references => of_references o
  | ianaConsiderations => of_ianaConsiderations o
  end.

Definition put {T} (n : SectionName) (v : T) (o : PerSection T) : PerSection T :=
  match o with
  | mkPerSection a b c d e f =>
      match n with
      | abstract => mkPerSection v b c d e f
      | introduction => mkPerSection a v c d e f
      | securityConsiderations => mkPerSection a b v d e f
      | authorAddress => mkPerSection a b c v e f
      | references => mkPerSection a b c d v f
      | ianaConsiderations => mkPerSection a b c d e v
      end
  end.

Definition SectionName_eqb (a b : SectionName) : bool :=
  match a, b with
  | abstract, abstract | introduction, introduction
  | securityConsiderations, securityConsiderations
  | authorAddress, authorAddress | references, references
  | ianaConsiderations, ianaConsiderations => true
  | _, _ => false
  end.

Record Author : Type := mkAuthor {
  name : string;
  org : option string            (* None: the property is absent *)
}.

Record HeaderDate : Type := mkHeaderDate {
  day : option nat;              (* None: NaN *)
  month : string;
  year : nat
}.

Record Header : Type := mkHeader {
  source : option string;
  authors : list Author;
  date : option HeaderDate;
  rfcNumber : option string;
  obsoletes : option (list string);
  issn : option string;
  expires : option string        (* the text handed to DateTime.fromFormat *)
}.

Record RefEntry : Type := mkRefEntry {
  value : string;
  subsection : option SubSectionName
}.

Record KeywordAt : Type := mkKeywordAt { keyword : string; kw_line : nat }.
Record LinePos : Type := mkLinePos { lp_line : nat; lp_pos : nat }.
Record Misspelled : Type := mkMisspelled {
  invalidKeyword : string; ms_line : nat; ms_pos : nat
}.

Record Lex : Type := mkLex {
  ipv4 : list string;
  keywords2119 : list KeywordAt;
  nonReferenceSectionRfc : list string;
  referenceSectionRfc : list RefEntry;
  nonReferenceSectionDraftReferences : list string;
  referenceSectionDraftReferences : list RefEntry;
  linesWithSpaces : list LinePos;
  inlineCode : list LinePos;
  misspeled2119Keywords : list Misspelled;
  references_rfc2119 : bool;
  references_rfc8174 : bool;
  contains_codeBlocks : bool
}.

Record Struct : Type := mkStruct {
  header : Header;
  title : option string;
  slug : option string;
  content : PerSection (option (list string));
  m_header : HeaderMarker;
  m_title : nat;
  m_slug : nat;
  markers : PerSection Marker
}.

Inductive DocKind : Type := draft | rfc.

(** The [let] variables of [parse] that outlive one line. *)
Record Locals : Type := mkLocals {
  docKind : option DocKind;
  currentSection : option SectionName;
  currentSubSection : option SubSectionName;
  inCodeBlock : bool
}.

(** The [lastIndex] of the two module-level expressions with the [g] flag
    that the loop uses through [exec] and [test] on single lines.  (The other
    [g] expressions of the loop are run by [matchAll], which works on a
    copy, or by a [while] loop that ends on [null], which leaves 0.) *)
Record ReState : Type := mkReState {
  INLINE_CODE_FORMAT_lastIndex : nat;
  SUBSECTION_PATTERN_lastIndex : nat
}.

(** The state of the module between two calls of [parse]: the [lastIndex]
    of every module-level expression that [parse] runs through [test] or a
    single [exec]. *)
Record ModuleState : Type := mkModuleState {
  lineRe : ReState;
  BOILERPLATE_PATTERNS_lastIndex : list nat;
  BOILERPLATE_PARTS_lastIndex : list (list nat)
}.

Record St : Type := mkSt {
  pageCount : nat;
  lex : Lex;
  str : Struct;
  loc : Locals;
  re : ReState
}.

Definition noMarker : Marker := mkMarker 0 0 false.

Definition initial (re0 : ReState) : St :=
  mkSt 1
    (mkLex [] [] [] [] [] [] [] [] [] false false false)
    (mkStruct (mkHeader None [] None None None None None) None None
       (mkPerSection None None None None None None)
       (mkHeaderMarker 0 0 0 false) 0 0
       (mkPerSection noMarker noMarker noMarker noMarker noMarker noMarker))
    (mkLocals None None None false)
    re0.

(** ** The lexical extraction of one line (the part of the loop body before
       the header) *)

Definition group_or (n : nat) (x : rmatch) (dflt : string) : string :=
  match group n x with Some s => s | None => dflt end.

(** [rfcMatch[1] || rfcMatch[2]] *)
Definition rfcNumberOf (x : rmatch) : option string :=
  match group 1 x with
  | Some s => if truthy s then Some s else group 2 x
  | None => group 2 x
  end.

Definition hasValue (v : string) (l : list RefEntry) : bool :=
  existsb (fun el => String.eqb (value el) v) l.
Definition hasString (v : string) (l : list string) : bool :=
  existsb (String.eqb v) l.

(** The body of the [while] loop over RFC_REFERENCE_RE for one match. *)
Definition pushRfc (cs : option SectionName) (css : option SubSectionName)
    (lx : Lex) (x : rmatch) : Lex :=
  match rfcNumberOf x with
  | None => lx
  | Some rfcNumber =>
      match lx with
      | mkLex i k nr rr nd rd ls ic ms r1 r2 cb =>
          match cs with
          | Some references =>
              if truthy rfcNumber && negb (hasValue rfcNumber rr)
              then mkLex i k nr (rr ++ [mkRefEntry rfcNumber css])
                         nd rd ls ic ms r1 r2 cb
              else lx
          | _ =>
              if truthy rfcNumber && negb (hasString rfcNumber nr)
              then mkLex i k (nr ++ [rfcNumber]) rr nd rd ls ic ms r1 r2 cb
              else lx
          end
      end
  end.

(** The body of the [while] loop over NON_RFC_REFERENCE_RE for one match. *)
Definition pushDraft (cs : option SectionName) (css : option SubSectionName)
    (lx : Lex) (x : rmatch) : Lex :=
  let draftName := matched x in
  match lx with
  | mkLex i k nr rr nd rd ls ic ms r1 r2 cb =>
      match cs with
      | Some references =>
          if negb (hasValue draftName rd)
          then mkLex i k nr rr nd (rd ++ [mkRefEntry draftName css])
                     ls ic ms r1 r2 cb
          else lx
      | _ =>
          if negb (hasString draftName nd)
          then mkLex i k nr rr (nd ++ [draftName]) rd ls ic ms r1 r2 cb
          else lx
      end
  end.

Definition extractRfc cs css (trimmedLine : string) (lx : Lex) : Lex :=
  fold_left (pushRfc cs css) (matchAll RFC_REFERENCE_RE trimmedLine) lx.

Definition extractDrafts cs css (trimmedLine : string) (lx : Lex) : Lex :=
  fold_left (pushDraft cs css) (matchAll NON_RFC_REFERENCE_RE trimmedLine) lx.

(** Reference flags, keywords, invalid combinations, spacing and the
    code-block markers. *)
Definition scanLine (lineIdx : nat) (line trimmedLine : string)
    (lx : Lex) (inCode : bool) : Lex * bool :=
  match lx with
  | mkLex i k nr rr nd rd ls ic ms r1 r2 cb =>
      let r1' := if test REF_2119 trimmedLine then true else r1 in
      let r2' := if test REF_8174 trimmedLine then true else r2 in
      let k' := k ++ map (fun x => mkKeywordAt (matched x) lineIdx)
                         (matchAll KEYWORDS_PATTERN trimmedLine) in
      let ms' := ms ++ map (fun x => mkMisspelled (matched x) lineIdx
                                       (S (index x)))
                           (matchAll INVALID_COMBINATIONS_PATTERN line) in
      let ls' :=
        if test SPACING_PATTERN trimmedLine
           && negb (startsWith "Internet.Draft" (trim trimmedLine))
           && negb (startsWith "INTERNET.DRAFT" (trim trimmedLine))
        then ls ++ [mkLinePos lineIdx (String.length line)] else ls in
      let begins := test CODE_BEGINS trimmedLine in
      let inCode1 := if begins then true else inCode in
      let cb' := if begins then true else cb in
      let inCode2 := if test CODE_ENDS trimmedLine then false else inCode1 in
      (mkLex i k' nr rr nd rd ls' ic ms' r1' r2' cb', inCode2)
  end.

(** The check for comment tokens outside code blocks: one [exec] of the
    module-level INLINE_CODE_FORMAT, which carries its [lastIndex]. *)
Definition inlineCodeCheck (lineIdx : nat) (line : string) (inCode : bool)
    (lx : Lex) (lastIndex : nat) : Lex * nat :=
  if inCode then (lx, lastIndex)
  else
    match exec_g INLINE_CODE_FORMAT lastIndex line with
    | (Some x, li) =>
        match lx with
        | mkLex i k nr rr nd rd ls ic ms r1 r2 cb =>
            (mkLex i k nr rr nd rd ls (ic ++ [mkLinePos lineIdx (S (index x))])
                   ms r1 r2 cb, li)
        end
    | (None, li) => (lx, li)
    end.

Definition extractIpv4 (trimmedLine : string) (lx : Lex) : Lex :=
  match lx with
  | mkLex i k nr rr nd rd ls ic ms r1 r2 cb =>
      mkLex (i ++ map matched (matchAll IPV4_REGEX trimmedLine))
            k nr rr nd rd ls ic ms r1 r2 cb
  end.

Definition lexLine (lineIdx : nat) (line trimmedLine : string) (st : St) : St :=
  let cs := currentSection (loc st) in
  let css := currentSubSection (loc st) in
  let lx1 := extractDrafts cs css trimmedLine
               (extractRfc cs css trimmedLine (lex st)) in
  let '(lx2, inCode) := scanLine lineIdx line trimmedLine lx1
                          (inCodeBlock (loc st)) in
  let '(lx3, li) := inlineCodeCheck lineIdx line inCode lx2
                      (INLINE_CODE_FORMAT_lastIndex (re st)) in
  mkSt (pageCount st) (extractIpv4 trimmedLine lx3) (str st)
       (mkLocals (docKind (loc st)) cs css inCode)
       (mkReState li (SUBSECTION_PATTERN_lastIndex (re st))).

(** ** The structural part of the loop body *)

(** The two property reads of the loop that can fail with a TypeError. *)
Inductive TypeError : Type :=
| groups_of_null          (* values.groups, values being null *)
| indexOf_of_undefined    (* obsoletesValues.indexOf, no colon on the line *)
| push_of_null.           (* data.content[currentSection].push *)

Definition set_header (h : Header) (s : Struct) : Struct :=
  mkStruct h (title s) (slug s) (content s) (m_header s) (m_title s)
           (m_slug s) (markers s).
Definition set_title (t : option string) (n : nat) (s : Struct) : Struct :=
  mkStruct (header s) t (slug s) (content s) (m_header s) n
           (m_slug s) (markers s).
Definition set_slug (t : option string) (n : nat) (s : Struct) : Struct :=
  mkStruct (header s) (title s) t (content s) (m_header s) (m_title s)
           n (markers s).
Definition set_content (c : PerSection (option (list string))) (s : Struct)
  : Struct :=
  mkStruct (header s) (title s) (slug s) c (m_header s) (m_title s)
           (m_slug s) (markers s).
Definition set_m_header (m : HeaderMarker) (s : Struct) : Struct :=
  mkStruct (header s) (title s) (slug s) (content s) m (m_title s)
           (m_slug s) (markers s).
Definition set_markers (m : PerSection Marker) (s : Struct) : Struct :=
  mkStruct (header s) (title s) (slug s) (content s) (m_header s) (m_title s)
           (m_slug s) m.

Definition set_str (s : Struct) (st : St) : St :=
  mkSt (pageCount st) (lex st) s (loc st) (re st).
Definition set_loc (l : Locals) (st : St) : St :=
  mkSt (pageCount st) (lex st) (str st) l (re st).
Definition set_docKind (k : DocKind) (l : Locals) : Locals :=
  mkLocals (Some k) (currentSection l) (currentSubSection l) (inCodeBlock l).
Definition set_currentSection (c : option SectionName) (l : Locals) : Locals :=
  mkLocals (docKind l) c (currentSubSection l) (inCodeBlock l).
Definition set_currentSubSection (c : option SubSectionName) (l : Locals)
  : Locals :=
  mkLocals (docKind l) (currentSection l) c (inCodeBlock l).

(** [authors.findLast(el => ...)] with the callback that gives [v] as
    organisation to every author, from the last one backwards, until it
    meets one that has an organisation. *)
Fixpoint fillOrg_back (v : string) (l : list Author) : list Author :=
  match l with
  | [] => []
  | a :: tl =>
      match org a with
      | Some _ => l
      | None => mkAuthor (name a) (Some v) :: fillOrg_back v tl
      end
  end.
Definition fillOrg (v : string) (l : list Author) : list Author :=
  rev (fillOrg_back v (rev l)).

(** [values.left.split(':')?.[1]?.trim()] *)
Definition afterColon (vleft : string) : option string :=
  option_map trim (nth_error (split ":" vleft) 1).

(** The first line of the header. *)
Definition firstHeaderLine (lineIdx : nat) (trimmedLine : string) (s : Struct)
  : TypeError + Struct :=
  match exec LINE_VALUES_EXTRACT_RE trimmedLine with
  | None => inl groups_of_null
  | Some values =>
      let h := header s in
      inr (set_m_header (mkHeaderMarker lineIdx lineIdx lineIdx false)
             (set_header
                (mkHeader (group 1 values)
                   (authors h ++ [mkAuthor (group_or 2 values "") None])
                   (date h) (rfcNumber h) (obsoletes h) (issn h) (expires h))
                s))
  end.

(** The fields read from the left column of a later header line. *)
Definition headerFields (vleft : string) (h : Header) (l : Locals)
  : TypeError + (Header * Locals) :=
  (* Document kind *)
  let '(h1, l1) :=
    if includes "Internet-Draft" vleft then (h, set_docKind draft l)
    else if startsWith "Request for Comments" vleft
         then (mkHeader (source h) (authors h) (date h) (afterColon vleft)
                        (obsoletes h) (issn h) (expires h),
               set_docKind rfc l)
         else (h, l) in
  (* Obsoletes *)
  match (if startsWith "Obsoletes" vleft
         then match afterColon vleft with
              | None => inl indexOf_of_undefined
              | Some obsoletesValues =>
                  inr (mkHeader (source h1) (authors h1) (date h1)
                         (rfcNumber h1)
                         (Some (if includes "," obsoletesValues
                                then map trim (split "," obsoletesValues)
                                else [obsoletesValues]))
                         (issn h1) (expires h1))
              end
         else inr h1) with
  | inl e => inl e
  | inr h2 =>
      (* ISSN *)
      let h3 := if startsWith "ISSN" vleft
                then mkHeader (source h2) (authors h2) (date h2) (rfcNumber h2)
                              (obsoletes h2) (afterColon vleft) (expires h2)
                else h2 in
      (* Expires *)
      let h4 :=
        if startsWith "Expires" vleft
        then match exec DATE_RE (of_undefined (afterColon vleft)) with
             | Some dateValue =>
                 mkHeader (source h3) (authors h3) (date h3) (rfcNumber h3)
                   (obsoletes h3) (issn h3)
                   (Some (group_or 1 dateValue "1" ++ " "
                          ++ group_or 2 dateValue "" ++ " "
                          ++ group_or 3 dateValue "")%string)
             | None => h3
             end
        else h3 in
      inr (h4, l1)
  end.

(** The date and the authors of a later header line; the result is the
    header and whether [markers.header.lastAuthor] is set to this line. *)
Definition headerDateAuthors (lineIdx lastAuthor0 : nat) (vleft : string)
    (vright : option string) (h : Header) : Header * bool :=
  let date1 :=
    match exec DATE_RE vleft with
    | Some x => Some (mkHeaderDate (option_map parseInt_digits (group 1 x))
                                   (group_or 2 x "")
                                   (parseInt_digits (group_or 3 x "")))
    | None => date h
    end in
  match date1 with
  | Some _ =>
      (mkHeader (source h) (authors h) date1 (rfcNumber h) (obsoletes h)
                (issn h) (expires h), false)
  | None =>
      let authors1 :=
        match exec AUTHOR_NAME_RE (of_null vright) with
        | Some authorNameValue =>
            (if lastAuthor0 + 1 <? lineIdx
             then fillOrg "" (authors h) else authors h)
            ++ [mkAuthor (matched authorNameValue) None]
        | None =>
            match vright with
            | Some r => if truthy r then fillOrg r (authors h) else authors h
            | None => authors h
            end
        end in
      (mkHeader (source h) authors1 date1 (rfcNumber h) (obsoletes h)
                (issn h) (expires h), true)
  end.

(** A later header line (the [else] branch at [markers.header.end = lineIdx]). *)
Definition laterHeaderLine (lineIdx : nat) (line trimmedLine : string)
    (st : St) : TypeError + St :=
  let s := str st in
  let hm := m_header s in
  let s1 := set_m_header
              (mkHeaderMarker (h_start hm) lineIdx (lastAuthor hm) (h_closed hm))
              s in
  let '(vleft, vright) :=
    match exec LINE_VALUES_EXTRACT_RE line with
    | Some x => (group_or 1 x "", Some (group_or 2 x ""))
    | None => (trimmedLine, None)
    end in
  if truthy vleft then
    match headerFields vleft (header s1) (loc st) with
    | inl e => inl e
    | inr (h1, l1) =>
        let '(h2, setLast) :=
          headerDateAuthors lineIdx (lastAuthor hm) vleft vright h1 in
        let hm1 := m_header s1 in
        let hm2 := if setLast
                   then mkHeaderMarker (h_start hm1) (h_end hm1) lineIdx
                                       (h_closed hm1)
                   else hm1 in
        inr (set_loc l1 (set_str (set_m_header hm2 (set_header h2 s1)) st))
    end
  else inr (set_str s1 st).

(** [markers.header.closed = true; markers.title = lineIdx;
     data.title = trimmedLine] *)
Definition closeHeader (lineIdx : nat) (trimmedLine : string) (s : Struct)
  : Struct :=
  let hm := m_header s in
  set_title (Some trimmedLine) lineIdx
    (set_m_header (mkHeaderMarker (h_start hm) (h_end hm) (lastAuthor hm) true) s).

(** The first header block; the boolean says whether the line ends there
    ([continue]). *)
Definition headerBlock (lineIdx : nat) (line trimmedLine : string) (st : St)
  : TypeError + (St * bool) :=
  let hm := m_header (str st) in
  if h_start hm =? 0 then
    match firstHeaderLine lineIdx trimmedLine (str st) with
    | inl e => inl e
    | inr s => inr (set_str s st, true)
    end
  else if negb (h_closed hm) then
    if h_end hm + 1 <? lineIdx
    then inr (set_str (closeHeader lineIdx trimmedLine (str st)) st, false)
    else match laterHeaderLine lineIdx line trimmedLine st with
         | inl e => inl e
         | inr st' => inr (st', false)
         end
  else inr (st, false).

(** [data.title && lineIdx === markers.title + 1] *)
Definition isSlugLine (lineIdx : nat) (s : Struct) : bool :=
  match title s with
  | Some t => truthy t && (lineIdx =? m_title s + 1)
  | None => false
  end.

Definition setStart (lineIdx : nat) (mk : Marker) : Marker :=
  mkMarker lineIdx (end_ mk) (closed mk).
Definition closeAt (e : nat) (mk : Marker) : Marker :=
  mkMarker (start mk) e true.

(** The abstract block. *)
Definition abstractBlock (lineIdx : nat) (line trimmedLine : string) (st : St)
  : St :=
  let s := str st in
  if String.eqb trimmedLine "Abstract" then
    set_loc (set_currentSection (Some abstract) (loc st))
      (set_str
         (set_content (put abstract (Some []) (content s))
            (set_markers
               (put abstract (setStart lineIdx (get abstract (markers s)))
                    (markers s)) s))
         st)
  else
    let mk := get abstract (markers s) in
    if negb (start mk =? 0) && negb (closed mk) then
      if startsWith "Status of" trimmedLine || negb (startsWith "  " line)
      then set_str (set_markers
                      (put abstract (closeAt (lineIdx - 1) mk) (markers s)) s)
                   st
      else st
    else st.

(** The second header block; [None] when the line does not end there. *)
Definition headerBlock2 (lineIdx : nat) (trimmedLine : string) (s : Struct)
  : option Struct :=
  let hm := m_header s in
  if h_start hm =? 0 then
    let s1 := set_m_header (mkHeaderMarker lineIdx lineIdx (lastAuthor hm)
                                           (h_closed hm)) s in
    let s2 :=
      match exec LINE_VALUES_EXTRACT_RE trimmedLine with
      | Some values =>
          let h := header s1 in
          set_header
            (mkHeader (group 1 values)
               (authors h ++ [mkAuthor (group_or 2 values "") None])
               (date h) (rfcNumber h) (obsoletes h) (issn h) (expires h)) s1
      | None => s1
      end in
    let hm2 := m_header s2 in
    Some (set_m_header (mkHeaderMarker (h_start hm2) (h_end hm2) lineIdx
                                       (h_closed hm2)) s2)
  else if negb (h_closed hm) then
    if h_end hm + 1 <? lineIdx
    then Some (closeHeader lineIdx trimmedLine s)
    else Some (set_m_header (mkHeaderMarker (h_start hm) lineIdx
                                            (lastAuthor hm) (h_closed hm)) s)
  else None.

(** [if (currentSection && !markers[currentSection].closed)]: close the
    current section at line [e]. *)
Definition closeCurrent (e : nat) (cs : option SectionName)
    (ms : PerSection Marker) : PerSection Marker :=
  match cs with
  | Some c =>
      if negb (closed (get c ms)) then put c (closeAt e (get c ms)) ms else ms
  | None => ms
  end.

Definition isSectionHeading (trimmedLine : string) : bool :=
  test SECTION_PATTERN trimmedLine || test AUTHOR_SECTION_RE trimmedLine.

Definition matchedSection (trimmedLine : string) : option SectionName :=
  option_map fst (find (fun p => test (snd p) trimmedLine) sectionMatchers).

(** Section detection. *)
Definition sectionBlock (lineIdx : nat) (trimmedLine : string) (st : St) : St :=
  if isSectionHeading trimmedLine then
    let s := str st in
    let ms1 := closeCurrent (lineIdx - 1) (currentSection (loc st)) (markers s) in
    match matchedSection trimmedLine with
    | Some c =>
        set_loc (set_currentSection (Some c) (loc st))
          (set_str
             (set_content (put c (Some []) (content s))
                (set_markers (put c (setStart lineIdx (get c ms1)) ms1) s))
             st)
    | None =>
        set_loc (set_currentSection None (loc st))
          (set_str (set_markers ms1 s) st)
    end
  else st.

(** Subsection detection: one [test] of the module-level SUBSECTION_PATTERN,
    which carries its [lastIndex]. *)
Definition subsectionBlock (trimmedLine : string) (st : St) : St :=
  let '(isSub, li) :=
    test_g SUBSECTION_PATTERN (SUBSECTION_PATTERN_lastIndex (re st))
           trimmedLine in
  let st1 := mkSt (pageCount st) (lex st) (str st) (loc st)
                  (mkReState (INLINE_CODE_FORMAT_lastIndex (re st)) li) in
  if isSub && negb (test TOC_PATTERN trimmedLine) then
    set_loc (set_currentSubSection
               (option_map fst
                  (find (fun p => test (snd p) trimmedLine) subsectionMatchers))
               (loc st1)) st1
  else st1.

(** [data.content[currentSection].push(trimmedLine)] *)
Definition contentBlock (trimmedLine : string) (st : St) : TypeError + St :=
  match currentSection (loc st) with
  | Some c =>
      let mk := get c (markers (str st)) in
      if negb (start mk =? 0) && negb (closed mk) then
        match get c (content (str st)) with
        | Some lines =>
            inr (set_str (set_content
                            (put c (Some (lines ++ [trimmedLine]))
                                 (content (str st))) (str st)) st)
        | None => inl push_of_null
        end
      else inr st
  | None => inr st
  end.

(** The loop body from the header on. *)
Definition structLine (lineIdx : nat) (line trimmedLine : string) (st : St)
  : TypeError + St :=
  match headerBlock lineIdx line trimmedLine st with
  | inl e => inl e
  | inr (st1, true) => inr st1
  | inr (st1, false) =>
      if isSlugLine lineIdx (str st1)
      then inr (set_str (set_slug (Some trimmedLine) lineIdx (str st1)) st1)
      else
        let st2 := abstractBlock lineIdx line trimmedLine st1 in
        match headerBlock2 lineIdx trimmedLine (str st2) with
        | Some s => inr (set_str s st2)
        | None =>
            contentBlock trimmedLine
              (subsectionBlock trimmedLine
                 (sectionBlock lineIdx trimmedLine st2))
        end
  end.

(** One turn of the loop over [rawText.split(LF)], for line number
    [lineIdx] (already incremented). *)
Definition stepLine (lineIdx : nat) (line : string) (st : St)
  : TypeError * ReState + St :=
  let trimmedLine := trim line in
  if existsb (Ascii.eqb FF) (list_ascii_of_string line)
  then inr (mkSt (S (pageCount st)) (lex st) (str st) (loc st) (re st))
  else if negb (truthy trimmedLine) then inr st
  else
    let st1 := lexLine lineIdx line trimmedLine st in
    match structLine lineIdx line trimmedLine st1 with
    | inl e => inl (e, re st1)
    | inr st2 => inr st2
    end.

(** The loop: [lineIdx] is the number of lines read so far. *)
Fixpoint loop (lineIdx : nat) (lines : list string) (st : St)
  : (nat * TypeError) * ReState + nat * St :=
  match lines with
  | [] => inr (lineIdx, st)
  | line :: tl =>
      match stepLine (S lineIdx) line st with
      | inl (e, r) => inl ((S lineIdx, e), r)
      | inr st' => loop (S lineIdx) tl st'
      end
  end.

(** ** The part of [parse] before the loop *)

(** [rawText.replace(/\s+/g, ' ').trim()] *)
Fixpoint collapse (l : list ascii) (inSpace : bool) : list ascii :=
  match l with
  | [] => []
  | c :: tl =>
      if is_space c
      then if inSpace then collapse tl true else " "%char :: collapse tl true
      else c :: collapse tl false
  end.
Definition normalize (rawText : string) : string :=
  trim (string_of_list_ascii (collapse (list_ascii_of_string rawText) false)).

(** [test] of the i-th expression of BOILERPLATE_PATTERNS, which carries
    its [lastIndex]. *)
Definition testPattern (i : nat) (text : string) (lis : list nat)
  : bool * list nat :=
  match nth_error BOILERPLATE_PATTERNS i, nth_error lis i with
  | Some r, Some li =>
      let '(b, li') := test_g r li text in
      (b, firstn i lis ++ li' :: skipn (S i) lis)
  | _, _ => (false, lis)
  end.

(** The key words of the first match of each boilerplate pattern;
    [text.match(pattern)] sets [lastIndex] to 0 and leaves it at 0. *)
Definition boilerplateKeywords (text : string) : list string :=
  fold_left
    (fun acc pattern =>
       match matchAll pattern text with
       | first :: _ =>
           fold_left (fun acc' km =>
                        if hasString (matched km) acc' then acc'
                        else acc' ++ [matched km])
                     (matchAll KEYWORDS_PATTERN (matched first)) acc
       | [] => acc
       end)
    BOILERPLATE_PATTERNS [].

(** One group of hasBoilerplateMatch: the number of leading parts that
    match, and the [lastIndex] values afterwards. *)
Fixpoint countParts (text : string) (parts : list (regex * bool))
    (lis : list nat) : nat * list nat :=
  match parts, lis with
  | (r, g) :: ps, li :: lis' =>
      let '(b, li') := if g then test_g r li text else (test r text, li) in
      if b
      then let '(n, rest) := countParts text ps lis' in (S n, li' :: rest)
      else (0, li' :: lis')
  | _, _ => (0, lis)
  end.

(** hasBoilerplateMatch *)
Fixpoint hasBoilerplateMatch (text : string)
    (regexGroups : list (list (regex * bool))) (lis : list (list nat))
  : bool * list (list nat) :=
  match regexGroups, lis with
  | group :: gs, li :: lis' =>
      let '(matchCount, li') := countParts text group li in
      if 0 <? matchCount then (true, li' :: lis')
      else let '(b, rest) := hasBoilerplateMatch text gs lis' in
           (b, li' :: rest)
  | _, _ => (false, lis)
  end.

(** extractRfcNumbers; the [while] loop over [regex.exec] ends on [null]. *)
Definition extractRfcNumbers (text : string) (regex : regex) : list string :=
  flat_map
    (fun x =>
       match group 1 x with
       | Some rfcList =>
           if truthy rfcList
           then map (fun n => trim (matched n)) (matchAll NUMBER_RE rfcList)
           else []
       | None => []
       end)
    (matchAll regex text).

(** The properties of [data] that are computed from the normalised text,
    and the module state afterwards. *)
Definition wholeText (ms : ModuleState) (rawText : string)
  : Whole * ModuleState :=
  let normalizedText := normalize rawText in
  let '(b2119, lis1) :=
    testPattern 0 normalizedText (BOILERPLATE_PATTERNS_lastIndex ms) in
  let '(b2119alt, lis2) :=
    if b2119 then (true, lis1) else testPattern 1 normalizedText lis1 in
  let '(b8174, lis3) := testPattern 2 normalizedText lis2 in
  let '(similar, parts) :=
    hasBoilerplateMatch normalizedText BOILERPLATE_PARTS
                        (BOILERPLATE_PARTS_lastIndex ms) in
  (mkWhole b2119alt b8174 similar
           (boilerplateKeywords normalizedText)
           (extractRfcNumbers normalizedText OBSOLETES_RE)
           (extractRfcNumbers normalizedText UPDATES_RE)
           (test revised_bsd_license normalizedText),
   mkModuleState (lineRe ms) (map (fun _ => 0) lis3) parts).

(** The parsed document. *)
Record Data : Type := mkData {
  data_pageCount : nat;
  data_whole : Whole;
  data_lex : Lex;
  data_str : Struct
}.

Record TXTDocObject : Type := mkTXTDocObject {
  doc_docKind : option DocKind;
  body : string;
  data : Data;
  filename : string
}.

(** ValidationError TXT_PARSING_FAILED, with the line of the failure. *)
Inductive ParseResult : Type :=
| Parsed (doc : TXTDocObject)
| TXT_PARSING_FAILED (line : nat) (cause : TypeError).

(** [parse(rawText, filename)], run with the module state [ms0]; the second
    component is the module state that the call leaves behind. *)
Definition parse (ms0 : ModuleState) (rawText filename : string)
  : ParseResult * ModuleState :=
  let '(whole, ms1) := wholeText ms0 rawText in
  match loop 0 (split LF rawText) (initial (lineRe ms1)) with
  | inl ((n, e), r) =>
      (TXT_PARSING_FAILED n e,
       mkModuleState r (BOILERPLATE_PATTERNS_lastIndex ms1)
                     (BOILERPLATE_PARTS_lastIndex ms1))
  | inr (lineIdx, st) =>
      let s := str st in
      let s' := set_markers
                  (closeCurrent lineIdx (currentSection (loc st)) (markers s)) s in
      (Parsed (mkTXTDocObject (docKind (loc st)) rawText
                 (mkData (pageCount st) whole (lex st) s') filename),
       mkModuleState (re st) (BOILERPLATE_PATTERNS_lastIndex ms1)
                     (BOILERPLATE_PARTS_lastIndex ms1))
  end.

(** The module state when the module has just been loaded. *)
Definition fresh : ModuleState :=
  mkModuleState (mkReState 0 0) [0; 0; 0]
    (map (map (fun _ => 0)) BOILERPLATE_PARTS).

End Txt.

(* ================================================================== *)
(** * The values of the parsed XML tree                                *)
(* ================================================================== *)

Module JsValue.

(** A value as the XML parser builds it and as the validators read it. *)
#[warnings="-register-all"]
Inductive JsVal : Type :=
| JUndefined
| JNull
| JBool (b : bool)
| JNum (n : nat)
| JStr (s : string)
| JArr (items : list JsVal)
| JObj (props : list (string * JsVal)).

Fixpoint lookup (p : string) (props : list (string * JsVal)) : JsVal :=
  match props with
  | [] => JUndefined
  | (k, v) :: tl => if String.eqb k p then v else lookup p tl
  end.

(** [v.p] for a property name that no built-in prototype defines; [None] is
    the TypeError of reading a property of [undefined] or [null]. *)
Definition prop (p : string) (v : JsVal) : option JsVal :=
  match v with
  | JUndefined | JNull => None
  | JObj props => Some (lookup p props)
  | _ => Some JUndefined
  end.

Definition truthy (v : JsVal) : bool :=
  match v with
  | JUndefined | JNull => false
  | JBool b => b
  | JNum n => negb (n =? 0)
  | JStr s => Js.truthy s
  | JArr _ | JObj _ => true
  end.

End JsValue.

Import JsValue.

(* ================================================================== *)
(** * The XML adapter                                                  *)
(* ================================================================== *)

Module Xml.

(** /<!ENTITY\s+([a-zA-Z0-9-._]+)\s+(SYSTEM|PUBLIC)\s+QUOTE(.* )QUOTE>/g,
    QUOTE being the double quote *)
Definition dquote : ascii := Txt.dquote.
Definition externalEntityRgx : regex :=
  cats [lit "<!ENTITY"; Plus (Chr is_space);
        Group 1 (Plus (Chr (fun c => is_alnum c || Ascii.eqb c "-"
                                     || Ascii.eqb c "." || Ascii.eqb c "_")));
        Plus (Chr is_space);
        Group 2 (Alt (lit "SYSTEM") (lit "PUBLIC"));
        Plus (Chr is_space);
        ch dquote; Group 3 (Star (Chr is_dot)); ch dquote; ch ">"].

Record ExternalEntity : Type := mkExternalEntity {
  original : string;
  name : string;
  type : string;
  url : string
}.

Definition entityOf (x : rmatch) : ExternalEntity :=
  mkExternalEntity (matched x)
    (match group 1 x with Some s => s | None => "" end)
    (match group 2 x with Some s => s | None => "" end)
    (match group 3 x with Some s => s | None => "" end).

(** The entities that the callback of [replaceAll] collects. *)
Definition externalEntitiesOf (rawText : string) : list ExternalEntity :=
  map entityOf (matchAll externalEntityRgx rawText).

Definition cleanRawText (rawText : string) : string :=
  delete_all externalEntityRgx rawText.

Record XMLDocObject : Type := mkXMLDocObject {
  filename : string;
  externalEntities : list ExternalEntity;
  data : JsVal
}.

(** ValidationError XML_PARSING_FAILED with the message of the parser. *)
Inductive ParseResult : Type :=
| Parsed (doc : XMLDocObject)
| XML_PARSING_FAILED (message : string).

Section WithParser.

(** [parser.parse] of the XML library, configured as in the source: the
    tree, or the message of the error it throws. *)
Variable XMLParser_parse : string -> string + JsVal.

Definition parse (rawText filename : string) : ParseResult :=
  let externalEntities := externalEntitiesOf rawText in
  match XMLParser_parse (cleanRawText rawText) with
  | inr data => Parsed (mkXMLDocObject filename externalEntities data)
  | inl message => XML_PARSING_FAILED message
  end.

End WithParser.

End Xml.

(* ================================================================== *)
(** * Findings and modes                                               *)
(* ================================================================== *)

Module Findings.

(** Modelled from the spec: the classes ValidationError, ValidationWarning
    and ValidationComment of lib/helpers/error.mjs, which is not among these
    sources.  The spec gives a finding a severity, a code, a message, an
    optional reference URL and optional lines; the command line reads them
    as [name], [message], [refUrl] and [lines]. *)
Inductive Severity : Type := Error | Warning | Comment.

Record Finding : Type := mkFinding {
  severity : Severity;
  name : string;                        (* the code *)
  message : string;
  refUrl : option string;
  lines : option (list (nat * nat))
}.

(** Modelled from the spec: the constant MODES of lib/config/modes.mjs, which
    is not among these sources; the spec gives the three modes NORMAL,
    FORGIVE_CHECKLIST and SUBMISSION. *)
Inductive Mode : Type := NORMAL | FORGIVE_CHECKLIST | SUBMISSION.


End Findings.

Import Findings.

(* ================================================================== *)
(** * The reference validators (lib/modules/downref.mjs) and the helper
      extractDefinedReferences (lib/helpers/utils.mjs)                 *)
(* ================================================================== *)

Module Downref.

(** What a validator call ends with: the finding list it returns, or the
    exception that leaves it. *)
Inductive Exn : Type :=
| TypeError                     (* a property read or call on a wrong value *)
| Rejection (reason : string).  (* an awaited helper that rejects *)

Inductive Res (A : Type) : Type :=
| Ok (a : A)
| Throw (e : Exn).
Arguments Ok {A}.
Arguments Throw {A}.

Definition bind {A B} (x : Res A) (f : A -> Res B) : Res B :=
  match x with
  | Ok a => f a
  | Throw e => Throw e
  end.
Notation "x <- c ;; k" := (bind c (fun x => k))
  (at level 61, c at next level, right associativity).

(** The document handed to a validator. *)
Inductive Doc : Type :=
| TxtDoc (doc : Txt.TXTDocObject)
| XmlDoc (doc : Xml.XMLDocObject).

(** The object that fetchRemoteRfcInfo resolves to, as far as the validators
    read it; [None] is an absent property. *)
Record RfcInfo : Type := mkRfcInfo {
  status : option string;
  obsoleted_by : option (list string);
  rfc : option string
}.

(** The object that fetchRemoteDocInfoJson resolves to. *)
Record DraftInfo : Type := mkDraftInfo {
  state : option string
}.

(** The outcome of awaiting a remote helper: a value ([None] for null or
    undefined), or a rejection. *)
Inductive Lookup (A : Type) : Type :=
| Resolved (v : option A)
| Rejected (reason : string).
Arguments Resolved {A}.
Arguments Rejected {A}.

(** [String(v)] *)
Fixpoint toString (v : JsVal) : string :=
  match v with
  | JUndefined => "undefined"
  | JNull => "null"
  | JBool true => "true"
  | JBool false => "false"
  | JNum n => decimal n
  | JStr s => s
  | JArr items =>
      join "," (map (fun x => match x with
                              | JUndefined | JNull => ""
                              | _ => toString x
                              end) items)
  | JObj _ => "[object Object]"
  end.

(** A chain of property reads, [v.p1.p2...]. *)
Fixpoint path (ps : list string) (v : JsVal) : Res JsVal :=
  match ps with
  | [] => Ok v
  | p :: tl =>
      match prop p v with
      | Some v' => path tl v'
      | None => Throw TypeError
      end
  end.

(** [forEach] over the items with a body that may throw. *)
Fixpoint forEach {A S} (body : S -> A -> Res S) (items : list A) (acc : S)
  : Res S :=
  match items with
  | [] => Ok acc
  | x :: tl => acc' <- body acc x ;; forEach body tl acc'
  end.

(** utils.mjs, extractDefinedReferences *)
Definition extractDefinedReferences (referencesSections : JsVal)
  : Res (list JsVal) :=
  match referencesSections with
  | JArr sections =>
      forEach (fun definedReferences section =>
        reference <- path ["reference"] section ;;
        match reference with
        | JArr refs =>
            forEach (fun defined ref =>
              attr <- path ["_attr"] ref ;;
              if truthy attr then
                anchor <- path ["anchor"] attr ;;
                Ok (if truthy anchor then defined ++ [anchor] else defined)
              else Ok defined) refs definedReferences
        | _ => Ok definedReferences
        end) sections []
  | _ => Throw TypeError
  end.

(** /^\[|\]$/g and /-\d{2}$/ *)
Definition BRACKETS_RE : regex :=
  Alt (Cat Bol (ch "[")) (Cat (ch "]") Eol).
Definition VERSION_RE : regex :=
  cats [ch "-"; Times 2 (Chr is_digit); Eol].

Definition stripDraft (ref : string) : string :=
  delete_first VERSION_RE (delete_all BRACKETS_RE ref).

(** normalizeDraftReferences *)
Definition normalizeDraftReferences (references : list string) : list string :=
  filter (fun ref => includes "draft" (toLowerCase ref))
         (map stripDraft references).

(** /^RFC\d+$/i, /draft/i, /\d+/ *)
Definition RFC_ANCHOR_RE : regex :=
  cats [Bol; liti "RFC"; Plus (Chr is_digit); Eol].
Definition DRAFT_RE : regex := liti "draft".
Definition DIGITS_RE : regex := Plus (Chr is_digit).

(** [ref.match(/\d+/)[0]] *)
Definition firstDigits (ref : string) : Res string :=
  match exec DIGITS_RE ref with
  | Some x => Ok (matched x)
  | None => Throw TypeError
  end.

(** normalizeXmlReferences; only a string has [match] and [trim]. *)
Definition normalizeXmlReferences (references : list JsVal)
  : Res (list string) :=
  forEach (fun normalizedReferences ref =>
    if test RFC_ANCHOR_RE (toString ref) then
      match ref with
      | JStr s =>
          rfcNumber <- firstDigits s ;;
          Ok (normalizedReferences ++ [("RFC " ++ rfcNumber)%string])
      | _ => Throw TypeError
      end
    else if test DRAFT_RE (toString ref) then
      match ref with
      | JStr s => Ok (normalizedReferences ++ [stripDraft (trim s)])
      | _ => Throw TypeError
      end
    else Ok normalizedReferences) references [].

(** [doc.data.rfc.back.references.references], then the two helpers. *)
Definition xmlReferences (doc : Xml.XMLDocObject) : Res (list string) :=
  referencesSections <-
    path ["rfc"; "back"; "references"; "references"] (Xml.data doc) ;;
  definedReferences <- extractDefinedReferences referencesSections ;;
  normalizeXmlReferences definedReferences.

Definition lexOf (doc : Txt.TXTDocObject) : Txt.Lex :=
  Txt.data_lex (Txt.data doc).

Definition subsection_is (n : Txt.SubSectionName) (el : Txt.RefEntry) : bool :=
  match Txt.subsection el, n with
  | Some Txt.normative_references, Txt.normative_references
  | Some Txt.informative_references, Txt.informative_references
  | Some Txt.unclassified_references, Txt.unclassified_references => true
  | _, _ => false
  end.

Section WithRemote.

(** The helpers of lib/config/rfc-status-hierarchy.mjs, lib/helpers/remote.mjs
    and lib/remote/downref.mjs, which are not among these sources. *)
Variable getStatusWeight : string -> option nat.
Variable fetchRemoteRfcInfo : string -> Lookup RfcInfo.
Variable fetchRemoteDocInfoJson : string -> Lookup DraftInfo.
Variable checkReferencesInDownrefs : list string -> Lookup (list string).

Definition await {A} (l : Lookup A) : Res (option A) :=
  match l with
  | Resolved v => Ok v
  | Rejected reason => Throw (Rejection reason)
  end.

(** The [forEach] over the downref matches, the same in both branches. *)
Definition downrefFindings (mode : Mode) (downrefMatches : list string)
  : list Finding :=
  flat_map (fun m =>
    let msg := ("Draft " ++ m ++ " is listed in the Downref Registry.")%string in
    let ref := Some ("https://datatracker.ietf.org/doc/" ++ m)%string in
    match mode with
    | NORMAL => [mkFinding Error "DOWNREF_DRAFT" msg ref None]
    | FORGIVE_CHECKLIST => [mkFinding Warning "DOWNREF_DRAFT" msg ref None]
    | SUBMISSION => []
    end) downrefMatches.

(** The value that [await checkReferencesInDownrefs(...)] gives must have
    [forEach]. *)
Definition awaitMatches (refs : list string) : Res (list string) :=
  r <- await (checkReferencesInDownrefs refs) ;;
  match r with
  | Some l => Ok l
  | None => Throw TypeError
  end.

Definition validateDownrefs (doc : Doc) (mode : Mode) : Res (list Finding) :=
  match mode with
  | SUBMISSION => Ok []
  | _ =>
      match doc with
      | TxtDoc t =>
          let rfcs := map (fun r => ("RFC " ++ Txt.value r)%string)
                          (Txt.referenceSectionRfc (lexOf t)) in
          let drafts := normalizeDraftReferences
                          (map Txt.value
                               (Txt.referenceSectionDraftReferences (lexOf t))) in
          downrefMatches <- awaitMatches (rfcs ++ drafts) ;;
          Ok (downrefFindings mode downrefMatches)
      | XmlDoc x =>
          normilizedReferences <- xmlReferences x ;;
          downrefMatches <- awaitMatches normilizedReferences ;;
          Ok (downrefFindings mode downrefMatches)
      end
  end.

Definition dq : string := String (ascii_of_nat 34) "".

Definition rfcEditorInfo (n : string) : option string :=
  Some ("https://www.rfc-editor.org/info/rfc" ++ n)%string.

(** [!rfcInfo || !rfcInfo.status]: the status when it is there and truthy. *)
Definition definedStatus (rfcInfo : option RfcInfo) : option (RfcInfo * string) :=
  match rfcInfo with
  | Some i =>
      match status i with
      | Some s => if Js.truthy s then Some (i, s) else None
      | None => None
      end
  | None => None
  end.

(** The findings for [rfcInfo.obsoleted_by.length > 0], by mode. *)
Definition obsoleteFindings (mode : Mode) (code msg : string) (i : RfcInfo)
    (obsoleted : list string) : list Finding :=
  if 0 <? length obsoleted then
    match mode with
    | NORMAL =>
        [mkFinding Error code msg (rfcEditorInfo (of_undefined (rfc i))) None]
    | FORGIVE_CHECKLIST =>
        [mkFinding Warning code msg (rfcEditorInfo (of_undefined (rfc i))) None]
    | SUBMISSION => []
    end
  else [].

(** The [for] loop of validateNormativeReferences, the same in the TXT and
    in the XML branch. *)
Fixpoint normativeLoop (mode : Mode) (refs : list string)
    (result : list Finding) : Res (list Finding) :=
  match refs with
  | [] => Ok result
  | rfcNum :: tl =>
      rfcInfo <- await (fetchRemoteRfcInfo rfcNum) ;;
      match definedStatus rfcInfo with
      | None =>
          normativeLoop mode tl
            (result ++
             [mkFinding Comment "UNDEFINED_STATUS"
                ("RFC " ++ rfcNum
                 ++ " does not have a defined status or could not be fetched.")
                (rfcEditorInfo rfcNum) None])
      | Some (i, st) =>
          let result1 :=
            match getStatusWeight st with
            | None =>
                result ++
                [mkFinding Comment "UNKNOWN_STATUS"
                   ("RFC " ++ rfcNum ++ " has an unrecognized status: "
                    ++ dq ++ st ++ dq ++ ".")
                   (rfcEditorInfo rfcNum) None]
            | Some _ => result
            end in
          match obsoleted_by i with
          | None => Throw TypeError
          | Some obsoleted =>
              normativeLoop mode tl
                (result1 ++
                 obsoleteFindings mode "OBSOLETE_DOCUMENT"
                   ("The referenced document RFC " ++ rfcNum
                    ++ " is obsolete and has been replaced by: "
                    ++ join ", " obsoleted ++ ".") i obsoleted)
          end
      end
  end.

(** /^\d+$/ *)
Definition RFC_NUMBER_REG : regex := cats [Bol; Plus (Chr is_digit); Eol].

(** The references that validateNormativeReferences looks up. *)
Definition normativeReferences (doc : Doc) : Res (list string) :=
  match doc with
  | TxtDoc t =>
      Ok (map Txt.value
            (filter (fun el => subsection_is Txt.normative_references el
                               && test RFC_NUMBER_REG (Txt.value el))
                    (Txt.referenceSectionRfc (lexOf t))))
  | XmlDoc x =>
      normalized <- xmlReferences x ;;
      forEach (fun acc ref => n <- firstDigits ref ;; Ok (acc ++ [n]))
              (filter (startsWith "RFC") normalized) []
  end.

Definition validateNormativeReferences (doc : Doc) (mode : Mode)
  : Res (list Finding) :=
  match mode with
  | SUBMISSION => Ok []
  | _ =>
      refs <- normativeReferences doc ;;
      normativeLoop mode refs []
  end.

(** [doc.data.extractedElements.referenceSectionRfc
      .filter(el => el.subsection === n).map(el => el.value)];
    on an XML document the reads go through the parsed tree. *)
Definition subsectionName (n : Txt.SubSectionName) : string :=
  match n with
  | Txt.normative_references => "normative_references"
  | Txt.informative_references => "informative_references"
  | Txt.unclassified_references => "unclassified_references"
  end.

Definition referencesOf (n : Txt.SubSectionName) (doc : Doc)
  : Res (list string) :=
  match doc with
  | TxtDoc t =>
      Ok (map Txt.value
            (filter (subsection_is n) (Txt.referenceSectionRfc (lexOf t))))
  | XmlDoc x =>
      arr <- path ["extractedElements"; "referenceSectionRfc"] (Xml.data x) ;;
      match arr with
      | JArr items =>
          kept <- forEach (fun acc el =>
                    sub <- path ["subsection"] el ;;
                    Ok (match sub with
                        | JStr s => if String.eqb s (subsectionName n)
                                    then acc ++ [el] else acc
                        | _ => acc
                        end)) items [] ;;
          forEach (fun acc el =>
                     v <- path ["value"] el ;; Ok (acc ++ [toString v]))
                  kept []
      | _ => Throw TypeError
      end
  end.

(** The [for] loop of validateUnclassifiedReferences. *)
Fixpoint unclassifiedLoop (mode : Mode) (refs : list string)
    (result : list Finding) : Res (list Finding) :=
  match refs with
  | [] => Ok result
  | ref :: tl =>
      rfcInfo <- await (fetchRemoteRfcInfo ref) ;;
      match definedStatus rfcInfo with
      | None =>
          unclassifiedLoop mode tl
            (result ++
             [mkFinding Comment "UNDEFINED_STATUS"
                ("The unclassified reference " ++ ref
                 ++ " does not have a defined status or could not be fetched.")
                (rfcEditorInfo ref) None])
      | Some (i, _) =>
          match obsoleted_by i with
          | None => Throw TypeError
          | Some obsoleted =>
              unclassifiedLoop mode tl
                (result ++
                 obsoleteFindings mode "OBSOLETE_UNCLASSIFIED_REFERENCE"
                   ("The unclassified reference " ++ ref
                    ++ " is obsolete and has been replaced by: "
                    ++ join ", " obsoleted ++ ".") i obsoleted)
          end
      end
  end.

Definition validateUnclassifiedReferences (doc : Doc) (mode : Mode)
  : Res (list Finding) :=
  match mode with
  | SUBMISSION => Ok []
  | _ =>
      refs <- referencesOf Txt.unclassified_references doc ;;
      unclassifiedLoop mode refs []
  end.

(** The [for] loop of validateInformativeReferences. *)
Fixpoint informativeLoop (mode : Mode) (refs : list string)
    (result : list Finding) : Res (list Finding) :=
  match refs with
  | [] => Ok result
  | ref :: tl =>
      rfcInfo <- await (fetchRemoteRfcInfo ref) ;;
      match definedStatus rfcInfo with
      | None =>
          informativeLoop mode tl
            (result ++
             [mkFinding Comment "UNDEFINED_STATUS"
                ("The informative reference RFC " ++ ref
                 ++ " does not have a defined status or could not be fetched.")
                (rfcEditorInfo ref) None])
      | Some (i, _) =>
          match obsoleted_by i with
          | None => Throw TypeError
          | Some obsoleted =>
              informativeLoop mode tl
                (result ++
                 obsoleteFindings mode "OBSOLETE_INFORMATIVE_REFERENCE"
                   ("The informative reference RFC " ++ ref
                    ++ " is obsolete and has been replaced by: "
                    ++ join ", " obsoleted ++ ".") i obsoleted)
          end
      end
  end.

Definition validateInformativeReferences (doc : Doc) (mode : Mode)
  : Res (list Finding) :=
  match mode with
  | SUBMISSION => Ok []
  | _ =>
      refs <- referencesOf Txt.informative_references doc ;;
      informativeLoop mode refs []
  end.

Definition datatracker (n : string) : option string :=
  Some ("https://datatracker.ietf.org/doc/" ++ n)%string.

(** The [for] loop of vlidateDraftReferences, the same in both branches. *)
Fixpoint draftLoop (drafts : list string) (result : list Finding)
  : Res (list Finding) :=
  match drafts with
  | [] => Ok result
  | draft_i :: tl =>
      draftInfo <- await (fetchRemoteDocInfoJson draft_i) ;;
      match (match draftInfo with
             | Some i => match state i with
                         | Some s => if Js.truthy s then Some s else None
                         | None => None
                         end
             | None => None
             end) with
      | None =>
          draftLoop tl
            (result ++
             [mkFinding Warning "UNDEFINED_STATE"
                ("The draft reference " ++ draft_i
                 ++ " does not have a defined state or could not be fetched.")
                (datatracker draft_i) None])
      | Some s =>
          draftLoop tl
            (if String.eqb (toLowerCase s) "rfc"
             then result ++
                  [mkFinding Warning "INVALID_STATE_FOR_DRAFT"
                     ("The draft reference " ++ draft_i
                      ++ " is already published as an RFC and should not be referenced as a draft.")
                     (datatracker draft_i) None]
             else result)
      end
  end.

(** [mode] has no default here: [None] is a call without it. *)
Definition vlidateDraftReferences (doc : Doc) (mode : option Mode)
  : Res (list Finding) :=
  match mode with
  | Some SUBMISSION => Ok []
  | _ =>
      match doc with
      | TxtDoc t =>
          draftLoop
            (normalizeDraftReferences
               (map Txt.value (Txt.referenceSectionDraftReferences (lexOf t))))
            []
      | XmlDoc x =>
          normilizedReferences <- xmlReferences x ;;
          draftLoop (filter (startsWith "draft-") normilizedReferences) []
      end
  end.

End WithRemote.

End Downref.

(* ================================================================== *)
(** * The command line, output case json                               *)
(* ================================================================== *)

Module Cli.

Record Nit : Type := mkNit {
  code : string;
  desc : string;
  ref : option string;
  line : option (list (nat * nat))
}.

Record FileInfo : Type := mkFileInfo {
  path : string;
  size : nat
}.

(** The object handed to JSON.stringify. *)
Record JsonReport : Type := mkJsonReport {
  result : string;
  file : FileInfo;
  nits : list Nit
}.

(** [...r.refUrl && { ref: r.refUrl }] adds the property for a truthy
    value only. *)
Definition nitOf (r : Finding) : Nit :=
  mkNit (name r) (message r)
        (match refUrl r with
         | Some u => if Js.truthy u then Some u else None
         | None => None
         end)
        (lines r).

(** The case [json] of the output switch; [findings] is what checkNits
    returned and [docPath] the resolved path of the document. *)
Definition jsonReport (findings : list Finding) (docPath : string)
  : JsonReport :=
  mkJsonReport (if 0 <? length findings then "fail" else "pass")
               (mkFileInfo docPath 0)
               (map nitOf findings).

End Cli.


(* ================================================================== *)
(** * metadata.mjs: the category and the obsoletes / updates checks    *)
(* ================================================================== *)

Module Metadata.

Import JsValue.
Import Findings.
Import Downref.

(** lodash [get(object, path)]: the value at the path, [undefined] when a
    step meets [undefined] or [null]. *)
Fixpoint get (ps : list string) (v : JsVal) : JsVal :=
  match ps with
  | [] => v
  | p :: tl =>
      match prop p v with
      | Some v' => get tl v'
      | None => JUndefined
      end
  end.

(** [new ValidationWarning(code, message, { ref, path })]; the record of
    the findings keeps the reference and not the path. *)
Definition warning (code message ref : string) : Finding :=
  mkFinding Warning code message (Some ref) None.

Definition allowedCategories : list string :=
  ["std"; "bcp"; "info"; "exp"; "historic"].

(** [allowed.includes(docCategory)], by strict equality. *)
Definition isAllowedCategory (docCategory : JsVal) : bool :=
  match docCategory with
  | JStr c => existsb (String.eqb c) allowedCategories
  | _ => false
  end.

(** validateCategory; [docName.startsWith] needs a string. *)
Definition validateCategory (doc : Doc) (mode : Mode) : Res (list Finding) :=
  match doc with
  | TxtDoc _ => Ok []
  | XmlDoc x =>
      let docCategory := get ["rfc"; "_attr"; "category"] (Xml.data x) in
      let docName := get ["rfc"; "_attr"; "docName"] (Xml.data x) in
      match docName with
      | JStr n =>
          if negb (startsWith "draft-" n) && negb (truthy docCategory)
          then Ok [warning "MISSING_DOC_CATEGORY"
                     "The document category attribute is missing on the <rfc> element."
                     "https://authors.ietf.org/en/rfcxml-vocabulary#category"]
          else if truthy docCategory && negb (isAllowedCategory docCategory)
          then Ok [warning "INVALID_DOC_CATEGORY"
                     "The document category has an invalid value. Allowed values are std, bcp, info, exp and historic."
                     "https://authors.ietf.org/en/rfcxml-vocabulary#category"]
          else Ok []
      | _ => Throw TypeError
      end
  end.

(** /[0-9]+/g, a module-level expression: [test] carries its [lastIndex]
    from one call to the next. *)
Definition RFC_NUM_RE : regex := Plus (Chr is_digit).

(** The object that fetchRemoteRfcInfo resolves to, as far as
    validateObsoleteUpdateRef reads it. *)
Record RemoteRfc : Type := mkRemoteRfc {
  r_obsoleted_by : option (list string);
  r_updated_by : option (list string)
}.

(** The two patterns of mentions that the abstract is searched for. *)
Inductive Mention : Type := obsoletes | updates.

(** [get(doc, path, '').split(',').map(r => r.trim()).filter(r => r)];
    only a string has [split], and the default stands in for [undefined]
    only. *)
Definition attributeList (v : JsVal) : Res (list string) :=
  match v with
  | JUndefined => Ok (filter Js.truthy (map trim (split "," "")))
  | JStr s => Ok (filter Js.truthy (map trim (split "," s)))
  | _ => Throw TypeError
  end.

(** lodash [difference(a, b)] on strings. *)
Definition difference (a b : list string) : list string :=
  filter (fun x => negb (existsb (String.eqb x) b)) a.

Definition abstractRef : string :=
  "https://authors.ietf.org/en/required-content#abstract".
Definition obsoletesRef : string :=
  "https://authors.ietf.org/en/rfcxml-vocabulary#obsoletes".
Definition updatesRef : string :=
  "https://authors.ietf.org/en/rfcxml-vocabulary#updates".

Section WithHelpers.

(** The helper of lib/helpers/remote.mjs, and the numbers that the
    callback collects while traverseAllValues of lib/helpers/traversal.mjs
    walks the abstract; neither helper is among these sources.  The callback
    uses [matchAll], which starts from the [lastIndex] of RFC_NUM_RE and
    leaves it as it is. *)
Variable fetchRemoteRfcInfo : string -> Lookup RemoteRfc.
Variable abstractNumbers : Mention -> nat -> JsVal -> Res (list string).

(** The loop over the obsoletes attribute, with the [lastIndex] of
    RFC_NUM_RE. *)
Fixpoint obsoletesLoop (lastIndex : nat) (refs : list string)
    (result : list Finding) : Res (list Finding * nat) :=
  match refs with
  | [] => Ok (result, lastIndex)
  | ref :: tl =>
      let '(isNumber, li) := test_g RFC_NUM_RE lastIndex ref in
      if isNumber then
        rfcInfo <- await (fetchRemoteRfcInfo ref) ;;
        match rfcInfo with
        | None =>
            obsoletesLoop li tl
              (result ++
               [warning "OBSOLETES_RFC_NOT_FOUND"
                  ("The <rfc> field states that it obsoletes RFC " ++ ref
                   ++ " but no matching RFC could be found on rfc-editor.org.")
                  obsoletesRef])
        | Some i =>
            match r_obsoleted_by i with
            | Some (o :: os) =>
                obsoletesLoop li tl
                  (result ++
                   [warning "OBSOLETES_OSOLETED_RFC"
                      ("The <rfc> field states that it obsoletes RFC " ++ ref
                       ++ " but it's already obsoleted by RFC "
                       ++ join ", " (o :: os) ++ ".")
                      obsoletesRef])
            | _ => obsoletesLoop li tl result
            end
        end
      else obsoletesLoop li tl result
  end.

(** The loop over the updates attribute. *)
Fixpoint updatesLoop (lastIndex : nat) (refs : list string)
    (result : list Finding) : Res (list Finding * nat) :=
  match refs with
  | [] => Ok (result, lastIndex)
  | ref :: tl =>
      let '(isNumber, li) := test_g RFC_NUM_RE lastIndex ref in
      if isNumber then
        rfcInfo <- await (fetchRemoteRfcInfo ref) ;;
        match rfcInfo with
        | None =>
            updatesLoop li tl
              (result ++
               [warning "UPDATES_RFC_NOT_FOUND"
                  ("The <rfc> field states that it updates RFC " ++ ref
                   ++ " but no matching RFC could be found on rfc-editor.org.")
                  updatesRef])
        | Some i =>
            match r_obsoleted_by i with
            | Some (o :: os) =>
                updatesLoop li tl
                  (result ++
                   [warning "UPDATES_OSOLETED_RFC"
                      ("The <rfc> field states that it updates RFC " ++ ref
                       ++ " but it's already obsoleted by RFC "
                       ++ join ", " (o :: os) ++ ".")
                      updatesRef])
            | _ =>
                match r_updated_by i with
                | Some (u :: us) =>
                    updatesLoop li tl
                      (result ++
                       [warning "UPDATES_UPDATED_RFC"
                          ("The <rfc> field states that it updates RFC " ++ ref
                           ++ " but it's already updated by RFC "
                           ++ join ", " (u :: us) ++ ".")
                          updatesRef])
                | _ => updatesLoop li tl result
                end
            end
        end
      else updatesLoop li tl result
  end.

(** The four comparisons of the attributes with the abstract. *)
Definition mentionFindings (obsoletesRefs updatesRefs obsoletesAbs updatesAbs
                            : list string) : list Finding :=
  map (fun ref =>
         warning "OBSOLETES_NOT_IN_ABSTRACT"
           ("The document states that it obsoletes RFC " ++ ref
            ++ " but doesn't explicitely mention it in the <abstract> section.")
           abstractRef)
      (difference obsoletesRefs obsoletesAbs)
  ++ map (fun ref =>
            warning "OBSOLETES_NOT_IN_RFC"
              ("The document abstract states that it obsoletes RFC " ++ ref
               ++ " but it's not mentionned in the obsoletes <rfc> field.")
              abstractRef)
         (difference obsoletesAbs obsoletesRefs)
  ++ map (fun ref =>
            warning "UPDATES_NOT_IN_ABSTRACT"
              ("The document states that it updates RFC " ++ ref
               ++ " but doesn't explicitely mention it in the <abstract> section.")
              abstractRef)
         (difference updatesRefs updatesAbs)
  ++ map (fun ref =>
            warning "UPDATES_NOT_IN_RFC"
              ("The document abstract states that it updates RFC " ++ ref
               ++ " but it's not mentionned in the updates <rfc> field.")
              abstractRef)
         (difference updatesAbs updatesRefs).

(** validateObsoleteUpdateRef, called with RFC_NUM_RE at [lastIndex]; the
    second component is the [lastIndex] that the call leaves behind. *)
Definition validateObsoleteUpdateRef (doc : Doc) (mode : Mode)
    (offline : bool) (lastIndex : nat) : Res (list Finding * nat) :=
  match mode with
  | SUBMISSION => Ok ([], lastIndex)
  | _ =>
      match doc with
      | TxtDoc _ => Ok ([], lastIndex)
      | XmlDoc x =>
          obsoletesRefs <-
            attributeList (get ["rfc"; "_attr"; "obsoletes"] (Xml.data x)) ;;
          updatesRefs <-
            attributeList (get ["rfc"; "_attr"; "updates"] (Xml.data x)) ;;
          let abstract :=
            match get ["rfc"; "front"; "abstract"] (Xml.data x) with
            | JUndefined => JObj []
            | v => v
            end in
          obsoletesAbs <- abstractNumbers obsoletes lastIndex abstract ;;
          updatesAbs <- abstractNumbers updates lastIndex abstract ;;
          let result :=
            mentionFindings obsoletesRefs updatesRefs obsoletesAbs updatesAbs in
          if offline then Ok (result, lastIndex)
          else
            r1 <- obsoletesLoop lastIndex obsoletesRefs result ;;
            updatesLoop (snd r1) updatesRefs (fst r1)
      end
  end.

End WithHelpers.

End Metadata.

(* ================================================================== *)
(** * utils.mjs: the recursive extraction of attribute values          *)
(* ================================================================== *)

Module Utils.

Import JsValue.
Import Downref.

(** The [forEach] over the tags found at [node[tagName]]: a single value
    is taken as a list of one.  The names are taken to be names that no
    built-in prototype defines. *)
Definition ownTags (attributeName : string) (found : JsVal)
    (extractedValues : list JsVal) : Res (list JsVal) :=
  if truthy found then
    let tags := match found with JArr items => items | _ => [found] end in
    forEach (fun values tag =>
               attr <- path ["_attr"] tag ;;
               if truthy attr then
                 value <- path [attributeName] attr ;;
                 Ok (if truthy value then values ++ [value] else values)
               else Ok values)
            tags extractedValues
  else Ok extractedValues.

(** extractRecursiveByTagAndAttribute.  A [JObj] and a [JArr] hold their
    own properties in the order of [Object.keys]; [typeof] is object for
    objects, arrays and [null]. *)
Fixpoint extractRecursiveByTagAndAttribute (tagName attributeName : string)
    (node : JsVal) (extractedValues : list JsVal) {struct node}
  : Res (list JsVal) :=
  match node with
  | JUndefined | JNull => Throw TypeError
  | JObj props =>
      values <- ownTags attributeName (lookup tagName props) extractedValues ;;
      (fix children (ps : list (string * JsVal)) (values : list JsVal)
         {struct ps} : Res (list JsVal) :=
         match ps with
         | [] => Ok values
         | (_, v) :: tl =>
             match v with
             | JNull | JObj _ | JArr _ =>
                 values' <- extractRecursiveByTagAndAttribute
                              tagName attributeName v values ;;
                 children tl values'
             | _ => children tl values
             end
         end) props values
  | JArr items =>
      (fix elements (vs : list JsVal) (values : list JsVal) {struct vs}
         : Res (list JsVal) :=
         match vs with
         | [] => Ok values
         | v :: tl =>
             match v with
             | JNull | JObj _ | JArr _ =>
                 values' <- extractRecursiveByTagAndAttribute
                              tagName attributeName v values ;;
                 elements tl values'
             | _ => elements tl values
             end
         end) items extractedValues
  | _ => Ok extractedValues
  end.

End Utils.
(* ================================================================== *)
(** * Sample inputs and the properties under study                     *)
(* ================================================================== *)

Import Cli.
Import Downref.

Definition nl : string := String LF "".

Definition errorCount (findings : list Finding) : nat :=
  length (filter (fun f => match severity f with Error => true | _ => false end)
                 findings).

(** The pass/fail rule in which only Error findings count. *)
Definition passIffNoError (findings : list Finding) (docPath : string) : Prop :=
  (result (jsonReport findings docPath) = "pass" <-> errorCount findings = 0)
  /\ (1 <= errorCount findings -> result (jsonReport findings docPath) = "fail").

Definition aWarning : Finding :=
  mkFinding Warning "MISSING_DOC_DATE"
            "The document date could not be determined."
            (Some "https://authors.ietf.org/en/rfcxml-vocabulary#date") None.

(** A document with one RFC reference in each subsection of its references
    section. *)
Definition referencesText : string :=
  join nl
    [ "Network Working Group                                    J. Doe";
      "Internet-Draft                                     Example Corp";
      "";
      "";
      "                        A Sample Document";
      "                      draft-doe-sample-00";
      "";
      "8.  References";
      "";
      "8.1.  Normative References";
      "";
      "   [RFC4086]  Eastlake, D., Randomness Requirements for Security.";
      "";
      "8.2.  Informative References";
      "";
      "   [RFC8141]  Saint-Andre, P., Uniform Resource Names.";
      "";
      "8.3.  Other References";
      "";
      "   [RFC1750]  Eastlake, D., Randomness Recommendations." ].

Definition emptyDoc : Txt.TXTDocObject :=
  Txt.mkTXTDocObject None ""
    (Txt.mkData 0 (Txt.mkWhole false false false [] [] [] false)
                (Txt.lex (Txt.initial (Txt.lineRe Txt.fresh)))
                (Txt.str (Txt.initial (Txt.lineRe Txt.fresh)))) "".

Definition parsedOrEmpty (r : Txt.ParseResult * Txt.ModuleState) : Txt.TXTDocObject :=
  match fst r with
  | Txt.Parsed doc => doc
  | Txt.TXT_PARSING_FAILED _ _ => emptyDoc
  end.

Definition referencesDoc : Txt.TXTDocObject :=
  Eval vm_compute in
    parsedOrEmpty (Txt.parse Txt.fresh referencesText "draft-doe-sample-00.txt").

(** A lookup result with a status and without the property obsoleted_by. *)
Definition statusOnly : RfcInfo :=
  mkRfcInfo (Some "Proposed Standard") None None.


(** A lookup outcome under which the loop of a reference validator goes on:
    a value that is absent, or has no truthy status, or has the property
    obsoleted_by. *)
Definition answered (l : Lookup RfcInfo) : bool :=
  match l with
  | Resolved v =>
      match definedStatus v with
      | None => true
      | Some (i, _) =>
          match obsoleted_by i with Some _ => true | None => false end
      end
  | Rejected _ => false
  end.


(** The lexical part, the structure and the section markers of a parse
    result; of a failed parse, those of the empty document. *)
Definition lexOfParse (r : Txt.ParseResult * Txt.ModuleState) : Txt.Lex :=
  Txt.data_lex (Txt.data (parsedOrEmpty r)).
Definition strOfParse (r : Txt.ParseResult * Txt.ModuleState) : Txt.Struct :=
  Txt.data_str (Txt.data (parsedOrEmpty r)).

(** A one-line document that ends in a comment token. *)
Definition commentLine : string := "Short Source  J. Doe /*".

(** The first line of the spec's header example: the source, twenty
    blanks, the author. *)
Definition headerLine : string :=
  "Short Source                    J. Doe".

(** A document whose first heading is Introduction and whose second is
    Background, both of which the section matchers file under
    introduction. *)
Definition twoHeadingsText : string :=
  join nl
    [ "Network Working Group                                    J. Doe";
      "";
      "";
      "                        A Sample Document";
      "                      draft-doe-sample-00";
      "";
      "1.  Introduction";
      "";
      "   This document is a sample.";
      "";
      "2.  Background";
      "";
      "   There is some background." ].



(** A text in which the removal of one entity declaration joins its
    surroundings into another one: the declaration of x stands between the
    name and the keyword of what becomes the declaration of a. *)
Definition nestedEntityText : string :=
  ("<!ENTITY a <!ENTITY x SYSTEM " ++ dq ++ "u" ++ dq ++ ">" ++ nl
   ++ "SYSTEM " ++ dq ++ "v" ++ dq ++ ">")%string.

(** [Deleted l os l']: [l'] is [l] without the pieces [os], which lie in [l]
    from left to right without overlap. *)
Inductive Deleted : list ascii -> list (list ascii) -> list ascii -> Prop :=
| Deleted_none : forall l, Deleted l [] l
| Deleted_one : forall pre o rest os clean,
    Deleted rest os clean ->
    Deleted (pre ++ o ++ rest) (o :: os) (pre ++ clean).

(** What [Star (Chr p)] does, written by recursion on the text: it reads
    code units in [p] as far as they go and hands the positions to the
    continuation from the farthest one back to the first. *)
Fixpoint greedy (p : ascii -> bool) (k : mstate -> option mstate)
    (pv : option ascii) (l : list ascii) (cs : list (nat * list ascii))
  : option mstate :=
  match l with
  | c :: tl =>
      if p c
      then match greedy p k (Some c) tl cs with
           | Some res => Some res
           | None => k (MState pv l cs)
           end
      else k (MState pv l cs)
  | [] => k (MState pv [] cs)
  end.

(** A run of [n] blanks. *)
Definition blanks (n : nat) : list ascii := repeat " "%char n.

Definition shortSource : list ascii := list_ascii_of_string "Short Source".
Definition jDoe : list ascii := list_ascii_of_string "J. Doe".

(* ================================================================== *)
(** * Further notions for the properties of the code                   *)
(* ================================================================== *)

(** [Reach r st st']: reading [r] at [st] can end at [st']; every position
    that the matcher hands to its continuation is one of these. *)
Inductive Reach : regex -> mstate -> mstate -> Prop :=
| Reach_Eps : forall st, Reach Eps st st
| Reach_Chr : forall p pv c tl cs,
    p c = true ->
    Reach (Chr p) (MState pv (c :: tl) cs) (MState (Some c) tl cs)
| Reach_Cat : forall r1 r2 a b c,
    Reach r1 a b -> Reach r2 b c -> Reach (Cat r1 r2) a c
| Reach_Alt_l : forall r1 r2 a b, Reach r1 a b -> Reach (Alt r1 r2) a b
| Reach_Alt_r : forall r1 r2 a b, Reach r2 a b -> Reach (Alt r1 r2) a b
| Reach_Star_0 : forall r a, Reach (Star r) a a
| Reach_Star_S : forall r a b c,
    Reach r a b -> Reach (Star r) b c -> Reach (Star r) a c
| Reach_Group : forall n r a b,
    Reach r a b ->
    Reach (Group n r) a
          (MState (prev b) (rest b)
             (set_cap n (firstn (length (rest a) - length (rest b)) (rest a))
                      (caps b)))
| Reach_Bol : forall st, prev st = None -> Reach Bol st st
| Reach_Eol : forall st, rest st = [] -> Reach Eol st st
| Reach_WordB : forall st, Reach WordB st st
| Reach_NotAhead : forall r st, Reach (NotAhead r) st st.

(** A non-empty string of decimal digits. *)
Definition isDigits (s : string) : bool :=
  Js.truthy s && forallb is_digit (list_ascii_of_string s).

(** Every RFC number of the two lists is a non-empty string of digits. *)
Definition rfcBucketsDigits (lx : Txt.Lex) : Prop :=
  Forall (fun v => isDigits v = true) (Txt.nonReferenceSectionRfc lx)
  /\ Forall (fun el => isDigits (Txt.value el) = true)
            (Txt.referenceSectionRfc lx).

(** The code units of a draft name: letters, digits, hyphen and dot. *)
Definition is_nameChar (c : ascii) : bool :=
  is_alnum c || Ascii.eqb c "-" || Ascii.eqb c ".".

(** A non-empty name of such code units between square brackets. *)
Definition isDraftToken (s : string) : bool :=
  match list_ascii_of_string s with
  | "["%char :: tl =>
      match rev tl with
      | "]"%char :: body =>
          match body with [] => false | _ => forallb is_nameChar body end
      | _ => false
      end
  | _ => false
  end.

(** The two lists of draft references hold bracketed names, each once. *)
Definition draftBucketsListed (lx : Txt.Lex) : Prop :=
  (NoDup (Txt.nonReferenceSectionDraftReferences lx)
   /\ Forall (fun v => isDraftToken v = true)
             (Txt.nonReferenceSectionDraftReferences lx))
  /\ (NoDup (map Txt.value (Txt.referenceSectionDraftReferences lx))
      /\ Forall (fun el => isDraftToken (Txt.value el) = true)
                (Txt.referenceSectionDraftReferences lx)).

(** A line with draft references in the text and in the references
    section. *)
Definition draftsText : string :=
  join nl
    [ "Network Working Group                                    J. Doe";
      "Internet-Draft                                     Example Corp";
      "";
      "";
      "                        A Sample Document";
      "                      draft-doe-sample-00";
      "";
      "1.  Introduction";
      "";
      "   See [I-D.ietf-quic-http] and again [I-D.ietf-quic-http].";
      "";
      "8.  References";
      "";
      "8.1.  Normative References";
      "";
      "   [I-D.ietf-quic-http]  Bishop, M., HTTP/3.";
      "   [I-D.ietf-quic-http]  Bishop, M., HTTP/3, once more.";
      "   [draft-ietf-quic-qpack-21]  Krasic, C., QPACK." ].

(** [line.indexOf(FF) >= 0] *)
Definition hasFormFeed (line : string) : bool :=
  existsb (Ascii.eqb FF) (list_ascii_of_string line).

(** A document of three pages: two lines hold a form feed. *)
Definition twoPagesText : string :=
  join nl
    [ "Network Working Group                                    J. Doe";
      "Internet-Draft                                     Example Corp";
      String FF "";
      "                        A Sample Document";
      ("Doe                    Expires 1 May 2026    [Page 2]"
         ++ String FF "")%string ].

(** Every section whose marker has a start line has a list of content
    lines. *)
Definition contentReady (s : Txt.Struct) : Prop :=
  forall c, Txt.start (Txt.get c (Txt.markers s)) <> 0 ->
            Txt.get c (Txt.content s) <> None.

(** A line that the loop passes over: it holds a form feed or nothing but
    white space. *)
Definition skipped (line : string) : bool :=
  hasFormFeed line || negb (Js.truthy (trim line)).

(** A text whose first line with text is a single word. *)
Definition oneWordText : string := join nl [ ""; "Hello"; "world  wide" ].

(** Two white-space code units next to each other. *)
Fixpoint hasGap (l : list ascii) : bool :=
  match l with
  | a :: tl =>
      match tl with
      | b :: _ => (is_space a && is_space b) || hasGap tl
      | [] => false
      end
  | [] => false
  end.

(** The marker of the header, the title and the slug with their lines. *)
Definition headerView (s : Txt.Struct)
  : Txt.HeaderMarker * option string * nat * option string * nat :=
  (Txt.m_header s, Txt.title s, Txt.m_title s, Txt.slug s, Txt.m_slug s).

(** A line with text: neither blank nor a page break. *)
Definition isText (line : string) : bool := negb (skipped line).

(** A document with two blank lines and a page break between the header
    and the title. *)
Definition titleText : string :=
  join nl
    [ "";
      "Network Working Group                                    J. Doe";
      "Internet-Draft                                     Example Corp";
      "";
      String FF "";
      "                        A Sample Document   ";
      "                      draft-doe-sample-00";
      "";
      "Abstract" ].

(** An Error as a Warning; other findings as they are. *)
Definition demote (f : Finding) : Finding :=
  match severity f with
  | Error => mkFinding Warning (name f) (message f) (refUrl f) (lines f)
  | _ => f
  end.

Definition mapRes {A B} (g : A -> B) (r : Res A) : Res B :=
  match r with
  | Ok a => Ok (g a)
  | Throw e => Throw e
  end.

Definition isWarning (f : Finding) : bool :=
  match severity f with Warning => true | _ => false end.

(** A lookup of drafts that finds the first sample draft published. *)
Definition draftStates (d : string) : Lookup DraftInfo :=
  if String.eqb d "draft-ietf-quic-qpack"
  then Resolved (Some (mkDraftInfo (Some "RFC")))
  else Resolved None.

(** The parsed sample document with draft references. *)
Definition draftsDoc : Txt.TXTDocObject :=
  Eval vm_compute in
    parsedOrEmpty (Txt.parse Txt.fresh draftsText "draft.txt").

(** What normalizeXmlReferences adds for one anchor. *)
Definition normalizedAnchor (ref : JsVal) : list string :=
  match ref with
  | JStr s =>
      if test RFC_ANCHOR_RE s
      then [("RFC " ++ string_of_list_ascii
                         (skipn 3 (list_ascii_of_string s)))%string]
      else if test DRAFT_RE s then [stripDraft (trim s)] else []
  | _ => []
  end.

(** An attribute value as the XML parser gives it: a string, or a boolean
    for an attribute without a value. *)
Definition isAttributeValue (v : JsVal) : bool :=
  match v with JStr _ | JBool _ => true | _ => false end.

(** An XML document whose only reference has the given anchor. *)
Definition xmlWithAnchor (anchor : string) : Xml.XMLDocObject :=
  Xml.mkXMLDocObject "draft.xml" []
    (JObj [("rfc",
       JObj [("back",
         JObj [("references",
           JObj [("references",
             JArr [JObj [("reference",
               JArr [JObj [("_attr",
                 JObj [("anchor", JStr anchor)])]])]])])])])]).

(** A references section whose reference property is not an array: with
    one reference element the XML parser gives an object, with none
    nothing. *)
Definition hasNoReferenceArray (section : JsVal) : bool :=
  match section with
  | JUndefined | JNull => false
  | JObj props =>
      match JsValue.lookup "reference" props with
      | JArr _ => false
      | _ => true
      end
  | _ => true
  end.

(** An XML document whose back matter holds one references section with
    one reference. *)
Definition xmlOneSection : Xml.XMLDocObject :=
  Xml.mkXMLDocObject "draft.xml" []
    (JObj [("rfc",
       JObj [("back",
         JObj [("references",
           JObj [("references",
             JObj [("name", JStr "Normative References");
                   ("reference",
                    JObj [("_attr",
                           JObj [("anchor", JStr "RFC2119")])])])])])])]).

(** A non-empty run of white space. *)
Definition isBlankRun (l : list ascii) : bool :=
  match l with [] => false | _ => forallb is_space l end.

(** The code units of an entity name. *)
Definition is_entityNameChar (c : ascii) : bool :=
  is_alnum c || Ascii.eqb c "-" || Ascii.eqb c "." || Ascii.eqb c "_".

(** The parts of a recorded entity give back its declaration: the keyword,
    the name, the type SYSTEM or PUBLIC and the quoted text up to the last
    quote followed by the closing bracket on the line, with white space
    between them. *)
Definition entityReassembles (e : Xml.ExternalEntity) : Prop :=
  exists w1 w2 w3,
    isBlankRun w1 = true /\ isBlankRun w2 = true /\ isBlankRun w3 = true
    /\ list_ascii_of_string (Xml.original e)
       = list_ascii_of_string "<!ENTITY" ++ w1
         ++ list_ascii_of_string (Xml.name e) ++ w2
         ++ list_ascii_of_string (Xml.type e) ++ w3
         ++ Xml.dquote :: list_ascii_of_string (Xml.url e)
         ++ [Xml.dquote; ">"%char]
    /\ Js.truthy (Xml.name e) = true
    /\ forallb is_entityNameChar (list_ascii_of_string (Xml.name e)) = true
    /\ (Xml.type e = "SYSTEM" \/ Xml.type e = "PUBLIC")
    /\ forallb is_dot (list_ascii_of_string (Xml.url e)) = true.

(** [l] holds [p] as a piece. *)
Fixpoint startsWithList (p l : list ascii) : bool :=
  match p, l with
  | [], _ => true
  | a :: p', b :: l' => Ascii.eqb a b && startsWithList p' l'
  | _ :: _, [] => false
  end.
Fixpoint occurs (p l : list ascii) : bool :=
  startsWithList p l
  || match l with
     | [] => false
     | _ :: l' => occurs p l'
     end.

(** An XML text with one declaration of an external entity. *)
Definition entityText : string :=
  ("<!DOCTYPE rfc [" ++ nl
   ++ "  <!ENTITY  rfc2119 SYSTEM " ++ dq ++ "https://example.org/rfc2119.xml"
   ++ dq ++ ">" ++ nl ++ "]>" ++ nl ++ "<rfc/>")%string.

(** The first, third, fifth, ... element. *)
Fixpoint everyOther {A} (l : list A) : list A :=
  match l with
  | a :: tl =>
      a :: match tl with
           | _ :: tl' => everyOther tl'
           | [] => []
           end
  | [] => []
  end.

(** The loop over the obsoletes attribute as it runs when each reference
    is tested on its own, from [lastIndex] 0. *)
Fixpoint obsoletesLookups (fetch : string -> Lookup Metadata.RemoteRfc)
    (refs : list string) (result : list Finding) : Res (list Finding) :=
  match refs with
  | [] => Ok result
  | ref :: tl =>
      bind (Metadata.obsoletesLoop fetch 0 [ref] result)
           (fun r => obsoletesLookups fetch tl (fst r))
  end.

(** An XML document whose rfc element has the given attributes. *)
Definition xmlWithAttributes (attrs : list (string * JsVal))
  : Xml.XMLDocObject :=
  Xml.mkXMLDocObject "draft.xml" [] (JObj [("rfc", JObj [("_attr", JObj attrs)])]).

(** A lookup that finds no RFC. *)
Definition notFound (ref : string) : Lookup Metadata.RemoteRfc := Resolved None.

(** The list is empty or its last author has an organisation. *)
Definition endsWithOrg (l : list Txt.Author) : bool :=
  match rev l with
  | [] => true
  | a :: _ => match Txt.org a with Some _ => true | None => false end
  end.

Definition hasNoOrg (a : Txt.Author) : bool :=
  match Txt.org a with Some _ => false | None => true end.

Definition withOrg (v : string) (a : Txt.Author) : Txt.Author :=
  Txt.mkAuthor (Txt.name a) (Some v).

(** A tree without [null] and [undefined], as the XML parser builds it. *)
Fixpoint wellDefined (v : JsVal) : bool :=
  match v with
  | JUndefined | JNull => false
  | JArr items => forallb wellDefined items
  | JObj props => forallb (fun p => wellDefined (snd p)) props
  | _ => true
  end.

Fixpoint treeSize (v : JsVal) : nat :=
  match v with
  | JArr items => S (list_sum (map treeSize items))
  | JObj props => S (list_sum (map (fun p => treeSize (snd p)) props))
  | _ => 1
  end.

(** The visit of one property value or array element by
    extractRecursiveByTagAndAttribute. *)
Definition visit (tagName attributeName : string) (values : list JsVal)
    (v : JsVal) : Res (list JsVal) :=
  match v with
  | JNull | JObj _ | JArr _ =>
      Utils.extractRecursiveByTagAndAttribute tagName attributeName v values
  | _ => Ok values
  end.

(** A back matter with two reference elements, one of them alone in its
    section. *)
Definition backTree : JsVal :=
  JObj [("references",
         JArr [JObj [("reference",
                      JObj [("_attr", JObj [("anchor", JStr "RFC2119")])])];
               JObj [("reference",
                      JArr [JObj [("_attr", JObj [("anchor", JStr "RFC8174")])];
                            JObj [("_attr", JObj [("target", JStr "x")])]])]])].

(** A draft whose header is the one line that names it an
    Internet-Draft. *)
Definition oneLineHeaderText : string :=
  join nl
    [ "Internet-Draft                                            J. Doe";
      "";
      "                        A Sample Document";
      "                      draft-doe-sample-00" ].

(** The token without its first and its last code unit. *)
Definition unbracket (tok : string) : string :=
  string_of_list_ascii (removelast (tl (list_ascii_of_string tok))).

(** [ref.toLowerCase().includes(QdraftQ)] *)
Definition namesDraft (ref : string) : bool :=
  includes "draft" (toLowerCase ref).

(** The markers start at lines read so far, and a section whose marker is
    closed with its end before its start has an empty list of lines. *)
Definition restartedEmpty (n : nat) (ms : Txt.PerSection Txt.Marker)
    (ct : Txt.PerSection (option (list string))) : Prop :=
  (forall c, Txt.start (Txt.get c ms) <= n)
  /\ (forall c, Txt.closed (Txt.get c ms) = true ->
                Txt.end_ (Txt.get c ms) < Txt.start (Txt.get c ms) ->
                Txt.get c ct = Some []).

(** A text in which the heading Overview follows the Introduction: both
    are filed under the introduction. *)
Definition twoIntroductionsText : string :=
  join nl
    [ "Network Working Group                                    J. Doe";
      "Internet-Draft                                     Example Corp";
      "";
      "                        A Sample Document";
      "                      draft-doe-sample-00";
      "";
      "1.  Introduction";
      "";
      "   The first lines of the introduction.";
      "";
      "2.  Overview";
      "";
      "   The lines of the overview." ].

(** ** The filing of RFC numbers *)

(** The numbers of the matches of RFC_REFERENCE_RE on a line, from left to
    right: the first group of a match, or else the second. *)
Definition rfcNumbersOn (t : string) : list string :=
  flat_map (fun x => match Txt.rfcNumberOf x with
                     | Some v => if Js.truthy v then [v] else []
                     | None => []
                     end)
           (matchAll Txt.RFC_REFERENCE_RE t).

(** The two lists of RFC references: the numbers met outside the references
    section, and the entries of the references section. *)
Definition Buckets : Type := (list string * list Txt.RefEntry)%type.

Definition bucketsOf (lx : Txt.Lex) : Buckets :=
  (Txt.nonReferenceSectionRfc lx, Txt.referenceSectionRfc lx).





(** A text that names RFC 2119 twice in its introduction and twice in its
    references section, where RFC 4086 is named twice as well. *)
Definition repeatedReferencesText : string :=
  join nl
    [ "Network Working Group                                    J. Doe";
      "Internet-Draft                                     Example Corp";
      "";
      "";
      "                        A Sample Document";
      "                      draft-doe-sample-00";
      "";
      "1.  Introduction";
      "";
      "   See RFC 2119 and, once more, RFC 2119.";
      "";
      "8.  References";
      "";
      "8.1.  Normative References";
      "";
      "   [RFC2119]  Bradner, S., Key words, RFC 2119.";
      "   [RFC4086]  Eastlake, D., Randomness Requirements, RFC 4086." ].

(** ** The normative references of a document, read off the document *)















(* ================================================================== *)
(** * Properties                                                       *)
(* ================================================================== *)

(** ** The JSON report of the command line *)

(** C1, counterexample: a run whose only finding is a Warning has no Error
    finding, and its report says fail. *)
Lemma C1_warning_alone_fails :
  errorCount [aWarning] = 0
  /\ result (jsonReport [aWarning] "draft-ietf-abcd-01.xml") = "fail"
  /\ ~ passIffNoError [aWarning] "draft-ietf-abcd-01.xml".
Proof.
  split; [reflexivity|]. split; [reflexivity|].
  intros [[_ H] _]. specialize (H eq_refl). discriminate H.
Qed.

(** C1, as amended: the report says pass exactly when the run produced no
    finding at all and fail exactly when it produced at least one, of
    whatever severity; in particular a run with an Error finding fails. *)
Theorem C1_result_by_finding_count :
  forall (findings : list Finding) (docPath : string),
    (result (jsonReport findings docPath) = "pass" <-> findings = [])
    /\ (result (jsonReport findings docPath) = "fail" <-> findings <> [])
    /\ ((exists f, In f findings /\ severity f = Error)
        -> result (jsonReport findings docPath) = "fail").
Proof.
  intros findings docPath.
  destruct findings as [|f fs]; cbn.
  - repeat split; try reflexivity; try discriminate; try congruence.
    intros [f [[] _]].
  - repeat split; try reflexivity; try discriminate; try congruence.
Qed.

(** C10: the size that the JSON report gives for the file is 0, whatever
    the findings and the document. *)
Theorem C10_json_file_size_is_zero :
  forall (findings : list Finding) (docPath : string),
    size (file (jsonReport findings docPath)) = 0.
Proof.
  intros findings docPath. unfold jsonReport. cbn [file size]. reflexivity.
Qed.

(** ** The validators in SUBMISSION mode *)

(** C2: in mode SUBMISSION each of the five validators returns the empty
    finding list, for every document and whatever the remote helpers do. *)
Theorem C2_submission_returns_nothing :
  forall (getStatusWeight : string -> option nat)
         (fetchRemoteRfcInfo : string -> Lookup RfcInfo)
         (fetchRemoteDocInfoJson : string -> Lookup DraftInfo)
         (checkReferencesInDownrefs : list string -> Lookup (list string))
         (doc : Doc),
    validateDownrefs checkReferencesInDownrefs doc SUBMISSION = Ok []
    /\ validateNormativeReferences getStatusWeight fetchRemoteRfcInfo
         doc SUBMISSION = Ok []
    /\ validateUnclassifiedReferences fetchRemoteRfcInfo doc SUBMISSION = Ok []
    /\ validateInformativeReferences fetchRemoteRfcInfo doc SUBMISSION = Ok []
    /\ vlidateDraftReferences fetchRemoteDocInfoJson doc (Some SUBMISSION)
       = Ok [].
Proof.
  intros. repeat split; reflexivity.
Qed.

(** ** The reference validators and the remote lookups *)

(** The parser finds the three references and their subsections. *)
Example referencesDoc_refs :
  Txt.referenceSectionRfc (lexOf referencesDoc)
  = [ Txt.mkRefEntry "4086" (Some Txt.normative_references);
      Txt.mkRefEntry "8141" (Some Txt.informative_references);
      Txt.mkRefEntry "1750" (Some Txt.unclassified_references) ].
Proof. reflexivity. Qed.

(** C4, the failing input: when the lookup of a reference resolves to an
    object that has a status and no obsoleted_by property, the three
    validators do not return a finding list; the read of
    [rfcInfo.obsoleted_by.length] throws a TypeError out of them. *)
Theorem C4_status_without_obsoleted_by_throws :
  forall (getStatusWeight : string -> option nat) (mode : Mode),
    mode <> SUBMISSION ->
    validateNormativeReferences getStatusWeight
      (fun _ => Resolved (Some statusOnly)) (TxtDoc referencesDoc) mode
    = Throw TypeError
    /\ validateInformativeReferences
         (fun _ => Resolved (Some statusOnly)) (TxtDoc referencesDoc) mode
       = Throw TypeError
    /\ validateUnclassifiedReferences
         (fun _ => Resolved (Some statusOnly)) (TxtDoc referencesDoc) mode
       = Throw TypeError.
Proof.
  intros gsw mode Hmode.
  destruct mode; try congruence; repeat split; try reflexivity;
    cbn; destruct (gsw _); reflexivity.
Qed.

(** The failing input in mode NORMAL. *)
Lemma C4_status_without_obsoleted_by_throws_witness :
  validateNormativeReferences (fun _ => Some 1)
    (fun _ => Resolved (Some statusOnly)) (TxtDoc referencesDoc) NORMAL
  = Throw TypeError.
Proof.
  apply (C4_status_without_obsoleted_by_throws (fun _ => Some 1) NORMAL).
  discriminate.
Defined.



Section NormativeLoop.

Variable getStatusWeight : string -> option nat.
Variable fetchRemoteRfcInfo : string -> Lookup RfcInfo.
Variable mode : Mode.

#[local] Abbreviation loop := (normativeLoop getStatusWeight fetchRemoteRfcInfo mode).

(** The loop only appends to the result list. *)
Lemma normativeLoop_keeps :
  forall refs result findings,
    loop refs result = Ok findings ->
    forall f, In f result -> In f findings.
Proof.
  induction refs as [|r tl IH]; intros result findings H f Hf; cbn in H.
  - inversion H; subst; assumption.
  - destruct (fetchRemoteRfcInfo r) as [v|]; cbn in H; [|discriminate].
    destruct (definedStatus v) as [[i s]|].
    + destruct (obsoleted_by i); [|discriminate].
      eapply IH; [eassumption|].
      apply in_or_app; left.
      destruct (getStatusWeight s); [assumption|].
      apply in_or_app; now left.
    + eapply IH; [eassumption|]. apply in_or_app; now left.
Qed.



End NormativeLoop.

(** The part of C4 that holds: a looked-up reference whose lookup gives no
    data, or data without a truthy status, leaves the Comment
    UNDEFINED_STATUS in every list that a validator loop returns, and the
    loops return a list when every lookup is answered. *)
Section UndefinedStatus.

Variable getStatusWeight : string -> option nat.
Variable fetchRemoteRfcInfo : string -> Lookup RfcInfo.
Variable mode : Mode.

Ltac loop_step H r v i :=
  cbn in H;
  destruct (fetchRemoteRfcInfo r) as [v|]; cbn in H; [|discriminate];
  destruct (definedStatus v) as [[i ?]|];
  [destruct (obsoleted_by i); [|discriminate]|].

Lemma normativeLoop_undefined :
  forall refs result findings rfcNum v,
    normativeLoop getStatusWeight fetchRemoteRfcInfo mode refs result
    = Ok findings ->
    In rfcNum refs ->
    fetchRemoteRfcInfo rfcNum = Resolved v -> definedStatus v = None ->
    In (mkFinding Comment "UNDEFINED_STATUS"
          ("RFC " ++ rfcNum
           ++ " does not have a defined status or could not be fetched.")
          (rfcEditorInfo rfcNum) None) findings.
Proof.
  induction refs as [|r tl IH]; intros result findings rfcNum v H Hin Hf Hd;
    [easy|].
  destruct Hin as [->|Hin].
  - cbn in H. rewrite Hf in H; cbn in H. rewrite Hd in H.
    eapply normativeLoop_keeps; [exact H|]. apply in_or_app; right; now left.
  - loop_step H r w i; eapply IH; eassumption.
Qed.

Lemma unclassifiedLoop_keeps :
  forall refs result findings,
    unclassifiedLoop fetchRemoteRfcInfo mode refs result = Ok findings ->
    forall f, In f result -> In f findings.
Proof.
  induction refs as [|r tl IH]; intros result findings H f Hf.
  - inversion H; subst; assumption.
  - loop_step H r w i; (eapply IH; [eassumption|]); apply in_or_app; now left.
Qed.

Lemma unclassifiedLoop_undefined :
  forall refs result findings ref v,
    unclassifiedLoop fetchRemoteRfcInfo mode refs result = Ok findings ->
    In ref refs ->
    fetchRemoteRfcInfo ref = Resolved v -> definedStatus v = None ->
    In (mkFinding Comment "UNDEFINED_STATUS"
          ("The unclassified reference " ++ ref
           ++ " does not have a defined status or could not be fetched.")
          (rfcEditorInfo ref) None) findings.
Proof.
  induction refs as [|r tl IH]; intros result findings ref v H Hin Hf Hd;
    [easy|].
  destruct Hin as [->|Hin].
  - cbn in H. rewrite Hf in H; cbn in H. rewrite Hd in H.
    eapply unclassifiedLoop_keeps; [exact H|]. apply in_or_app; right; now left.
  - loop_step H r w i; eapply IH; eassumption.
Qed.

Lemma unclassifiedLoop_returns :
  forall refs result,
    Forall (fun r => answered (fetchRemoteRfcInfo r) = true) refs ->
    exists findings,
      unclassifiedLoop fetchRemoteRfcInfo mode refs result = Ok findings.
Proof.
  induction refs as [|r tl IH]; intros result Hall; cbn.
  - now exists result.
  - inversion Hall as [|? ? Hr Htl]; subst.
    unfold answered in Hr.
    destruct (fetchRemoteRfcInfo r) as [v|]; [|discriminate]; cbn.
    destruct (definedStatus v) as [[i s]|].
    + destruct (obsoleted_by i); [|discriminate]. now apply IH.
    + now apply IH.
Qed.

Lemma informativeLoop_keeps :
  forall refs result findings,
    informativeLoop fetchRemoteRfcInfo mode refs result = Ok findings ->
    forall f, In f result -> In f findings.
Proof.
  induction refs as [|r tl IH]; intros result findings H f Hf.
  - inversion H; subst; assumption.
  - loop_step H r w i; (eapply IH; [eassumption|]); apply in_or_app; now left.
Qed.

Lemma informativeLoop_undefined :
  forall refs result findings ref v,
    informativeLoop fetchRemoteRfcInfo mode refs result = Ok findings ->
    In ref refs ->
    fetchRemoteRfcInfo ref = Resolved v -> definedStatus v = None ->
    In (mkFinding Comment "UNDEFINED_STATUS"
          ("The informative reference RFC " ++ ref
           ++ " does not have a defined status or could not be fetched.")
          (rfcEditorInfo ref) None) findings.
Proof.
  induction refs as [|r tl IH]; intros result findings ref v H Hin Hf Hd;
    [easy|].
  destruct Hin as [->|Hin].
  - cbn in H. rewrite Hf in H; cbn in H. rewrite Hd in H.
    eapply informativeLoop_keeps; [exact H|]. apply in_or_app; right; now left.
  - loop_step H r w i; eapply IH; eassumption.
Qed.

Lemma informativeLoop_returns :
  forall refs result,
    Forall (fun r => answered (fetchRemoteRfcInfo r) = true) refs ->
    exists findings,
      informativeLoop fetchRemoteRfcInfo mode refs result = Ok findings.
Proof.
  induction refs as [|r tl IH]; intros result Hall; cbn.
  - now exists result.
  - inversion Hall as [|? ? Hr Htl]; subst.
    unfold answered in Hr.
    destruct (fetchRemoteRfcInfo r) as [v|]; [|discriminate]; cbn.
    destruct (definedStatus v) as [[i s]|].
    + destruct (obsoleted_by i); [|discriminate]. now apply IH.
    + now apply IH.
Qed.

(** A lookup that rejects leaves the validator by the rejection: no call
    site catches it. *)
Lemma normativeLoop_rejection :
  forall rfcNum tl result reason,
    fetchRemoteRfcInfo rfcNum = Rejected reason ->
    normativeLoop getStatusWeight fetchRemoteRfcInfo mode (rfcNum :: tl) result
    = Throw (Rejection reason).
Proof.
  intros rfcNum tl result reason H. cbn. rewrite H. reflexivity.
Qed.

End UndefinedStatus.

(** ** The plain-text parser on sample documents *)

(** C3, the failing input: two calls of the parser on the same one-line text
    return different documents.  The first call finds the comment token and
    leaves the position after it in the [lastIndex] of INLINE_CODE_FORMAT;
    the second call starts its search there and finds nothing. *)
Theorem C3_second_parse_differs :
  let first := Txt.parse Txt.fresh commentLine "draft.txt" in
  let second := Txt.parse (snd first) commentLine "draft.txt" in
  Txt.inlineCode (lexOfParse first) = [Txt.mkLinePos 1 22]
  /\ Txt.INLINE_CODE_FORMAT_lastIndex (Txt.lineRe (snd first)) = 23
  /\ Txt.inlineCode (lexOfParse second) = []
  /\ (exists d1 d2, fst first = Txt.Parsed d1 /\ fst second = Txt.Parsed d2
                    /\ d1 <> d2).
Proof.
  cbv zeta. repeat split; try (vm_compute; reflexivity).
  eexists; eexists. split; [vm_compute; reflexivity|].
  split; [vm_compute; reflexivity|]. discriminate.
Qed.

(** C6, the failing input: on the header line of the spec's example the
    source keeps eighteen of the twenty blanks that separate it from the
    author, because the left group of LINE_VALUES_EXTRACT_RE is greedy; the
    author list is as the claim says. *)
Theorem C6_source_keeps_trailing_blanks :
  let r := Txt.parse Txt.fresh headerLine "draft.txt" in
  Txt.source (Txt.header (strOfParse r))
  = Some "Short Source                  "
  /\ Txt.source (Txt.header (strOfParse r)) <> Some "Short Source"
  /\ Txt.authors (Txt.header (strOfParse r)) = [Txt.mkAuthor "J. Doe" None]
  /\ (exists d, fst r = Txt.Parsed d).
Proof.
  cbv zeta. repeat split; try (vm_compute; reflexivity).
  - vm_compute. discriminate.
  - eexists. vm_compute. reflexivity.
Qed.

(** With exactly two blanks the source is as the claim says, and with one
    blank the parse fails on line 1. *)
Example header_two_blanks :
  Txt.source (Txt.header (strOfParse
     (Txt.parse Txt.fresh "Short Source  J. Doe" "draft.txt")))
  = Some "Short Source".
Proof. vm_compute. reflexivity. Qed.

Example header_one_blank :
  fst (Txt.parse Txt.fresh "Short Source J. Doe" "draft.txt")
  = Txt.TXT_PARSING_FAILED 1 Txt.groups_of_null.
Proof. vm_compute. reflexivity. Qed.

(** C8, the failing input: the second heading that is filed under
    introduction closes the marker at the line before it and then moves the
    marker's start to its own line, so the document is returned with a
    closed marker whose end lies before its start. *)
Theorem C8_closed_marker_ends_before_start :
  let r := Txt.parse Txt.fresh twoHeadingsText "draft.txt" in
  let mk := Txt.get Txt.introduction (Txt.markers (strOfParse r)) in
  mk = Txt.mkMarker 11 10 true
  /\ Txt.closed mk = true
  /\ Txt.end_ mk < Txt.start mk
  /\ (exists d, fst r = Txt.Parsed d).
Proof.
  cbv zeta. repeat split; try (vm_compute; reflexivity).
  eexists. vm_compute. reflexivity.
Qed.

(** ** The two buckets of RFC references *)

Section RfcBuckets.

Import Txt.

Ltac break_match :=
  match goal with
  | |- context [match ?x with _ => _ end] => destruct x eqn:?
  | H : context [match ?x with _ => _ end] |- _ => destruct x eqn:?
  end.

Lemma hasString_false (v : string) (l : list string) :
  hasString v l = false -> ~ In v l.
Proof.
  unfold hasString. intros H Hin.
  assert (existsb (String.eqb v) l = true) as E.
  { apply existsb_exists. exists v. split; [assumption | apply String.eqb_refl]. }
  congruence.
Qed.

Lemma hasValue_false (v : string) (l : list RefEntry) :
  hasValue v l = false -> ~ In v (map value l).
Proof.
  unfold hasValue. intros H Hin.
  apply in_map_iff in Hin. destruct Hin as [el [Hv Hel]].
  assert (existsb (fun el => String.eqb (value el) v) l = true) as E.
  { apply existsb_exists. exists el. split; [assumption|].
    rewrite Hv. apply String.eqb_refl. }
  congruence.
Qed.

Lemma NoDup_snoc {A} (l : list A) (x : A) :
  NoDup l -> ~ In x l -> NoDup (l ++ [x]).
Proof.
  intros Hl Hx. apply NoDup_app; [assumption | repeat constructor; easy |].
  intros a Ha [<-|[]]. exact (Hx Ha).
Qed.

(** What one match does to the two buckets. *)
Lemma pushRfc_buckets cs css lx x v :
  rfcNumberOf x = Some v -> v <> "" ->
  match cs with
  | Some references =>
      nonReferenceSectionRfc (pushRfc cs css lx x) = nonReferenceSectionRfc lx
      /\ referenceSectionRfc (pushRfc cs css lx x)
         = (if hasValue v (referenceSectionRfc lx)
            then referenceSectionRfc lx
            else referenceSectionRfc lx ++ [mkRefEntry v css])
  | _ =>
      referenceSectionRfc (pushRfc cs css lx x) = referenceSectionRfc lx
      /\ nonReferenceSectionRfc (pushRfc cs css lx x)
         = (if hasString v (nonReferenceSectionRfc lx)
            then nonReferenceSectionRfc lx
            else nonReferenceSectionRfc lx ++ [v])
  end.
Proof.
  intros Hx Hv. unfold pushRfc. rewrite Hx.
  assert (Js.truthy v = true) as -> by (destruct v; [congruence | reflexivity]).
  destruct lx as [i k nr rr nd rd ls ic ms r1 r2 cb].
  cbn [andb nonReferenceSectionRfc referenceSectionRfc].
  destruct cs as [[]|];
    try (destruct (hasString v nr); split; reflexivity).
  destruct (hasValue v rr); split; reflexivity.
Qed.



Lemma pushDraft_rfc cs css lx x :
  nonReferenceSectionRfc (pushDraft cs css lx x) = nonReferenceSectionRfc lx
  /\ referenceSectionRfc (pushDraft cs css lx x) = referenceSectionRfc lx.
Proof.
  unfold pushDraft. destruct lx; cbn.
  destruct cs as [[]|]; repeat break_match; cbn; split; reflexivity.
Qed.




(** The structural part of the loop body leaves the lexical part alone. *)
Lemma laterHeaderLine_lex n line t st st' :
  laterHeaderLine n line t st = inr st' -> lex st' = lex st.
Proof.
  unfold laterHeaderLine.
  destruct (match exec LINE_VALUES_EXTRACT_RE line with
            | Some x => _ | None => _ end) as [vleft vright].
  destruct (Js.truthy vleft).
  - destruct (headerFields _ _ _) as [e|[h1 l1]]; [discriminate|].
    destruct (headerDateAuthors _ _ _ _ _) as [h2 setLast].
    intros H; inversion H; reflexivity.
  - intros H; inversion H; reflexivity.
Qed.

Lemma headerBlock_lex n line t st st' b :
  headerBlock n line t st = inr (st', b) -> lex st' = lex st.
Proof.
  unfold headerBlock.
  destruct (h_start _ =? 0).
  - destruct (firstHeaderLine _ _ _); [discriminate|].
    intros H; inversion H; reflexivity.
  - destruct (negb _).
    + destruct (_ <? _).
      * intros H; inversion H; reflexivity.
      * destruct (laterHeaderLine _ _ _ _) eqn:E; [discriminate|].
        intros H; inversion H; subst. eapply laterHeaderLine_lex; eassumption.
    + intros H; inversion H; reflexivity.
Qed.

Lemma abstractBlock_lex n line t st :
  lex (abstractBlock n line t st) = lex st.
Proof.
  unfold abstractBlock.
  destruct (String.eqb _ _); [reflexivity|].
  destruct (_ && _); [|reflexivity].
  destruct (_ || _); reflexivity.
Qed.

Lemma sectionBlock_lex n t st : lex (sectionBlock n t st) = lex st.
Proof.
  unfold sectionBlock.
  destruct (isSectionHeading t); [|reflexivity].
  destruct (matchedSection t); reflexivity.
Qed.

Lemma subsectionBlock_lex t st : lex (subsectionBlock t st) = lex st.
Proof.
  unfold subsectionBlock.
  destruct (test_g _ _ _) as [isSub li].
  destruct (_ && _); reflexivity.
Qed.

Lemma contentBlock_lex t st st' :
  contentBlock t st = inr st' -> lex st' = lex st.
Proof.
  unfold contentBlock.
  destruct (currentSection _); [|intros H; inversion H; reflexivity].
  destruct (_ && _); [|intros H; inversion H; reflexivity].
  destruct (get _ _); [|discriminate].
  intros H; inversion H; reflexivity.
Qed.

Lemma structLine_lex n line t st st' :
  structLine n line t st = inr st' -> lex st' = lex st.
Proof.
  unfold structLine.
  destruct (headerBlock n line t st) as [e|[st1 b]] eqn:E; [discriminate|].
  apply headerBlock_lex in E.
  destruct b; [intros H; inversion H; subst; exact E|].
  destruct (isSlugLine _ _); [intros H; inversion H; subst; exact E|].
  destruct (headerBlock2 _ _ _).
  - intros H; inversion H; subst; cbn.
    rewrite abstractBlock_lex. exact E.
  - intros H. apply contentBlock_lex in H.
    rewrite H, subsectionBlock_lex, sectionBlock_lex, abstractBlock_lex.
    exact E.
Qed.




End RfcBuckets.

(** ** The XML adapter *)

Section Scan.

Variable r : regex.
Variable s : string.
#[local] Abbreviation l := (list_ascii_of_string s).

Lemma skipn_S_cons {A} (xs : list A) (c : A) (tl : list A) (i : nat) :
  skipn i xs = c :: tl -> skipn (S i) xs = tl.
Proof.
  revert xs. induction i as [|i IH]; intros xs H.
  - cbn in H. subst xs. reflexivity.
  - destruct xs as [|y ys]; [discriminate|]. cbn in H. exact (IH ys H).
Qed.

Lemma search_unfold (pv : option ascii) (tl : list ascii) (idx : nat) :
  search r pv tl idx
  = match m r (MState pv tl []) Some with
    | Some fin =>
        let n := length tl - length (rest fin) in
        Some (RMatch idx (idx + n) (string_of_list_ascii (firstn n tl))
                     (caps fin))
    | None =>
        match tl with
        | [] => None
        | c :: tl' => search r (Some c) tl' (S idx)
        end
    end.
Proof. destruct tl; reflexivity. Qed.

(** A match found by the scan lies at or after the start of the scan, and
    its text is the piece of the input between its two indices. *)
Lemma search_piece :
  forall tl pv idx x,
    tl = skipn idx l ->
    search r pv tl idx = Some x ->
    idx <= index x
    /\ index x <= endIndex x
    /\ list_ascii_of_string (matched x)
       = firstn (endIndex x - index x) (skipn (index x) l).
Proof.
  induction tl as [|c tl IH]; intros pv idx x Htl H;
    rewrite search_unfold in H;
    destruct (m r _ Some) as [fin|]; try discriminate.
  - cbv zeta in H. injection H as <-. cbn [index endIndex matched].
    rewrite <- Htl, firstn_nil. repeat split; try lia.
  - cbv zeta in H. injection H as <-. cbn [index endIndex matched].
    rewrite list_ascii_of_string_of_list_ascii, <- Htl.
    repeat split; try lia. f_equal. lia.
  - symmetry in Htl. apply skipn_S_cons in Htl.
    destruct (IH (Some c) (S idx) x (eq_sym Htl) H) as [H1 [H2 H3]].
    repeat split; [lia | assumption | assumption].
Qed.

Lemma search_from_piece from x :
  search_from r s from = Some x ->
  from <= index x
  /\ index x <= endIndex x
  /\ list_ascii_of_string (matched x)
     = firstn (endIndex x - index x) (skipn (index x) l).
Proof.
  unfold search_from. destruct (_ <? _); [discriminate|].
  apply search_piece. reflexivity.
Qed.

(** Deleting the matches of a scan from the input. *)
Lemma without_Deleted :
  forall fuel from pos,
    pos <= from ->
    Deleted (skipn pos l)
            (map (fun x => list_ascii_of_string (matched x))
                 (matches_from fuel r s from))
            (without l pos (matches_from fuel r s from)).
Proof.
  induction fuel as [|fuel IH]; intros from pos Hle; cbn.
  - constructor.
  - destruct (search_from r s from) as [x|] eqn:E; cbn; [|constructor].
    destruct (search_from_piece from x E) as [H1 [H2 H3]].
    set (next := if endIndex x =? index x then S (endIndex x) else endIndex x).
    assert (endIndex x <= next) as Hnext
      by (subst next; destruct (_ =? _); lia).
    specialize (IH next (endIndex x) Hnext).
    assert (skipn pos l
            = firstn (index x - pos) (skipn pos l)
              ++ list_ascii_of_string (matched x) ++ skipn (endIndex x) l) as E2.
    { rewrite H3.
      rewrite <- (firstn_skipn (index x - pos) (skipn pos l)) at 1.
      f_equal. rewrite skipn_skipn.
      replace (index x - pos + pos) with (index x) by lia.
      rewrite <- (firstn_skipn (endIndex x - index x) (skipn (index x) l)) at 1.
      f_equal. rewrite skipn_skipn. f_equal. lia. }
    set (pre := firstn (index x - pos) (skipn pos l)) in *.
    rewrite E2. constructor. exact IH.
Qed.

(** Every match of [matchAll] is the first match of the expression at or
    after some position of the input. *)
Lemma matches_from_found :
  forall fuel from,
    Forall (fun x => exists p, search_from r s p = Some x)
           (matches_from fuel r s from).
Proof.
  induction fuel as [|fuel IH]; intros from; cbn; [constructor|].
  destruct (search_from r s from) as [x|] eqn:E; [|constructor].
  constructor; [now exists from | apply IH].
Qed.

End Scan.

(** C9, counterexample: the adapter records and removes the declaration of
    x, and the text that it hands to the XML parser is a declaration of a,
    which the expression matches. *)
Lemma C9_cleaned_text_holds_a_declaration :
  Xml.externalEntitiesOf nestedEntityText
  = [Xml.mkExternalEntity ("<!ENTITY x SYSTEM " ++ dq ++ "u" ++ dq ++ ">")
                          "x" "SYSTEM" "u"]
  /\ Xml.cleanRawText nestedEntityText
     = ("<!ENTITY a " ++ nl ++ "SYSTEM " ++ dq ++ "v" ++ dq ++ ">")%string
  /\ test Xml.externalEntityRgx (Xml.cleanRawText nestedEntityText) = true
  /\ ~ (forall rawText,
          test Xml.externalEntityRgx (Xml.cleanRawText rawText) = false).
Proof.
  repeat split; try (vm_compute; reflexivity).
  intros H. specialize (H nestedEntityText). vm_compute in H. discriminate H.
Qed.

(** C9, as amended: the adapter records one entry per match that a single
    scan of the raw text from left to right finds for the declaration
    pattern, and the text that it hands to the XML parser is the raw text
    with exactly the recorded declarations deleted; text that the deletions
    join is not scanned again.  The call returns the document with these
    entries and the tree of the parser, or fails with XML_PARSING_FAILED
    and the message of the parser. *)
Theorem C9_entities_recorded_and_deleted :
  forall (XMLParser_parse : string -> string + JsVal)
         (rawText filename : string),
    Xml.externalEntitiesOf rawText
    = map Xml.entityOf (matchAll Xml.externalEntityRgx rawText)
    /\ Forall (fun x => exists p,
                 search_from Xml.externalEntityRgx rawText p = Some x)
              (matchAll Xml.externalEntityRgx rawText)
    /\ Deleted (list_ascii_of_string rawText)
               (map (fun e => list_ascii_of_string (Xml.original e))
                    (Xml.externalEntitiesOf rawText))
               (list_ascii_of_string (Xml.cleanRawText rawText))
    /\ Xml.parse XMLParser_parse rawText filename
       = match XMLParser_parse (Xml.cleanRawText rawText) with
         | inr tree =>
             Xml.Parsed (Xml.mkXMLDocObject filename
                           (Xml.externalEntitiesOf rawText) tree)
         | inl message => Xml.XML_PARSING_FAILED message
         end.
Proof.
  intros P rawText filename.
  split; [reflexivity|]. split; [apply matches_from_found|].
  split; [|reflexivity].
  unfold Xml.externalEntitiesOf, Xml.cleanRawText, delete_all, matchAll.
  rewrite list_ascii_of_string_of_list_ascii, map_map. cbn [Xml.entityOf Xml.original].
  apply (without_Deleted Xml.externalEntityRgx rawText _ 0 0). lia.
Qed.

(** ** The RFC references of a parsed document *)


(** The [lastIndex] values of BOILERPLATE_PARTS count the calls: on a text
    with the words The key words, the flag similar2119boilerplate is true
    in seven calls of the parser and false in the eighth. *)
Example similar_flag_in_eight_calls :
  let text := "Short Source  J. Doe: The key words are these." in
  let flag ms := Txt.similar2119boilerplate (fst (Txt.wholeText ms text)) in
  let next ms := snd (Txt.wholeText ms text) in
  flag Txt.fresh = true
  /\ flag (Nat.iter 6 next Txt.fresh) = true
  /\ flag (Nat.iter 7 next Txt.fresh) = false.
Proof. cbv zeta. repeat split; vm_compute; reflexivity. Qed.

(** ** The header line for every width of the gap *)

Section GreedyLeft.

Lemma m_star_unfold (r : regex) (st : mstate) (k : mstate -> option mstate) :
  m (Star r) st k
  = (fix iter (fuel : nat) (st0 : mstate) {struct fuel} : option mstate :=
       match fuel with
       | 0 => k st0
       | S fuel' =>
           match m r st0
                   (fun st1 => if length (rest st1) <? length (rest st0)
                               then iter fuel' st1 else None) with
           | Some res => Some res
           | None => k st0
           end
       end) (S (length (rest st))) st.
Proof. reflexivity. Qed.

Lemma iter_greedy (p : ascii -> bool) (k : mstate -> option mstate) :
  forall fuel pv l cs,
    length l < fuel ->
    ((fix iter (fuel : nat) (st0 : mstate) {struct fuel} : option mstate :=
        match fuel with
        | 0 => k st0
        | S fuel' =>
            match m (Chr p) st0
                    (fun st1 => if length (rest st1) <? length (rest st0)
                                then iter fuel' st1 else None) with
            | Some res => Some res
            | None => k st0
            end
        end) fuel (MState pv l cs))
    = greedy p k pv l cs.
Proof.
  induction fuel as [|fuel IH]; intros pv l cs Hlt; [lia|].
  destruct l as [|c tl]; cbn [m rest caps greedy]; [reflexivity|].
  destruct (p c); [|reflexivity].
  assert ((length tl <? length (c :: tl)) = true) as ->
    by (apply Nat.ltb_lt; cbn; lia).
  rewrite IH by (cbn in Hlt; lia). reflexivity.
Qed.

Lemma m_star_chr (p : ascii -> bool) (st : mstate)
    (k : mstate -> option mstate) :
  m (Star (Chr p)) st k = greedy p k (prev st) (rest st) (caps st).
Proof.
  rewrite m_star_unfold. destruct st as [pv l cs].
  exact (iter_greedy p k (S (length l)) pv l cs (Nat.lt_succ_diag_r _)).
Qed.

(** Once the continuation accepts a position behind a run of code units in
    [p], the positions inside the run are not tried. *)
Lemma greedy_app (p : ascii -> bool) (k : mstate -> option mstate) :
  forall l1 pv l2 cs res,
    Forall (fun c => p c = true) l1 ->
    (forall pv', greedy p k pv' l2 cs = Some res) ->
    greedy p k pv (l1 ++ l2) cs = Some res.
Proof.
  induction l1 as [|c l1 IH]; intros pv l2 cs res Hall H; cbn.
  - apply H.
  - inversion Hall as [|? ? Hc Hl1]; subst. rewrite Hc.
    now rewrite (IH (Some c) l2 cs res Hl1 H).
Qed.

Lemma m_cat (r1 r2 : regex) (st : mstate) (k : mstate -> option mstate) :
  m (Cat r1 r2) st k = m r1 st (fun st1 => m r2 st1 k).
Proof. reflexivity. Qed.

Lemma m_group (n : nat) (r : regex) (st : mstate)
    (k : mstate -> option mstate) :
  m (Group n r) st k
  = m r st (fun st1 =>
      k (MState (prev st1) (rest st1)
           (set_cap n (firstn (length (rest st) - length (rest st1)) (rest st))
                    (caps st1)))).
Proof. reflexivity. Qed.

Lemma m_bol (st : mstate) (k : mstate -> option mstate) :
  m Bol st k = match prev st with None => k st | Some _ => None end.
Proof. reflexivity. Qed.

Lemma blanks_dot (n : nat) : Forall (fun c => is_dot c = true) (blanks n).
Proof. induction n; cbn; constructor; [reflexivity | assumption]. Qed.

(** The header line with a gap of [n + 2] blanks. *)
#[local] Abbreviation gapLine n := (shortSource ++ blanks (n + 2) ++ jDoe).

(** On the header line the pattern gives the left group the source and all
    blanks of the gap but the last two, and the right group the author. *)
Lemma line_values_of_gap (n : nat) :
  exec Txt.LINE_VALUES_EXTRACT_RE (string_of_list_ascii (gapLine n))
  = Some (RMatch 0 (length (gapLine n)) (string_of_list_ascii (gapLine n))
                 [(2, jDoe); (1, shortSource ++ blanks n)]).
Proof.
  unfold exec, search_from.
  rewrite list_ascii_of_string_of_list_ascii.
  assert ((length (gapLine n) <? 0) = false) as -> by reflexivity.
  cbn [skipn]. rewrite search_unfold.
  assert (gapLine n = (shortSource ++ blanks n) ++ (blanks 2 ++ jDoe)) as E.
  { unfold blanks. rewrite repeat_app, <- !app_assoc. reflexivity. }
  remember (gapLine n) as L eqn:HL.
  unfold Txt.LINE_VALUES_EXTRACT_RE, cats, Txt.dot at 1.
  rewrite m_cat, m_bol. cbn [prev].
  rewrite m_cat, m_group, m_star_chr. cbn [prev rest caps].
  rewrite E at 1.
  rewrite (greedy_app is_dot _ (shortSource ++ blanks n) None (blanks 2 ++ jDoe)
             [] (MState (Some "e"%char) []
                   [(2, jDoe); (1, firstn (length L - 8) L)])).
  - cbv zeta. cbn [rest caps].
    rewrite Nat.sub_0_r, firstn_all. cbn [Nat.add].
    do 3 f_equal. rewrite E, length_app.
    change (length (blanks 2 ++ jDoe)) with 8.
    replace (length (shortSource ++ blanks n) + 8 - 8)
      with (length (shortSource ++ blanks n) + 0) by lia.
    rewrite firstn_app_2. cbn [firstn]. now rewrite app_nil_r.
  - apply Forall_app. split; [|apply blanks_dot].
    repeat constructor.
  - intros pv'. vm_compute. reflexivity.
Qed.

(** For every width of the gap the first header line gives a source that
    ends in the blanks of the gap but two. *)
Lemma source_for_every_gap (n : nat) (s : Txt.Struct) :
  exists s',
    Txt.firstHeaderLine 1 (string_of_list_ascii (gapLine n)) s = inr s'
    /\ Txt.source (Txt.header s')
       = Some (string_of_list_ascii (shortSource ++ blanks n))
    /\ Txt.authors (Txt.header s')
       = Txt.authors (Txt.header s) ++ [Txt.mkAuthor "J. Doe" None].
Proof.
  unfold Txt.firstHeaderLine. rewrite line_values_of_gap.
  eexists. split; [reflexivity|]. split; reflexivity.
Qed.

End GreedyLeft.

(** ** The section markers *)

Section Markers.

Import Txt.

Lemma get_put_same {T} (c : SectionName) (v : T) (o : PerSection T) :
  get c (put c v o) = v.
Proof. destruct o, c; reflexivity. Qed.

Lemma get_put_other {T} (c c' : SectionName) (v : T) (o : PerSection T) :
  c <> c' -> get c' (put c v o) = get c' o.
Proof. destruct o, c, c'; intros H; try reflexivity; congruence. Qed.

(** Closing the current section at a line that is not before its start
    leaves a closed marker whose end is not before its start. *)
Lemma closeCurrent_closes (e : nat) (c : SectionName) (ms : PerSection Marker) :
  closed (get c ms) = false ->
  start (get c ms) <= e ->
  closed (get c (closeCurrent e (Some c) ms)) = true
  /\ start (get c (closeCurrent e (Some c) ms))
     <= end_ (get c (closeCurrent e (Some c) ms)).
Proof.
  intros Hc Hs. unfold closeCurrent. rewrite Hc. cbn [negb].
  rewrite get_put_same. split; [reflexivity | exact Hs].
Qed.

(** A heading that is filed under the section that is open closes its
    marker at the line before and moves the start to the line of the
    heading: whatever came before, the marker is then closed with its end
    one line before its start. *)
Lemma sectionBlock_reopens (lineIdx : nat) (trimmedLine : string) (st : St)
    (c : SectionName) :
  isSectionHeading trimmedLine = true ->
  matchedSection trimmedLine = Some c ->
  currentSection (loc st) = Some c ->
  closed (get c (markers (str st))) = false ->
  get c (markers (str (sectionBlock lineIdx trimmedLine st)))
  = mkMarker lineIdx (lineIdx - 1) true.
Proof.
  intros Hh Hm Hc Ho. unfold sectionBlock. rewrite Hh, Hm, Hc.
  unfold closeCurrent. rewrite Ho. cbn [negb].
  cbn [str set_loc set_str set_markers set_content markers].
  rewrite !get_put_same. reflexivity.
Qed.

End Markers.

(* ================================================================== *)
(** * Further properties of the code                                   *)
(* ================================================================== *)

(** ** What a successful match says about the text *)

Section Soundness.

Lemma iter_sound (r : regex) (k : mstate -> option mstate) :
  (forall st k res,
      m r st k = Some res ->
      exists st', Reach r st st' /\ k st' = Some res) ->
  forall fuel st res,
    ((fix iter (fuel : nat) (st0 : mstate) {struct fuel} : option mstate :=
        match fuel with
        | 0 => k st0
        | S fuel' =>
            match m r st0
                    (fun st1 => if length (rest st1) <? length (rest st0)
                                then iter fuel' st1 else None) with
            | Some res => Some res
            | None => k st0
            end
        end) fuel st) = Some res ->
    exists st', Reach (Star r) st st' /\ k st' = Some res.
Proof.
  intros IH. induction fuel as [|fuel IHf]; intros st res H.
  - exists st. split; [constructor | exact H].
  - match type of H with
    | match ?x with _ => _ end = _ => destruct x as [res1|] eqn:E1
    end.
    + inversion H; subst.
      destruct (IH _ _ _ E1) as [b [Hb Hk]].
      destruct (length (rest b) <? length (rest st)); [|discriminate].
      destruct (IHf b res Hk) as [c [Hc Hk']].
      exists c. split; [econstructor; eassumption | exact Hk'].
    + exists st. split; [constructor | exact H].
Qed.

(** Every result of the matcher comes from the continuation, at a position
    that the expression can reach. *)
Lemma m_sound :
  forall r st k res,
    m r st k = Some res ->
    exists st', Reach r st st' /\ k st' = Some res.
Proof.
  induction r as [|p|r1 IH1 r2 IH2|r1 IH1 r2 IH2|r IH|n r IH| | | |r IH];
    intros st k res H.
  - exists st. split; [constructor | exact H].
  - cbn in H. destruct st as [pv l cs]; cbn in H.
    destruct l as [|c tl]; [discriminate|].
    destruct (p c) eqn:Hp; [|discriminate].
    eexists. split; [constructor; exact Hp | exact H].
  - rewrite m_cat in H.
    destruct (IH1 _ _ _ H) as [b [Hb Hk]].
    destruct (IH2 _ _ _ Hk) as [c [Hc Hk']].
    exists c. split; [econstructor; eassumption | exact Hk'].
  - cbn in H. destruct (m r1 st k) as [res1|] eqn:E1.
    + inversion H; subst.
      destruct (IH1 _ _ _ E1) as [b [Hb Hk]].
      exists b. split; [now apply Reach_Alt_l | exact Hk].
    + destruct (IH2 _ _ _ H) as [b [Hb Hk]].
      exists b. split; [now apply Reach_Alt_r | exact Hk].
  - exact (iter_sound r k IH (S (length (rest st))) st res H).
  - rewrite m_group in H.
    destruct (IH _ _ _ H) as [b [Hb Hk]].
    eexists. split; [constructor; exact Hb | exact Hk].
  - cbn in H. destruct (prev st) eqn:E; [discriminate|].
    exists st. split; [now constructor | exact H].
  - cbn in H. destruct (rest st) eqn:E; [|discriminate].
    exists st. split; [now constructor | exact H].
  - cbn in H. destruct (xorb _ _); [|discriminate].
    exists st. split; [constructor | exact H].
  - cbn in H. destruct (m r st Some); [discriminate|].
    exists st. split; [constructor | exact H].
Qed.

End Soundness.

Section ReachFacts.

(** What is read is a prefix of the text. *)
Lemma Reach_rest r a b :
  Reach r a b -> exists l, rest a = l ++ rest b.
Proof.
  induction 1; cbn;
    try (exists []; reflexivity);
    try assumption.
  - exists [c]. reflexivity.
  - destruct IHReach1 as [l1 E1]. destruct IHReach2 as [l2 E2].
    exists (l1 ++ l2). rewrite E1, E2. now rewrite app_assoc.
  - destruct IHReach1 as [l1 E1]. destruct IHReach2 as [l2 E2].
    exists (l1 ++ l2). rewrite E1, E2. now rewrite app_assoc.
Qed.

Lemma firstn_read {A} (l tl : list A) :
  firstn (length (l ++ tl) - length tl) (l ++ tl) = l.
Proof.
  rewrite length_app.
  replace (length l + length tl - length tl) with (length l + 0) by lia.
  rewrite firstn_app_2. cbn. apply app_nil_r.
Qed.

(** A repetition of a class reads code units of the class and keeps the
    captures. *)
Lemma Reach_star_chr p a b :
  Reach (Star (Chr p)) a b ->
  exists l, rest a = l ++ rest b /\ Forall (fun c => p c = true) l
            /\ caps b = caps a.
Proof.
  intros H. remember (Star (Chr p)) as r eqn:Hr.
  induction H; try discriminate.
  - exists []. repeat split. constructor.
  - inversion Hr; subst r.
    destruct (IHReach2 eq_refl) as [l [E [Hl Hc]]].
    inversion H; subst. cbn in *.
    exists (c0 :: l). rewrite E. repeat split; [|assumption].
    constructor; assumption.
Qed.

Lemma Reach_plus_chr p a b :
  Reach (Plus (Chr p)) a b ->
  exists l, rest a = l ++ rest b /\ Forall (fun c => p c = true) l
            /\ l <> [] /\ caps b = caps a.
Proof.
  unfold Plus. intros H. inversion H; subst.
  match goal with
  | H1 : Reach (Chr p) _ _, H2 : Reach (Star (Chr p)) _ _ |- _ =>
      inversion H1; subst;
      destruct (Reach_star_chr _ _ _ H2) as [l [E [Hl Hc]]]
  end.
  cbn in *. exists (c :: l). rewrite E.
  repeat split; [constructor; assumption | discriminate | assumption].
Qed.

(** Every match of a scan was read by the expression somewhere in the text,
    starting without captures. *)
Lemma search_reach r :
  forall tl pv idx x,
    search r pv tl idx = Some x ->
    exists pv' tl' fin,
      Reach r (MState pv' tl' []) fin
      /\ groups x = caps fin
      /\ matched x
         = string_of_list_ascii (firstn (length tl' - length (rest fin)) tl').
Proof.
  induction tl as [|c tl IH]; intros pv idx x H;
    rewrite search_unfold in H;
    destruct (m r _ Some) as [fin|] eqn:E; try discriminate.
  - apply m_sound in E. destruct E as [st' [Hr Hk]]. inversion Hk; subst st'.
    cbv zeta in H. injection H as <-.
    exists pv, [], fin. repeat split; assumption.
  - apply m_sound in E. destruct E as [st' [Hr Hk]]. inversion Hk; subst st'.
    cbv zeta in H. injection H as <-.
    exists pv, (c :: tl), fin. repeat split; assumption.
  - eapply IH; eassumption.
Qed.

Lemma matches_from_reach r s :
  forall fuel from,
    Forall (fun x =>
              exists pv' tl' fin,
                Reach r (MState pv' tl' []) fin
                /\ groups x = caps fin
                /\ matched x
                   = string_of_list_ascii
                       (firstn (length tl' - length (rest fin)) tl'))
           (matches_from fuel r s from).
Proof.
  induction fuel as [|fuel IH]; intros from; cbn; [constructor|].
  destruct (search_from r s from) as [x|] eqn:E; [|constructor].
  constructor; [|apply IH].
  unfold search_from in E. destruct (_ <? _); [discriminate|].
  eapply search_reach; eassumption.
Qed.

End ReachFacts.

(** ** The values that the parser records for references *)

Ltac inv_reach :=
  repeat match goal with
         | H : Reach (Cat _ _) _ _ |- _ => inversion H; subst; clear H
         | H : Reach (Alt _ _) _ _ |- _ => inversion H; subst; clear H
         | H : Reach (Group _ _) _ _ |- _ => inversion H; subst; clear H
         | H : Reach (Chr _) _ _ |- _ => inversion H; subst; clear H
         | H : Reach Eps _ _ |- _ => inversion H; subst; clear H
         | H : Reach WordB _ _ |- _ => inversion H; subst; clear H
         | H : Reach Bol _ _ |- _ => inversion H; subst; clear H
         | H : Reach Eol _ _ |- _ => inversion H; subst; clear H
         | H : Reach (NotAhead _) _ _ |- _ => inversion H; subst; clear H
         end.

Ltac split_match :=
  match goal with
  | |- context [match ?x with _ => _ end] => destruct x eqn:?
  | H : context [match ?x with _ => _ end] |- _ => destruct x eqn:?
  end.

Section RecordedValues.

Import Txt.

Lemma isDigits_of_list (l : list ascii) :
  Forall (fun c => is_digit c = true) l -> l <> [] ->
  isDigits (string_of_list_ascii l) = true.
Proof.
  intros Hl Hne. unfold isDigits.
  rewrite list_ascii_of_string_of_list_ascii.
  apply andb_true_iff. split.
  - destruct l; [congruence | reflexivity].
  - apply forallb_forall. now apply Forall_forall.
Qed.

(** The number of a match of RFC_REFERENCE_RE is a string of digits. *)
Lemma rfc_match_digits pv tl fin x v :
  Reach RFC_REFERENCE_RE (MState pv tl []) fin ->
  groups x = caps fin ->
  rfcNumberOf x = Some v ->
  isDigits v = true.
Proof.
  unfold RFC_REFERENCE_RE, cats, liti, Opt, d, sp, chi, ch. intros H Hg Hv.
  unfold rfcNumberOf, group in Hv. rewrite Hg in Hv.
  inversion H; subst; clear H; inv_reach;
    match goal with
    | H : Reach (Plus (Chr is_digit)) _ _ |- _ =>
        destruct (Reach_plus_chr _ _ _ H) as [l [E [Hl [Hne Hc]]]]
    end;
    cbn [rest caps prev] in *; subst;
    try match goal with
        | H : _ :: _ = rest ?b |- _ => rewrite H in *
        end;
    rewrite firstn_read in Hv; rewrite Hc in Hv; cbn in Hv;
    assert (Js.truthy (string_of_list_ascii l) = true) as Ht
      by (destruct l; [congruence | reflexivity]);
    try rewrite Ht in Hv;
    inversion Hv; subst; now apply isDigits_of_list.
Qed.

(** *** Invariants of the loop *)

Lemma loop_invariant (P : nat -> St -> Prop) :
  (forall n line st st',
      P n st -> stepLine (S n) line st = inr st' -> P (S n) st') ->
  forall ls n st n' st',
    P n st -> loop n ls st = inr (n', st') ->
    P n' st' /\ n' = n + length ls.
Proof.
  intros Hstep ls. induction ls as [|line tl IH]; intros n st n' st' H E;
    cbn in E.
  - inversion E; subst. split; [assumption | cbn; lia].
  - destruct (stepLine (S n) line st) as [[e r]|st1] eqn:E1; [discriminate|].
    destruct (IH (S n) st1 n' st' (Hstep _ _ _ _ H E1) E) as [HP Hn].
    split; [assumption | cbn; lia].
Qed.

Lemma fold_pushDraft_rfc cs css xs :
  forall lx,
    nonReferenceSectionRfc (fold_left (pushDraft cs css) xs lx)
    = nonReferenceSectionRfc lx
    /\ referenceSectionRfc (fold_left (pushDraft cs css) xs lx)
       = referenceSectionRfc lx.
Proof.
  induction xs as [|x xs IH]; intros lx; cbn; [now split|].
  destruct (IH (pushDraft cs css lx x)) as [-> ->]. apply pushDraft_rfc.
Qed.

(** Of the lexical steps of a line only the loops over RFC_REFERENCE_RE and
    NON_RFC_REFERENCE_RE write the four lists of references. *)
Lemma lexLine_buckets n line t st :
  let lx := extractDrafts (currentSection (loc st)) (currentSubSection (loc st))
              t (extractRfc (currentSection (loc st))
                            (currentSubSection (loc st)) t (lex st)) in
  nonReferenceSectionRfc (lex (lexLine n line t st)) = nonReferenceSectionRfc lx
  /\ referenceSectionRfc (lex (lexLine n line t st)) = referenceSectionRfc lx
  /\ nonReferenceSectionDraftReferences (lex (lexLine n line t st))
     = nonReferenceSectionDraftReferences lx
  /\ referenceSectionDraftReferences (lex (lexLine n line t st))
     = referenceSectionDraftReferences lx.
Proof.
  unfold lexLine.
  destruct (extractDrafts _ _ _ _) as [i k nr rr nd rd ls ic ms r1 r2 cb].
  unfold scanLine, inlineCodeCheck, extractIpv4.
  repeat split_match; cbn in *;
    repeat match goal with
           | H : (_, _) = (_, _) |- _ => inversion H; clear H; subst
           end; cbn; try (repeat split; reflexivity); try discriminate.
Qed.

Lemma lexLine_rfc n line t st :
  nonReferenceSectionRfc (lex (lexLine n line t st))
  = nonReferenceSectionRfc
      (extractRfc (currentSection (loc st)) (currentSubSection (loc st)) t
                  (lex st))
  /\ referenceSectionRfc (lex (lexLine n line t st))
     = referenceSectionRfc
         (extractRfc (currentSection (loc st)) (currentSubSection (loc st)) t
                     (lex st)).
Proof.
  destruct (lexLine_buckets n line t st) as [-> [-> _]].
  apply fold_pushDraft_rfc.
Qed.

(** What a successful [parse] returns, in terms of the final state of
    the loop. *)
Lemma parse_parsed ms rawText filename doc :
  fst (parse ms rawText filename) = Parsed doc ->
  exists n st,
    loop 0 (split LF rawText) (initial (lineRe (snd (wholeText ms rawText))))
    = inr (n, st)
    /\ doc = mkTXTDocObject (docKind (loc st)) rawText
               (mkData (pageCount st) (fst (wholeText ms rawText)) (lex st)
                  (set_markers
                     (closeCurrent n (currentSection (loc st))
                                   (markers (str st)))
                     (str st)))
               filename.
Proof.
  unfold parse.
  destruct (wholeText ms rawText) as [whole ms1]. cbn [fst snd].
  destruct (loop 0 (split LF rawText) (initial (lineRe ms1)))
    as [[[n e] r]|[n st]] eqn:E; cbn; [discriminate|].
  intros H; inversion H; subst. exists n, st. split; reflexivity.
Qed.

(** A property of the lexical part that every line keeps holds at the
    end of the loop. *)
Lemma stepLine_lex_invariant (P : Lex -> Prop) :
  (forall n line st, P (lex st) -> P (lex (lexLine n line (trim line) st))) ->
  forall n line st st',
    P (lex st) -> stepLine n line st = inr st' -> P (lex st').
Proof.
  intros Hlex n line st st' HP. unfold stepLine.
  destruct (existsb _ _); [intros E; inversion E; exact HP|].
  destruct (negb _); [intros E; inversion E; subst; exact HP|].
  destruct (structLine _ _ _ _) as [e|st2] eqn:E; [discriminate|].
  intros E'; inversion E'; subst.
  rewrite (structLine_lex _ _ _ _ _ E). now apply Hlex.
Qed.

Lemma fold_left_invariant {A B} (f : A -> B -> A) (Q : B -> Prop)
      (P : A -> Prop) :
  (forall a b, Q b -> P a -> P (f a b)) ->
  forall xs a, Forall Q xs -> P a -> P (fold_left f xs a).
Proof.
  intros Hf. induction xs as [|x xs IH]; intros a HQ Ha; cbn; [exact Ha|].
  inversion HQ; subst. apply IH; [assumption|]. now apply Hf.
Qed.

(** A property of the two lists of RFC numbers that every match keeps
    holds for the lists of every parsed document. *)
Lemma parse_rfc_invariant (P : list string -> list RefEntry -> Prop) :
  P [] [] ->
  (forall cs css lx t x,
      In x (matchAll RFC_REFERENCE_RE t) ->
      P (nonReferenceSectionRfc lx) (referenceSectionRfc lx) ->
      P (nonReferenceSectionRfc (pushRfc cs css lx x))
        (referenceSectionRfc (pushRfc cs css lx x))) ->
  forall ms rawText filename doc,
    fst (parse ms rawText filename) = Parsed doc ->
    P (nonReferenceSectionRfc (data_lex (data doc)))
      (referenceSectionRfc (data_lex (data doc))).
Proof.
  intros H0 Hpush ms rawText filename doc H.
  destruct (parse_parsed _ _ _ _ H) as [n [st [E ->]]]. cbn.
  refine (proj1 (loop_invariant
            (fun _ st => P (nonReferenceSectionRfc (lex st))
                           (referenceSectionRfc (lex st)))
            _ _ _ _ _ _ _ E)); [|exact H0].
  clear - Hpush. intros n line st st'.
  apply (stepLine_lex_invariant
           (fun lx => P (nonReferenceSectionRfc lx) (referenceSectionRfc lx))).
  clear - Hpush. intros n line st HP.
  destruct (lexLine_rfc n line (trim line) st) as [-> ->].
  unfold extractRfc.
  apply (fold_left_invariant _
           (fun x => In x (matchAll RFC_REFERENCE_RE (trim line)))
           (fun lx => P (nonReferenceSectionRfc lx) (referenceSectionRfc lx)));
    [intros a b Hb Ha; now apply (Hpush _ _ _ (trim line))
    | apply Forall_forall; tauto | exact HP].
Qed.

Lemma pushRfc_digits cs css lx t x :
  In x (matchAll RFC_REFERENCE_RE t) ->
  rfcBucketsDigits lx -> rfcBucketsDigits (pushRfc cs css lx x).
Proof.
  intros Hin [H1 H2].
  unfold matchAll in Hin.
  pose proof (matches_from_reach RFC_REFERENCE_RE t (S (String.length t)) 0)
    as Hall.
  rewrite Forall_forall in Hall.
  destruct (Hall x Hin) as [pv [tl [fin [HR [Hg _]]]]].
  unfold pushRfc.
  destruct (rfcNumberOf x) as [v|] eqn:Hv; [|now split].
  pose proof (rfc_match_digits _ _ _ _ _ HR Hg Hv) as Hd.
  destruct lx as [i k nr rr nd rd ls ic ms r1 r2 cb]. cbn in H1, H2.
  destruct cs as [[]|];
    match goal with
    | |- context [if ?b then _ else _] => destruct b
    end; split; cbn; try assumption;
    apply Forall_app; split; try assumption; repeat constructor; exact Hd.
Qed.

Lemma parse_digits ms rawText filename doc :
  fst (parse ms rawText filename) = Parsed doc ->
  rfcBucketsDigits (data_lex (data doc)).
Proof.
  apply (parse_rfc_invariant
           (fun nr rr => Forall (fun v => isDigits v = true) nr
                         /\ Forall (fun el => isDigits (value el) = true) rr)).
  - split; constructor.
  - intros cs css lx t x Hin H. now apply (pushRfc_digits cs css lx t x).
Qed.

End RecordedValues.

(** X1: every RFC number that the parser records, in the list of the
    references section as in the list of the other references, is a
    non-empty string of decimal digits: the number of a bracketed reference
    or of a mention in the text, never the letters or the brackets around
    it. *)
Theorem recorded_rfc_numbers_are_digits :
  forall ms rawText filename doc,
    fst (Txt.parse ms rawText filename) = Txt.Parsed doc ->
    rfcBucketsDigits (Txt.data_lex (Txt.data doc)).
Proof. intros. eapply parse_digits; eassumption. Qed.

Lemma recorded_rfc_numbers_are_digits_witness :
  rfcBucketsDigits
    (lexOfParse (Txt.parse Txt.fresh referencesText "draft.txt")).
Proof.
  apply (recorded_rfc_numbers_are_digits Txt.fresh referencesText "draft.txt").
  vm_compute. reflexivity.
Defined.

Section DraftValues.
Import Txt.

Lemma parse_lex_invariant (P : Lex -> Prop) :
  (forall re0, P (lex (initial re0))) ->
  (forall n line st, P (lex st) -> P (lex (lexLine n line (trim line) st))) ->
  forall ms rawText filename doc,
    fst (parse ms rawText filename) = Parsed doc -> P (data_lex (data doc)).
Proof.
  intros H0 Hlex ms rawText filename doc H.
  destruct (parse_parsed _ _ _ _ H) as [n [st [E ->]]]. cbn.
  refine (proj1 (loop_invariant (fun _ st => P (lex st)) _ _ _ _ _ _ _ E));
    [|apply H0].
  intros n0 line st0 st'. now apply stepLine_lex_invariant.
Qed.

Lemma pushRfc_drafts cs css lx x :
  nonReferenceSectionDraftReferences (pushRfc cs css lx x)
  = nonReferenceSectionDraftReferences lx
  /\ referenceSectionDraftReferences (pushRfc cs css lx x)
     = referenceSectionDraftReferences lx.
Proof.
  unfold pushRfc. destruct (rfcNumberOf x); [|now split].
  destruct lx; cbn.
  destruct cs as [[]|]; repeat split_match; cbn; split; reflexivity.
Qed.

Lemma extractRfc_drafts cs css t lx :
  nonReferenceSectionDraftReferences (extractRfc cs css t lx)
  = nonReferenceSectionDraftReferences lx
  /\ referenceSectionDraftReferences (extractRfc cs css t lx)
     = referenceSectionDraftReferences lx.
Proof.
  unfold extractRfc.
  apply (fold_left_invariant (pushRfc cs css) (fun _ => True)
           (fun l => nonReferenceSectionDraftReferences l
                     = nonReferenceSectionDraftReferences lx
                     /\ referenceSectionDraftReferences l
                        = referenceSectionDraftReferences lx)).
  - intros a b _ [H1 H2].
    destruct (pushRfc_drafts cs css a b) as [-> ->]. now split.
  - apply Forall_forall. trivial.
  - now split.
Qed.

Lemma forallb_rev {A} (f : A -> bool) (l : list A) :
  forallb f l = true -> forallb f (rev l) = true.
Proof.
  rewrite !forallb_forall. intros H x Hx. apply H. now apply in_rev.
Qed.

(** The text of a match of NON_RFC_REFERENCE_RE. *)
Lemma draft_match_token pv tl fin x :
  Reach NON_RFC_REFERENCE_RE (MState pv tl []) fin ->
  matched x = string_of_list_ascii (firstn (length tl - length (rest fin)) tl) ->
  isDraftToken (matched x) = true.
Proof.
  unfold NON_RFC_REFERENCE_RE, cats, ch. intros H ->.
  inv_reach.
  match goal with
  | H : Reach (Plus (Chr _)) _ _ |- _ =>
      destruct (Reach_plus_chr _ _ _ H) as [l [E [Hl [Hne Hc]]]]
  end.
  cbn [rest caps prev] in *; subst.
  repeat match goal with
         | H : Ascii.eqb _ _ = true |- _ => apply Ascii.eqb_eq in H; subst
         end.
  change ("["%char :: l ++ "]"%char :: ?t)
    with (("["%char :: l) ++ "]"%char :: t).
  match goal with
  | |- context [firstn _ (?a ++ "]"%char :: ?t)] =>
      replace (a ++ "]"%char :: t) with ((a ++ ["]"%char]) ++ t)
        by (rewrite <- app_assoc; reflexivity)
  end.
  rewrite firstn_read.
  unfold isDraftToken. rewrite list_ascii_of_string_of_list_ascii.
  cbn [app]. rewrite rev_unit.
  assert (forallb is_nameChar (rev l) = true) as Hf.
  { apply forallb_rev. apply forallb_forall. rewrite Forall_forall in Hl.
    exact Hl. }
  destruct (rev l) eqn:Er; [|exact Hf].
  exfalso. apply Hne. rewrite <- (rev_involutive l), Er. reflexivity.
Qed.

Lemma pushDraft_listed cs css lx t x :
  In x (matchAll NON_RFC_REFERENCE_RE t) ->
  draftBucketsListed lx -> draftBucketsListed (pushDraft cs css lx x).
Proof.
  intros Hin [[N1 F1] [N2 F2]].
  unfold matchAll in Hin.
  pose proof (matches_from_reach NON_RFC_REFERENCE_RE t
                (S (String.length t)) 0) as Hall.
  rewrite Forall_forall in Hall.
  destruct (Hall x Hin) as [pv [tl [fin [HR [_ Hm]]]]].
  pose proof (draft_match_token _ _ _ _ HR Hm) as Hd.
  unfold pushDraft.
  destruct lx as [i k nr rr nd rd ls ic ms r1 r2 cb]. cbn in N1, F1, N2, F2.
  destruct cs as [[]|];
    match goal with
    | |- context [if negb ?b then _ else _] => destruct b eqn:E
    end; cbn [negb]; unfold draftBucketsListed; cbn;
    repeat split; try assumption;
    try (apply Forall_app; split; [assumption | repeat constructor; exact Hd]);
    try (apply NoDup_snoc; [assumption | now apply hasString_false]).
  rewrite map_app. cbn.
  apply NoDup_snoc; [assumption | now apply hasValue_false].
Qed.

Lemma parse_drafts_listed ms rawText filename doc :
  fst (parse ms rawText filename) = Parsed doc ->
  draftBucketsListed (data_lex (data doc)).
Proof.
  apply (parse_lex_invariant draftBucketsListed).
  - intros re0. cbn. repeat split; constructor.
  - intros n line st H.
    destruct (lexLine_buckets n line (trim line) st) as [_ [_ [E1 E2]]].
    unfold draftBucketsListed. rewrite E1, E2.
    change (draftBucketsListed
              (extractDrafts (currentSection (loc st))
                 (currentSubSection (loc st)) (trim line)
                 (extractRfc (currentSection (loc st))
                    (currentSubSection (loc st)) (trim line) (lex st)))).
    unfold extractDrafts.
    apply (fold_left_invariant _
             (fun x => In x (matchAll NON_RFC_REFERENCE_RE (trim line)))
             draftBucketsListed).
    + intros a b Hb Ha. now apply (pushDraft_listed _ _ _ (trim line)).
    + apply Forall_forall. tauto.
    + unfold draftBucketsListed.
      destruct (extractRfc_drafts (currentSection (loc st))
                  (currentSubSection (loc st)) (trim line) (lex st))
        as [-> ->]. exact H.
Qed.

End DraftValues.

(** X3: the draft references that the parser records are bracketed names:
    an opening bracket, one or more letters, digits, hyphens or dots, and a
    closing bracket, the brackets being part of the value; and neither the
    list of the references section nor the list of the other references
    holds a value twice. *)
Theorem recorded_draft_references_are_bracketed_once :
  forall ms rawText filename doc,
    fst (Txt.parse ms rawText filename) = Txt.Parsed doc ->
    draftBucketsListed (Txt.data_lex (Txt.data doc)).
Proof. intros. eapply parse_drafts_listed; eassumption. Qed.

Lemma recorded_draft_references_are_bracketed_once_witness :
  draftBucketsListed (lexOfParse (Txt.parse Txt.fresh draftsText "draft.txt")).
Proof.
  apply (recorded_draft_references_are_bracketed_once
           Txt.fresh draftsText "draft.txt").
  vm_compute. reflexivity.
Defined.

Section NumberFilter.

(** A greedy run over text that lies in the class throughout succeeds as
    soon as the continuation accepts the end of the text. *)
Lemma greedy_all (p : ascii -> bool) (k : mstate -> option mstate) cs :
  (forall pv, k (MState pv [] cs) <> None) ->
  forall l pv, forallb p l = true -> greedy p k pv l cs <> None.
Proof.
  intros Hk. induction l as [|c tl IH]; intros pv Hl; cbn; [apply Hk|].
  cbn in Hl. apply andb_prop in Hl as [Hc Htl]. rewrite Hc.
  specialize (IH (Some c) Htl).
  destruct (greedy p k (Some c) tl cs); congruence.
Qed.

Lemma m_chr (p : ascii -> bool) pv c tl cs (k : mstate -> option mstate) :
  m (Chr p) (MState pv (c :: tl) cs) k
  = if p c then k (MState (Some c) tl cs) else None.
Proof. reflexivity. Qed.

Lemma test_RFC_NUMBER_REG (v : string) :
  isDigits v = true -> test RFC_NUMBER_REG v = true.
Proof.
  unfold isDigits. intros H. apply andb_prop in H as [Ht Hd].
  unfold test, exec, search_from.
  destruct (list_ascii_of_string v) as [|c l] eqn:E.
  { destruct v; [discriminate Ht | discriminate E]. }
  cbn in Hd. apply andb_prop in Hd as [Hc Hl].
  assert ((length (c :: l) <? 0) = false) as -> by reflexivity.
  cbn [skipn]. rewrite search_unfold.
  unfold RFC_NUMBER_REG, cats, Plus.
  rewrite m_cat, m_bol. cbn [prev].
  rewrite !m_cat, m_chr, Hc, m_star_chr. cbn [prev rest caps].
  destruct (greedy is_digit _ (Some c) l []) eqn:E1; [reflexivity|].
  exfalso. revert E1. apply greedy_all; [|exact Hl].
  intros pv. cbn. discriminate.
Qed.

Lemma filter_and_all {A} (f g : A -> bool) (l : list A) :
  Forall (fun x => g x = true) l ->
  filter (fun x => f x && g x) l = filter f l.
Proof.
  induction 1 as [|x l Hx Hl IH]; cbn; [reflexivity|].
  rewrite Hx, andb_true_r, IH. reflexivity.
Qed.

End NumberFilter.

(** X2: on a document that the text parser returned, the test of
    validateNormativeReferences for a value of digits only removes nothing:
    the RFC numbers it looks up are the values of all entries of the
    references section that lie in the normative subsection, in the order
    of the document. *)
Theorem normative_filter_keeps_every_parsed_number :
  forall ms rawText filename doc,
    fst (Txt.parse ms rawText filename) = Txt.Parsed doc ->
    normativeReferences (TxtDoc doc)
    = Ok (map Txt.value
            (filter (subsection_is Txt.normative_references)
                    (Txt.referenceSectionRfc (Txt.data_lex (Txt.data doc))))).
Proof.
  intros ms rawText filename doc H.
  destruct (parse_digits _ _ _ _ H) as [_ Hrr].
  unfold normativeReferences, lexOf. do 2 f_equal.
  apply filter_and_all.
  revert Hrr. apply Forall_impl. intros el. apply test_RFC_NUMBER_REG.
Qed.

Lemma normative_filter_keeps_every_parsed_number_witness :
  normativeReferences
    (TxtDoc (parsedOrEmpty (Txt.parse Txt.fresh referencesText "draft.txt")))
  = Ok ["4086"].
Proof.
  rewrite (normative_filter_keeps_every_parsed_number
             Txt.fresh referencesText "draft.txt");
    vm_compute; reflexivity.
Defined.

Section PageCount.
Import Txt.

Lemma laterHeaderLine_pageCount n line t st st' :
  laterHeaderLine n line t st = inr st' -> pageCount st' = pageCount st.
Proof.
  unfold laterHeaderLine.
  destruct (match exec LINE_VALUES_EXTRACT_RE line with
            | Some x => _ | None => _ end) as [vleft vright].
  destruct (Js.truthy vleft).
  - destruct (headerFields _ _ _) as [e|[h1 l1]]; [discriminate|].
    destruct (headerDateAuthors _ _ _ _ _) as [h2 setLast].
    intros H; inversion H; reflexivity.
  - intros H; inversion H; reflexivity.
Qed.

Lemma headerBlock_pageCount n line t st st' b :
  headerBlock n line t st = inr (st', b) -> pageCount st' = pageCount st.
Proof.
  unfold headerBlock.
  destruct (h_start _ =? 0).
  - destruct (firstHeaderLine _ _ _); [discriminate|].
    intros H; inversion H; reflexivity.
  - destruct (negb _).
    + destruct (_ <? _).
      * intros H; inversion H; reflexivity.
      * destruct (laterHeaderLine _ _ _ _) eqn:E; [discriminate|].
        intros H; inversion H; subst.
        eapply laterHeaderLine_pageCount; eassumption.
    + intros H; inversion H; reflexivity.
Qed.

Lemma abstractBlock_pageCount n line t st :
  pageCount (abstractBlock n line t st) = pageCount st.
Proof.
  unfold abstractBlock.
  destruct (String.eqb _ _); [reflexivity|].
  destruct (_ && _); [|reflexivity].
  destruct (_ || _); reflexivity.
Qed.

Lemma sectionBlock_pageCount n t st :
  pageCount (sectionBlock n t st) = pageCount st.
Proof.
  unfold sectionBlock.
  destruct (isSectionHeading t); [|reflexivity].
  destruct (matchedSection t); reflexivity.
Qed.

Lemma subsectionBlock_pageCount t st :
  pageCount (subsectionBlock t st) = pageCount st.
Proof.
  unfold subsectionBlock.
  destruct (test_g _ _ _) as [isSub li].
  destruct (_ && _); reflexivity.
Qed.

Lemma contentBlock_pageCount t st st' :
  contentBlock t st = inr st' -> pageCount st' = pageCount st.
Proof.
  unfold contentBlock.
  destruct (currentSection _); [|intros H; inversion H; reflexivity].
  destruct (_ && _); [|intros H; inversion H; reflexivity].
  destruct (get _ _); [|discriminate].
  intros H; inversion H; reflexivity.
Qed.

Lemma structLine_pageCount n line t st st' :
  structLine n line t st = inr st' -> pageCount st' = pageCount st.
Proof.
  unfold structLine.
  destruct (headerBlock n line t st) as [e|[st1 b]] eqn:E; [discriminate|].
  apply headerBlock_pageCount in E.
  destruct b; [intros H; inversion H; subst; exact E|].
  destruct (isSlugLine _ _); [intros H; inversion H; subst; exact E|].
  destruct (headerBlock2 _ _ _).
  - intros H; inversion H; subst; cbn.
    rewrite abstractBlock_pageCount. exact E.
  - intros H. apply contentBlock_pageCount in H.
    rewrite H, subsectionBlock_pageCount, sectionBlock_pageCount,
      abstractBlock_pageCount.
    exact E.
Qed.

Lemma lexLine_pageCount n line t st :
  pageCount (lexLine n line t st) = pageCount st.
Proof.
  unfold lexLine.
  destruct (scanLine _ _ _ _ _) as [lx2 inCode].
  destruct (inlineCodeCheck _ _ _ _ _) as [lx3 li]. reflexivity.
Qed.

Lemma stepLine_pageCount n line st st' :
  stepLine n line st = inr st' ->
  pageCount st' = pageCount st + (if hasFormFeed line then 1 else 0).
Proof.
  unfold stepLine, hasFormFeed.
  destruct (existsb _ _).
  - intros H; inversion H; cbn. lia.
  - destruct (negb _); [intros H; inversion H; subst; lia|].
    destruct (structLine _ _ _ _) as [e|st2] eqn:E; [discriminate|].
    intros H; inversion H; subst.
    rewrite (structLine_pageCount _ _ _ _ _ E), lexLine_pageCount. lia.
Qed.

Lemma loop_pageCount ls :
  forall n st n' st',
    loop n ls st = inr (n', st') ->
    pageCount st' = pageCount st + length (filter hasFormFeed ls).
Proof.
  induction ls as [|line tl IH]; intros n st n' st' E; cbn in E.
  - inversion E; subst. cbn. lia.
  - destruct (stepLine (S n) line st) as [[e r]|st1] eqn:E1; [discriminate|].
    rewrite (IH _ _ _ _ E), (stepLine_pageCount _ _ _ _ E1). cbn [filter].
    destruct (hasFormFeed line); cbn [length]; lia.
Qed.

End PageCount.

(** X4: the page count of a parsed document is one more than the number
    of lines that hold a form feed, wherever in the line the form feed
    stands and whatever else the line holds. *)
Theorem page_count_is_form_feed_lines_plus_one :
  forall ms rawText filename doc,
    fst (Txt.parse ms rawText filename) = Txt.Parsed doc ->
    Txt.data_pageCount (Txt.data doc)
    = 1 + length (filter hasFormFeed (split LF rawText)).
Proof.
  intros ms rawText filename doc H.
  destruct (parse_parsed _ _ _ _ H) as [n [st [E ->]]]. cbn.
  now rewrite (loop_pageCount _ _ _ _ _ E).
Qed.

Lemma page_count_is_form_feed_lines_plus_one_witness :
  Txt.data_pageCount
    (Txt.data (parsedOrEmpty (Txt.parse Txt.fresh twoPagesText "draft.txt")))
  = 3.
Proof.
  rewrite (page_count_is_form_feed_lines_plus_one
             Txt.fresh twoPagesText "draft.txt");
    vm_compute; reflexivity.
Defined.

Section ContentLists.
Import Txt.

Lemma laterHeaderLine_sections n line t st st' :
  laterHeaderLine n line t st = inr st' ->
  markers (str st') = markers (str st) /\ content (str st') = content (str st).
Proof.
  unfold laterHeaderLine.
  destruct (match exec LINE_VALUES_EXTRACT_RE line with
            | Some x => _ | None => _ end) as [vleft vright].
  destruct (Js.truthy vleft).
  - destruct (headerFields _ _ _) as [e|[h1 l1]]; [discriminate|].
    destruct (headerDateAuthors _ _ _ _ _) as [h2 setLast].
    intros H; inversion H; split; reflexivity.
  - intros H; inversion H; split; reflexivity.
Qed.

Lemma headerBlock_sections n line t st st' b :
  headerBlock n line t st = inr (st', b) ->
  markers (str st') = markers (str st) /\ content (str st') = content (str st).
Proof.
  unfold headerBlock.
  destruct (h_start _ =? 0).
  - unfold firstHeaderLine. destruct (exec _ _); [|discriminate].
    intros H; inversion H; split; reflexivity.
  - destruct (negb _).
    + destruct (_ <? _).
      * intros H; inversion H; split; reflexivity.
      * destruct (laterHeaderLine _ _ _ _) eqn:E; [discriminate|].
        intros H; inversion H; subst.
        eapply laterHeaderLine_sections; eassumption.
    + intros H; inversion H; split; reflexivity.
Qed.

Lemma headerBlock2_sections n t s s' :
  headerBlock2 n t s = Some s' ->
  markers s' = markers s /\ content s' = content s.
Proof.
  unfold headerBlock2.
  destruct (h_start _ =? 0).
  - destruct (exec _ _); intros H; inversion H; split; reflexivity.
  - destruct (negb _); [|discriminate].
    destruct (_ <? _); intros H; inversion H; split; reflexivity.
Qed.

Lemma laterHeaderLine_error n line t st e :
  laterHeaderLine n line t st = inl e -> e = indexOf_of_undefined.
Proof.
  unfold laterHeaderLine.
  destruct (match exec LINE_VALUES_EXTRACT_RE line with
            | Some x => _ | None => _ end) as [vleft vright].
  destruct (Js.truthy vleft); [|discriminate].
  destruct (headerFields _ _ _) as [e'|[h1 l1]] eqn:E.
  - intros H; inversion H; subst. revert E. unfold headerFields.
    destruct (if includes _ _ then _ else _) as [h1 l1].
    destruct (startsWith "Obsoletes" vleft).
    + destruct (afterColon vleft); [discriminate|].
      intros H'; inversion H'; reflexivity.
    + discriminate.
  - destruct (headerDateAuthors _ _ _ _ _) as [h2 setLast]. discriminate.
Qed.

Lemma headerBlock_error n line t st e :
  headerBlock n line t st = inl e -> e <> push_of_null.
Proof.
  unfold headerBlock.
  destruct (h_start _ =? 0).
  - unfold firstHeaderLine. destruct (exec _ _); [discriminate|].
    intros H; inversion H; discriminate.
  - destruct (negb _); [|discriminate].
    destruct (_ <? _); [discriminate|].
    destruct (laterHeaderLine _ _ _ _) eqn:E; [|discriminate].
    intros H; inversion H; subst.
    rewrite (laterHeaderLine_error _ _ _ _ _ E). discriminate.
Qed.

Lemma closeCurrent_start e cs ms c :
  start (get c (closeCurrent e cs ms)) = start (get c ms).
Proof.
  unfold closeCurrent. destruct cs as [c0|]; [|reflexivity].
  destruct (negb _); [|reflexivity].
  destruct ms, c0, c; reflexivity.
Qed.

Lemma SectionName_eq_dec (a b : SectionName) : {a = b} + {a <> b}.
Proof. decide equality. Defined.

Lemma contentReady_put (s : Struct) c mk v ms :
  contentReady s ->
  (forall c', start (get c' ms) = start (get c' (markers s))) ->
  contentReady
    (set_content (put c (Some v) (content s))
                 (set_markers (put c mk ms) s)).
Proof.
  intros H Hms c'. cbn.
  destruct (SectionName_eq_dec c c') as [<-|Hne].
  - rewrite !get_put_same. discriminate.
  - rewrite !get_put_other by assumption. rewrite Hms. apply H.
Qed.

Lemma abstractBlock_ready n line t st :
  contentReady (str st) -> contentReady (str (abstractBlock n line t st)).
Proof.
  intros H. unfold abstractBlock.
  destruct (String.eqb _ _).
  - cbn [str set_loc set_str]. now apply contentReady_put.
  - destruct (_ && _); [|exact H].
    destruct (_ || _); [|exact H].
    intros c Hc. apply H. revert Hc.
    cbn [str set_str markers set_markers].
    destruct (SectionName_eq_dec abstract c) as [<-|Hne].
    + rewrite get_put_same. cbn. trivial.
    + rewrite get_put_other by assumption. trivial.
Qed.

Lemma sectionBlock_ready n t st :
  contentReady (str st) -> contentReady (str (sectionBlock n t st)).
Proof.
  intros H. unfold sectionBlock.
  destruct (isSectionHeading t); [|exact H].
  destruct (matchedSection t) as [c|].
  - cbn [str set_loc set_str]. apply contentReady_put; [exact H|].
    intros c'. apply closeCurrent_start.
  - intros c Hc. apply H. revert Hc.
    cbn [str set_loc set_str markers set_markers].
    rewrite closeCurrent_start. trivial.
Qed.

Lemma subsectionBlock_str t st : str (subsectionBlock t st) = str st.
Proof.
  unfold subsectionBlock.
  destruct (test_g _ _ _) as [isSub li].
  destruct (_ && _); reflexivity.
Qed.

Lemma contentBlock_ready t st :
  contentReady (str st) ->
  match contentBlock t st with
  | inl _ => False
  | inr st' => contentReady (str st')
  end.
Proof.
  intros H. unfold contentBlock.
  destruct (currentSection _) as [c|]; [|exact H].
  destruct (negb (start _ =? 0) && _) eqn:E; [|exact H].
  apply andb_prop in E as [E _]. apply negb_true_iff, Nat.eqb_neq in E.
  specialize (H c E) as Hc.
  destruct (get c (content (str st))) as [ls|] eqn:Eg; [|congruence].
  intros c' Hc'. cbn [str set_str content set_content markers] in *.
  destruct (SectionName_eq_dec c c') as [<-|Hne].
  - rewrite get_put_same. discriminate.
  - rewrite get_put_other by assumption. now apply H.
Qed.

Lemma contentReady_same (s s' : Struct) :
  markers s' = markers s /\ content s' = content s ->
  contentReady s -> contentReady s'.
Proof. intros [Hm Hc] H c. rewrite Hm, Hc. apply H. Qed.

Lemma structLine_ready n line t st :
  contentReady (str st) ->
  match structLine n line t st with
  | inl e => e <> push_of_null
  | inr st' => contentReady (str st')
  end.
Proof.
  intros H. unfold structLine.
  destruct (headerBlock n line t st) as [e|[st1 b]] eqn:E.
  { eapply headerBlock_error; eassumption. }
  apply headerBlock_sections in E.
  pose proof (contentReady_same _ _ E H) as H1.
  destruct b; [exact H1|].
  destruct (isSlugLine _ _); [exact H1|].
  pose proof (abstractBlock_ready n line t st1 H1) as H2.
  destruct (headerBlock2 _ _ _) eqn:E2.
  - cbn. eapply contentReady_same; [|exact H2].
    eapply headerBlock2_sections; eassumption.
  - pose proof (sectionBlock_ready n t _ H2) as H3.
    rewrite <- (subsectionBlock_str t) in H3.
    pose proof (contentBlock_ready t _ H3) as H4.
    destruct (contentBlock _ _); [contradiction | exact H4].
Qed.

Lemma lexLine_str n line t st : str (lexLine n line t st) = str st.
Proof.
  unfold lexLine.
  destruct (scanLine _ _ _ _ _) as [lx2 inCode].
  destruct (inlineCodeCheck _ _ _ _ _) as [lx3 li]. reflexivity.
Qed.

Lemma stepLine_ready n line st :
  contentReady (str st) ->
  match stepLine n line st with
  | inl (e, _) => e <> push_of_null /\ skipped line = false
  | inr st' => contentReady (str st')
  end.
Proof.
  intros H. unfold stepLine, skipped, hasFormFeed.
  destruct (existsb _ _); [exact H|].
  destruct (negb _); [exact H|].
  pose proof (structLine_ready n line (trim line)
                (lexLine n line (trim line) st)) as H1.
  rewrite lexLine_str in H1. specialize (H1 H).
  destruct (structLine _ _ _ _); [split; [exact H1 | reflexivity] | exact H1].
Qed.

Lemma loop_failure ls :
  forall n st k e r,
    contentReady (str st) ->
    loop n ls st = inl ((k, e), r) ->
    e <> push_of_null
    /\ n < k <= n + length ls
    /\ exists line, nth_error ls (k - n - 1) = Some line
                    /\ skipped line = false.
Proof.
  induction ls as [|line tl IH]; intros n st k e r H E; cbn in E;
    [discriminate|].
  pose proof (stepLine_ready (S n) line st H) as H1.
  destruct (stepLine (S n) line st) as [[e1 r1]|st1] eqn:E1.
  - inversion E; subst. destruct H1 as [H1 H2].
    split; [exact H1|]. split; [cbn; lia|].
    exists line. replace (S n - n - 1) with 0 by lia. now split.
  - destruct (IH _ _ _ _ _ H1 E) as [He [Hk [l [Hl Hs]]]].
    split; [exact He|]. split; [cbn; lia|].
    exists l. split; [|exact Hs].
    replace (k - n - 1) with (S (k - S n - 1)) by lia. exact Hl.
Qed.

End ContentLists.

(** X5: when the text parser fails, the cause is never the push of a line
    to the content of the current section: a section that has a start line
    always has its list of lines; and the line number that the failure
    reports is the number of a line of the text that holds no form feed and
    is not blank. *)
Theorem parse_failure_is_at_a_text_line :
  forall ms rawText filename n e,
    fst (Txt.parse ms rawText filename) = Txt.TXT_PARSING_FAILED n e ->
    e <> Txt.push_of_null
    /\ 1 <= n <= length (split LF rawText)
    /\ exists line, nth_error (split LF rawText) (n - 1) = Some line
                    /\ skipped line = false.
Proof.
  intros ms rawText filename n e. unfold Txt.parse.
  destruct (Txt.wholeText ms rawText) as [whole ms1].
  destruct (Txt.loop 0 (split LF rawText) (Txt.initial (Txt.lineRe ms1)))
    as [[[k e'] r]|[k st]] eqn:E; cbn [fst]; [|discriminate].
  intros H; inversion H; subst.
  assert (contentReady (Txt.str (Txt.initial (Txt.lineRe ms1)))) as H0.
  { intros c Hc. exfalso. apply Hc. destruct c; reflexivity. }
  destruct (loop_failure _ _ _ _ _ _ H0 E) as [He [Hk [line [Hl Hs]]]].
  split; [exact He|]. split; [lia|].
  exists line. rewrite Nat.sub_0_r in Hl. now split.
Qed.

Lemma parse_failure_is_at_a_text_line_witness :
  Txt.groups_of_null <> Txt.push_of_null
  /\ 1 <= 2 <= length (split LF oneWordText)
  /\ exists line, nth_error (split LF oneWordText) (2 - 1) = Some line
                  /\ skipped line = false.
Proof.
  apply (parse_failure_is_at_a_text_line Txt.fresh oneWordText "draft.txt").
  vm_compute. reflexivity.
Defined.

Section Anchored.

(** An expression that begins with the start anchor matches nowhere behind
    the first position. *)
Lemma search_bol_later (r : regex) :
  forall tl c idx, search (Cat Bol r) (Some c) tl idx = None.
Proof.
  induction tl as [|c' tl IH]; intros c idx;
    rewrite search_unfold, m_cat, m_bol; cbn [prev]; [reflexivity | apply IH].
Qed.

Lemma exec_bol (r : regex) (s : string) :
  exec (Cat Bol r) s
  = match m r (MState None (list_ascii_of_string s) []) Some with
    | Some fin =>
        let n := length (list_ascii_of_string s) - length (rest fin) in
        Some (RMatch 0 (0 + n)
                (string_of_list_ascii (firstn n (list_ascii_of_string s)))
                (caps fin))
    | None => None
    end.
Proof.
  unfold exec, search_from.
  assert ((length (list_ascii_of_string s) <? 0) = false) as ->
    by reflexivity.
  cbn [skipn]. rewrite search_unfold, m_cat, m_bol. cbn [prev].
  destruct (m r _ Some); [reflexivity|].
  destruct (list_ascii_of_string s); [reflexivity | apply search_bol_later].
Qed.

Lemma hasGap_app (l : list ascii) a b tl :
  is_space a = true -> is_space b = true ->
  hasGap (l ++ a :: b :: tl) = true.
Proof.
  intros Ha Hb. induction l as [|c l IH].
  - cbn. now rewrite Ha, Hb.
  - cbn [app hasGap]. destruct (l ++ a :: b :: tl) eqn:E.
    + destruct l; discriminate.
    + rewrite IH. apply orb_true_r.
Qed.

(** The expression of the two columns needs two adjacent white-space code
    units. *)
Lemma line_values_gap (s : string) :
  hasGap (list_ascii_of_string s) = false ->
  exec Txt.LINE_VALUES_EXTRACT_RE s = None.
Proof.
  intros H. unfold Txt.LINE_VALUES_EXTRACT_RE, cats. rewrite exec_bol.
  destruct (m _ _ Some) as [fin|] eqn:E; [|reflexivity].
  exfalso. apply m_sound in E. destruct E as [st' [HR _]].
  unfold AtLeast, Times, Txt.sp in HR.
  inversion HR as [| |? ? ? b ? H1 H2| | | | | | | | |]; subst; clear HR.
  inversion H1; subst; clear H1.
  match goal with
  | H : Reach (Star _) _ _ |- _ => apply Reach_rest in H; destruct H as [l El]
  end.
  cbn [rest] in El.
  inversion H2 as [| |? ? ? b2 ? H3 H4| | | | | | | | |]; subst; clear H2 H4.
  inv_reach. cbn [rest] in El.
  match goal with
  | H : _ :: _ :: _ = rest _ |- _ => rewrite <- H in El
  end.
  rewrite El in H. rewrite hasGap_app in H; [discriminate | assumption..].
Qed.

End Anchored.

Section FirstLine.
Import Txt.

Lemma loop_skipped pre :
  forall n st rest,
    forallb skipped pre = true ->
    exists st',
      loop n (pre ++ rest) st = loop (n + length pre) rest st'
      /\ str st' = str st /\ loc st' = loc st /\ lex st' = lex st.
Proof.
  induction pre as [|line pre IH]; intros n st rest0 H.
  - exists st. rewrite Nat.add_0_r. repeat split; reflexivity.
  - cbn in H. apply andb_prop in H as [Hs Hp].
    cbn [app loop]. unfold stepLine at 1.
    unfold skipped, hasFormFeed in Hs.
    destruct (existsb _ _).
    + destruct (IH (S n) (mkSt (S (pageCount st)) (lex st) (str st) (loc st)
                              (re st)) rest0 Hp) as [st' [E [E1 [E2 E3]]]].
      exists st'. rewrite E. cbn [length].
      replace (n + S (length pre)) with (S n + length pre) by lia.
      repeat split; assumption.
    + cbn [orb] in Hs. rewrite Hs.
      destruct (IH (S n) st rest0 Hp) as [st' [E [E1 [E2 E3]]]].
      exists st'. rewrite E. cbn [length].
      replace (n + S (length pre)) with (S n + length pre) by lia.
      repeat split; assumption.
Qed.

Lemma stepLine_first_line n line st :
  h_start (m_header (str st)) = 0 ->
  skipped line = false ->
  hasGap (list_ascii_of_string (trim line)) = false ->
  exists r, stepLine n line st = inl (groups_of_null, r).
Proof.
  intros Hh Hs Hg. unfold stepLine.
  unfold skipped, hasFormFeed in Hs. apply orb_false_elim in Hs as [-> ->].
  unfold structLine, headerBlock. rewrite lexLine_str, Hh. cbn [Nat.eqb].
  unfold firstHeaderLine. rewrite (line_values_gap _ Hg).
  eexists. reflexivity.
Qed.

End FirstLine.

(** X6: a text whose first line that is neither blank nor a page break has,
    once trimmed, no two white-space characters next to each other is
    rejected: the parser fails at that line, at the read of the groups of a
    match that is null, whatever the lines after it hold. *)
Theorem first_text_line_without_gap_is_rejected :
  forall ms rawText filename pre line post,
    split LF rawText = pre ++ line :: post ->
    forallb skipped pre = true ->
    skipped line = false ->
    hasGap (list_ascii_of_string (trim line)) = false ->
    fst (Txt.parse ms rawText filename)
    = Txt.TXT_PARSING_FAILED (S (length pre)) Txt.groups_of_null.
Proof.
  intros ms rawText filename pre line post Hl Hp Hs Hg. unfold Txt.parse.
  destruct (Txt.wholeText ms rawText) as [whole ms1]. rewrite Hl.
  destruct (loop_skipped pre 0 (Txt.initial (Txt.lineRe ms1)) (line :: post) Hp)
    as [st' [E [E1 _]]].
  rewrite E. cbn [Txt.loop Nat.add].
  destruct (stepLine_first_line (S (length pre)) line st') as [r Hr];
    [rewrite E1; reflexivity | assumption | assumption |].
  rewrite Hr. reflexivity.
Qed.

Lemma first_text_line_without_gap_is_rejected_witness :
  fst (Txt.parse Txt.fresh oneWordText "draft.txt")
  = Txt.TXT_PARSING_FAILED 2 Txt.groups_of_null.
Proof.
  apply (first_text_line_without_gap_is_rejected Txt.fresh oneWordText
           "draft.txt" [""] "Hello" ["world  wide"]);
    vm_compute; reflexivity.
Defined.

Section HeaderAndTitle.
Import Txt.

Lemma loop_app a :
  forall b n st,
    loop n (a ++ b) st
    = match loop n a st with
      | inl x => inl x
      | inr (n', st') => loop n' b st'
      end.
Proof.
  induction a as [|line a IH]; intros b n st; cbn [app loop]; [reflexivity|].
  destruct (stepLine (S n) line st) as [[e r]|st1]; [reflexivity | apply IH].
Qed.

Lemma loop_length ls :
  forall n st n' st', loop n ls st = inr (n', st') -> n' = n + length ls.
Proof.
  intros n st n' st' E.
  exact (proj2 (loop_invariant (fun _ _ => True) (fun _ _ _ _ _ _ => I)
                  ls n st n' st' I E)).
Qed.

Lemma stepLine_skipped n line st :
  skipped line = true ->
  exists st', stepLine n line st = inr st' /\ str st' = str st.
Proof.
  unfold skipped, hasFormFeed, stepLine. intros H.
  destruct (existsb _ _); [eexists; split; reflexivity|].
  cbn [orb] in H. rewrite H. eexists; split; reflexivity.
Qed.

Lemma stepLine_text n line st :
  skipped line = false ->
  stepLine n line st
  = match structLine n line (trim line) (lexLine n line (trim line) st) with
    | inl e => inl (e, re (lexLine n line (trim line) st))
    | inr st2 => inr st2
    end.
Proof.
  unfold skipped, hasFormFeed, stepLine. intros H.
  apply orb_false_elim in H as [-> ->]. reflexivity.
Qed.

Lemma headerView_eq (a b : Struct) :
  headerView a = headerView b ->
  m_header a = m_header b /\ title a = title b /\ m_title a = m_title b
  /\ slug a = slug b /\ m_slug a = m_slug b.
Proof.
  unfold headerView. intros H. inversion H. repeat split; assumption.
Qed.

Lemma abstractBlock_view n line t st :
  headerView (str (abstractBlock n line t st)) = headerView (str st).
Proof.
  unfold abstractBlock.
  destruct (String.eqb _ _); [reflexivity|].
  destruct (_ && _); [|reflexivity].
  destruct (_ || _); reflexivity.
Qed.

Lemma sectionBlock_view n t st :
  headerView (str (sectionBlock n t st)) = headerView (str st).
Proof.
  unfold sectionBlock.
  destruct (isSectionHeading t); [|reflexivity].
  destruct (matchedSection t); reflexivity.
Qed.

Lemma contentBlock_view t st st' :
  contentBlock t st = inr st' -> headerView (str st') = headerView (str st).
Proof.
  unfold contentBlock.
  destruct (currentSection _); [|intros H; inversion H; reflexivity].
  destruct (_ && _); [|intros H; inversion H; reflexivity].
  destruct (get _ _); [|discriminate].
  intros H; inversion H; reflexivity.
Qed.

(** The blocks behind the header leave the header, the title and the slug
    alone. *)
Lemma tail_view n t st st' :
  contentBlock t (subsectionBlock t (sectionBlock n t st)) = inr st' ->
  headerView (str st') = headerView (str st).
Proof.
  intros H. apply contentBlock_view in H.
  now rewrite H, subsectionBlock_str, sectionBlock_view.
Qed.

Lemma laterHeaderLine_view n line t st st' :
  laterHeaderLine n line t st = inr st' ->
  exists la,
    m_header (str st')
    = mkHeaderMarker (h_start (m_header (str st))) n la
                     (h_closed (m_header (str st)))
    /\ (la = lastAuthor (m_header (str st)) \/ la = n)
    /\ title (str st') = title (str st)
    /\ m_title (str st') = m_title (str st)
    /\ slug (str st') = slug (str st)
    /\ m_slug (str st') = m_slug (str st).
Proof.
  unfold laterHeaderLine.
  destruct (match exec LINE_VALUES_EXTRACT_RE line with
            | Some x => _ | None => _ end) as [vleft vright].
  destruct (Js.truthy vleft).
  - destruct (headerFields _ _ _) as [e|[h1 l1]]; [discriminate|].
    destruct (headerDateAuthors _ _ _ _ _) as [h2 [|]];
      intros H; inversion H; cbn; eexists; repeat split; auto.
  - intros H; inversion H; cbn; eexists; repeat split; auto.
Qed.

(** The first line with text opens the header. *)
Lemma stepLine_opens n line st st' :
  h_start (m_header (str st)) = 0 ->
  skipped line = false ->
  stepLine n line st = inr st' ->
  m_header (str st') = mkHeaderMarker n n n false
  /\ title (str st') = title (str st)
  /\ m_title (str st') = m_title (str st)
  /\ slug (str st') = slug (str st)
  /\ m_slug (str st') = m_slug (str st).
Proof.
  intros Hh Hs. rewrite (stepLine_text _ _ _ Hs).
  unfold structLine, headerBlock. rewrite lexLine_str, Hh. cbn [Nat.eqb].
  unfold firstHeaderLine. destruct (exec _ _); [|discriminate].
  intros H; inversion H; cbn. repeat split; reflexivity.
Qed.

(** A line with text directly below the last line of an open header
    extends the header. *)
Lemma stepLine_extends n line st st' :
  h_start (m_header (str st)) <> 0 ->
  h_closed (m_header (str st)) = false ->
  n <= h_end (m_header (str st)) + 1 ->
  title (str st) = None ->
  skipped line = false ->
  stepLine n line st = inr st' ->
  h_start (m_header (str st')) = h_start (m_header (str st))
  /\ h_end (m_header (str st')) = n
  /\ h_closed (m_header (str st')) = false
  /\ title (str st') = None
  /\ m_title (str st') = m_title (str st)
  /\ slug (str st') = slug (str st)
  /\ m_slug (str st') = m_slug (str st).
Proof.
  intros Hh Hc Hn Ht Hs. rewrite (stepLine_text _ _ _ Hs).
  unfold structLine, headerBlock. rewrite lexLine_str.
  apply Nat.eqb_neq in Hh. rewrite Hh, Hc. cbn [negb].
  assert ((h_end (m_header (str st)) + 1 <? n) = false) as ->
    by (apply Nat.ltb_ge; lia).
  destruct (laterHeaderLine _ _ _ _) as [e|st1] eqn:E; [discriminate|].
  destruct (laterHeaderLine_view _ _ _ _ _ E)
    as [la [Em [_ [Et [Emt [Es Ems]]]]]].
  rewrite lexLine_str in Em, Et, Emt, Es, Ems.
  unfold isSlugLine. rewrite Et, Ht.
  pose proof (abstractBlock_view n line (trim line) st1) as Ev.
  destruct (headerView_eq _ _ Ev) as [E1 [E2 [E3 [E4 E5]]]].
  unfold headerBlock2. rewrite E1, Em. cbn [h_start h_closed h_end].
  rewrite Hh, Hc. cbn [negb].
  assert ((n + 1 <? n) = false) as -> by (apply Nat.ltb_ge; lia).
  intros H; inversion H; cbn.
  rewrite E2, E3, E4, E5, Et, Emt, Es, Ems, Ht. repeat split; reflexivity.
Qed.

Lemma headerBlock2_closed n t s :
  h_start (m_header s) <> 0 -> h_closed (m_header s) = true ->
  headerBlock2 n t s = None.
Proof.
  intros Hh Hc. unfold headerBlock2.
  apply Nat.eqb_neq in Hh. rewrite Hh, Hc. reflexivity.
Qed.

(** A line with text further below closes the header and gives the
    title. *)
Lemma stepLine_closes n line st st' :
  h_start (m_header (str st)) <> 0 ->
  h_closed (m_header (str st)) = false ->
  h_end (m_header (str st)) + 1 < n ->
  skipped line = false ->
  stepLine n line st = inr st' ->
  m_header (str st')
  = mkHeaderMarker (h_start (m_header (str st))) (h_end (m_header (str st)))
                   (lastAuthor (m_header (str st))) true
  /\ title (str st') = Some (trim line)
  /\ m_title (str st') = n
  /\ slug (str st') = slug (str st)
  /\ m_slug (str st') = m_slug (str st).
Proof.
  intros Hh Hc Hn Hs. rewrite (stepLine_text _ _ _ Hs).
  unfold structLine, headerBlock. rewrite lexLine_str.
  pose proof Hh as Hh'. apply Nat.eqb_neq in Hh'. rewrite Hh', Hc.
  cbn [negb].
  assert ((h_end (m_header (str st)) + 1 <? n) = true) as ->
    by (apply Nat.ltb_lt; lia).
  unfold isSlugLine. cbn [str set_str closeHeader title set_title m_title].
  assert ((n =? n + 1) = false) as -> by (apply Nat.eqb_neq; lia).
  rewrite andb_false_r.
  match goal with
  | |- context [abstractBlock n line (trim line) ?s] => set (st1 := s)
  end.
  pose proof (abstractBlock_view n line (trim line) st1) as Ev.
  destruct (headerView_eq _ _ Ev) as [E1 [E2 [E3 [E4 E5]]]].
  rewrite headerBlock2_closed; [|rewrite E1; exact Hh | rewrite E1; reflexivity].
  destruct (contentBlock _ _) as [e|st3] eqn:H; [discriminate|].
  intros H'; inversion H'; subst st3. apply tail_view in H.
  destruct (headerView_eq _ _ H) as [F1 [F2 [F3 [F4 F5]]]].
  rewrite F1, F2, F3, F4, F5, E1, E2, E3, E4, E5. unfold st1. cbn.
  repeat split; reflexivity.
Qed.

(** Once the header is closed, the header marker and the title stay, and
    the slug is taken from the line below the title and from no other. *)
Lemma stepLine_closed n line st st' :
  h_start (m_header (str st)) <> 0 ->
  h_closed (m_header (str st)) = true ->
  stepLine n line st = inr st' ->
  m_header (str st') = m_header (str st)
  /\ title (str st') = title (str st)
  /\ m_title (str st') = m_title (str st)
  /\ (slug (str st'), m_slug (str st'))
     = (if isText line && isSlugLine n (str st)
        then (Some (trim line), n)
        else (slug (str st), m_slug (str st))).
Proof.
  intros Hh Hc. unfold isText.
  destruct (skipped line) eqn:Hs.
  - destruct (stepLine_skipped n line st Hs) as [st1 [E E1]].
    rewrite E. intros H; inversion H; subst. rewrite E1. cbn.
    repeat split; reflexivity.
  - rewrite (stepLine_text _ _ _ Hs). cbn [negb andb].
    unfold structLine, headerBlock. rewrite lexLine_str.
    pose proof Hh as Hh'. apply Nat.eqb_neq in Hh'. rewrite Hh', Hc.
    cbn [negb]. cbv beta iota. rewrite ?lexLine_str.
    destruct (isSlugLine n (str st)).
    + intros H; inversion H; cbn. rewrite ?lexLine_str.
      repeat split; reflexivity.
    + match goal with
      | |- context [abstractBlock n line (trim line) ?s] => set (st1 := s)
      end.
      pose proof (abstractBlock_view n line (trim line) st1) as Ev.
      destruct (headerView_eq _ _ Ev) as [E1 [E2 [E3 [E4 E5]]]].
      assert (str st1 = str st) as Es by apply lexLine_str.
      rewrite headerBlock2_closed;
        [|rewrite E1, Es; exact Hh | rewrite E1, Es; exact Hc].
      destruct (contentBlock _ _) as [e|st3] eqn:H; [discriminate|].
      intros H'; inversion H'; subst st3. apply tail_view in H.
      destruct (headerView_eq _ _ H) as [F1 [F2 [F3 [F4 F5]]]].
      rewrite F1, F2, F3, F4, F5, E1, E2, E3, E4, E5, Es.
      repeat split; reflexivity.
Qed.

Lemma loop_header hs :
  forall n st tl n' st',
    forallb isText hs = true ->
    h_start (m_header (str st)) <> 0 ->
    h_closed (m_header (str st)) = false ->
    h_end (m_header (str st)) = n ->
    title (str st) = None ->
    loop n (hs ++ tl) st = inr (n', st') ->
    exists st2,
      loop (n + length hs) tl st2 = inr (n', st')
      /\ h_start (m_header (str st2)) = h_start (m_header (str st))
      /\ h_end (m_header (str st2)) = n + length hs
      /\ h_closed (m_header (str st2)) = false
      /\ title (str st2) = None
      /\ slug (str st2) = slug (str st)
      /\ m_slug (str st2) = m_slug (str st).
Proof.
  induction hs as [|line hs IH]; intros n st tl n' st' Hh Hs Hc He Ht E.
  - exists st. cbn [app length] in *. rewrite Nat.add_0_r.
    repeat split; try assumption; reflexivity.
  - cbn in Hh. apply andb_prop in Hh as [Hl Hh].
    unfold isText in Hl. apply negb_true_iff in Hl.
    cbn [app loop] in E.
    destruct (stepLine (S n) line st) as [[e r]|st1] eqn:E1; [discriminate|].
    destruct (stepLine_extends (S n) line st st1)
      as [F1 [F2 [F3 [F4 [F5 [F6 F7]]]]]];
      [exact Hs | exact Hc | lia | exact Ht | exact Hl | exact E1 |].
    destruct (IH (S n) st1 tl n' st')
      as [st2 [G0 [G1 [G2 [G3 [G4 [G5 G6]]]]]]];
      [exact Hh | congruence | exact F3 | exact F2 | exact F4 | exact E |].
    exists st2. cbn [length].
    replace (n + S (length hs)) with (S n + length hs) by lia.
    repeat split; try assumption; congruence.
Qed.

(** The state behind the title line: the header is the run of lines with
    text that begins at the first one, and the title is the first line
    with text below it. *)
Lemma loop_title pre header gap t post n st :
  forallb skipped pre = true ->
  header <> [] -> forallb isText header = true ->
  gap <> [] -> forallb skipped gap = true ->
  isText t = true ->
  forall re0,
    loop 0 (pre ++ header ++ gap ++ t :: post) (initial re0) = inr (n, st) ->
    exists st4 la,
      loop (length pre + length header + length gap + 1) post st4
      = inr (n, st)
      /\ m_header (str st4)
         = mkHeaderMarker (length pre + 1) (length pre + length header) la true
      /\ title (str st4) = Some (trim t)
      /\ m_title (str st4) = length pre + length header + length gap + 1
      /\ slug (str st4) = None
      /\ m_slug (str st4) = 0.
Proof.
  intros Hpre Hne Hh Hgne Hg Ht re0 E.
  destruct (loop_skipped pre 0 (initial re0) (header ++ gap ++ t :: post) Hpre)
    as [st1 [E1 [S1 _]]].
  rewrite E1 in E. clear E1. cbn [Nat.add] in E.
  destruct header as [|h1 hs]; [congruence|].
  cbn in Hh. apply andb_prop in Hh as [Hh1 Hhs].
  unfold isText in Hh1. apply negb_true_iff in Hh1.
  cbn [app loop] in E.
  destruct (stepLine (S (length pre)) h1 st1) as [[e r]|st2] eqn:E2;
    [discriminate|].
  destruct (stepLine_opens (S (length pre)) h1 st1 st2)
    as [F1 [F2 [F3 [F4 F5]]]];
    [rewrite S1; reflexivity | exact Hh1 | exact E2 |].
  rewrite S1 in F2, F3, F4, F5. cbn in F2, F3, F4, F5.
  destruct (loop_header hs (S (length pre)) st2 (gap ++ t :: post) n st Hhs)
    as [st3 [E3 [G1 [G2 [G3 [G4 [G5 G6]]]]]]];
    try (rewrite F1; cbn; congruence); try assumption.
  rewrite F1 in G1. cbn in G1.
  destruct (loop_skipped gap (S (length pre) + length hs) st3 (t :: post) Hg)
    as [st3' [E3' [S3 _]]].
  rewrite E3' in E3. clear E3'. cbn [loop] in E3.
  unfold isText in Ht. apply negb_true_iff in Ht.
  destruct (stepLine _ t st3') as [[e r]|st4] eqn:E4; [discriminate|].
  assert (length gap <> 0) as Hlen by (destruct gap; cbn; congruence).
  destruct (stepLine_closes (S (S (length pre) + length hs + length gap))
              t st3' st4) as [H1 [H2 [H3 [H4 H5]]]];
    [rewrite S3, G1; lia | rewrite S3; exact G3 | rewrite S3, G2; lia
    | exact Ht | exact E4 |].
  exists st4, (lastAuthor (m_header (str st3'))).
  cbn [length].
  replace (length pre + S (length hs) + length gap + 1)
    with (S (S (length pre) + length hs + length gap)) by lia.
  split; [exact E3|].
  rewrite H1, H2, H3, H4, H5, S3, G1, G2, G5, G6, F4, F5.
  repeat split; try reflexivity. f_equal; lia.
Qed.

Lemma loop_closed ls :
  forall n st n' st',
    h_start (m_header (str st)) <> 0 ->
    h_closed (m_header (str st)) = true ->
    loop n ls st = inr (n', st') ->
    m_header (str st') = m_header (str st)
    /\ title (str st') = title (str st)
    /\ m_title (str st') = m_title (str st).
Proof.
  intros n st n' st' Hh Hc E.
  refine (proj2 (proj1 (loop_invariant
            (fun _ s => (h_start (m_header (str s)) <> 0
                         /\ h_closed (m_header (str s)) = true)
                        /\ m_header (str s) = m_header (str st)
                        /\ title (str s) = title (str st)
                        /\ m_title (str s) = m_title (str st))
            _ ls n st n' st' _ E))).
  - intros k line s s' [[H1 H2] [H3 [H4 H5]]] Es.
    destruct (stepLine_closed _ _ _ _ H1 H2 Es) as [F1 [F2 [F3 _]]].
    rewrite F1, F2, F3. repeat split; try assumption; congruence.
  - repeat split; assumption.
Qed.

(** Below the line under the title the slug is not set any more. *)
Lemma loop_slug ls :
  forall n st n' st',
    h_start (m_header (str st)) <> 0 ->
    h_closed (m_header (str st)) = true ->
    m_title (str st) + 1 <= n ->
    loop n ls st = inr (n', st') ->
    slug (str st') = slug (str st) /\ m_slug (str st') = m_slug (str st).
Proof.
  intros n st n' st' Hh Hc Hn E.
  refine (proj2 (proj1 (loop_invariant
            (fun k s => (h_start (m_header (str s)) <> 0
                         /\ h_closed (m_header (str s)) = true
                         /\ m_title (str s) + 1 <= k)
                        /\ slug (str s) = slug (str st)
                        /\ m_slug (str s) = m_slug (str st))
            _ ls n st n' st' _ E))).
  - intros k line s s' [[H1 [H2 H3]] [H4 H5]] Es.
    destruct (stepLine_closed _ _ _ _ H1 H2 Es) as [F1 [F2 [F3 F4]]].
    unfold isSlugLine in F4.
    assert ((S k =? m_title (str s) + 1) = false) as Ek
      by (apply Nat.eqb_neq; lia).
    rewrite Ek in F4.
    assert ((slug (str s'), m_slug (str s')) = (slug (str s), m_slug (str s)))
      as F by (rewrite F4; destruct (title (str s)), (isText line);
               rewrite ?andb_false_r; reflexivity).
    inversion F as [[F5 F6]].
    rewrite F1, F3, F5, F6. repeat split; try assumption; lia.
  - repeat split; try assumption; reflexivity.
Qed.

End HeaderAndTitle.

(** X7: in a parsed text whose lines are: lines that are blank or page
    breaks, then a run of lines with text, then one or more lines that are
    blank or page breaks, then a line with text, the header is that run
    (it starts at the first line with text and ends at the last line of the
    run), it is closed, and the title is the trimmed text of the line with
    text below the gap, with its line number; the lines further below do
    not change them. *)
Theorem title_is_first_text_line_below_header :
  forall ms rawText filename doc pre header gap t post,
    fst (Txt.parse ms rawText filename) = Txt.Parsed doc ->
    split LF rawText = pre ++ header ++ gap ++ t :: post ->
    forallb skipped pre = true ->
    header <> [] -> forallb isText header = true ->
    gap <> [] -> forallb skipped gap = true ->
    isText t = true ->
    let s := Txt.data_str (Txt.data doc) in
    Txt.h_start (Txt.m_header s) = length pre + 1
    /\ Txt.h_end (Txt.m_header s) = length pre + length header
    /\ Txt.h_closed (Txt.m_header s) = true
    /\ Txt.title s = Some (trim t)
    /\ Txt.m_title s = length pre + length header + length gap + 1.
Proof.
  intros ms rawText filename doc pre header gap t post H Hl Hpre Hne Hh Hgne
         Hg Ht.
  destruct (parse_parsed _ _ _ _ H) as [n [st [E ->]]].
  rewrite Hl in E.
  destruct (loop_title _ _ _ _ _ _ _ Hpre Hne Hh Hgne Hg Ht _ E)
    as [st4 [la [E4 [F1 [F2 [F3 _]]]]]].
  destruct (loop_closed _ _ _ _ _
              (ltac:(rewrite F1; cbn; lia)
                : Txt.h_start (Txt.m_header (Txt.str st4)) <> 0)
              (ltac:(rewrite F1; reflexivity)
                : Txt.h_closed (Txt.m_header (Txt.str st4)) = true) E4)
    as [G1 [G2 G3]].
  cbn. rewrite G1, G2, G3, F1, F2, F3. repeat split; reflexivity.
Qed.

Lemma title_is_first_text_line_below_header_witness :
  let s := Txt.data_str
             (Txt.data (parsedOrEmpty (Txt.parse Txt.fresh titleText "d.txt")))
  in
  Txt.h_start (Txt.m_header s) = 1 + 1
  /\ Txt.h_end (Txt.m_header s) = 1 + 2
  /\ Txt.h_closed (Txt.m_header s) = true
  /\ Txt.title s = Some (trim "                        A Sample Document   ")
  /\ Txt.m_title s = 1 + 2 + 2 + 1.
Proof.
  apply (title_is_first_text_line_below_header Txt.fresh titleText "d.txt"
           _ [""]
           ["Network Working Group                                    J. Doe";
            "Internet-Draft                                     Example Corp"]
           [""; String FF ""]
           "                        A Sample Document   "
           ["                      draft-doe-sample-00"; ""; "Abstract"]);
    try (vm_compute; reflexivity); discriminate.
Defined.

(** X8: with the lines as before, the slug is taken from the line directly
    below the title line and from no other: it is the trimmed text of that
    line when the line holds text, and it stays unset when that line is
    blank, is a page break, or does not exist. *)
Theorem slug_is_the_line_below_the_title :
  forall ms rawText filename doc pre header gap t post,
    fst (Txt.parse ms rawText filename) = Txt.Parsed doc ->
    split LF rawText = pre ++ header ++ gap ++ t :: post ->
    forallb skipped pre = true ->
    header <> [] -> forallb isText header = true ->
    gap <> [] -> forallb skipped gap = true ->
    isText t = true ->
    let s := Txt.data_str (Txt.data doc) in
    (Txt.slug s, Txt.m_slug s)
    = match post with
      | below :: _ =>
          if isText below
          then (Some (trim below),
                length pre + length header + length gap + 2)
          else (None, 0)
      | [] => (None, 0)
      end.
Proof.
  intros ms rawText filename doc pre header gap t post H Hl Hpre Hne Hh Hgne
         Hg Ht.
  destruct (parse_parsed _ _ _ _ H) as [n [st [E ->]]].
  rewrite Hl in E.
  destruct (loop_title _ _ _ _ _ _ _ Hpre Hne Hh Hgne Hg Ht _ E)
    as [st4 [la [E4 [F1 [F2 [F3 [F4 F5]]]]]]].
  assert (Txt.h_start (Txt.m_header (Txt.str st4)) <> 0) as Hs
    by (rewrite F1; cbn; lia).
  assert (Txt.h_closed (Txt.m_header (Txt.str st4)) = true) as Hc
    by (rewrite F1; reflexivity).
  cbn [Txt.data Txt.data_str Txt.slug Txt.m_slug Txt.set_markers].
  destruct post as [|below post].
  - cbn in E4. inversion E4; subst. now rewrite F4, F5.
  - cbn [Txt.loop] in E4.
    destruct (Txt.stepLine _ below st4) as [[e r]|st5] eqn:E5; [discriminate|].
    destruct (stepLine_closed _ _ _ _ Hs Hc E5) as [G1 [G2 [G3 G4]]].
    destruct (loop_slug post
                (S (length pre + length header + length gap + 1)) st5 n st)
      as [K1 K2];
      [rewrite G1; exact Hs | rewrite G1; exact Hc | rewrite G3, F3; lia
      | exact E4 |].
    rewrite K1, K2, G4. unfold Txt.isSlugLine. rewrite F2, F3.
    assert (Js.truthy (trim t) = true) as ->.
    { unfold isText, skipped in Ht. apply negb_true_iff in Ht.
      apply orb_false_elim in Ht as [_ Ht]. now apply negb_false_iff in Ht. }
    assert ((S (length pre + length header + length gap + 1)
             =? length pre + length header + length gap + 1 + 1) = true) as ->
      by (apply Nat.eqb_eq; lia).
    rewrite F4, F5. destruct (isText below); cbn [andb]; [|reflexivity].
    f_equal. lia.
Qed.

Lemma slug_is_the_line_below_the_title_witness :
  let s := Txt.data_str
             (Txt.data (parsedOrEmpty (Txt.parse Txt.fresh titleText "d.txt")))
  in
  (Txt.slug s, Txt.m_slug s) = (Some "draft-doe-sample-00", 7).
Proof.
  apply (slug_is_the_line_below_the_title Txt.fresh titleText "d.txt"
           _ [""]
           ["Network Working Group                                    J. Doe";
            "Internet-Draft                                     Example Corp"]
           [""; String FF ""]
           "                        A Sample Document   "
           ["                      draft-doe-sample-00"; ""; "Abstract"]);
    try (vm_compute; reflexivity); discriminate.
Defined.

(* ================================================================== *)
(** ** The reference validators                                        *)
(* ================================================================== *)

Section Modes.

Variable getStatusWeight : string -> option nat.
Variable fetchRemoteRfcInfo : string -> Lookup RfcInfo.
Variable checkReferencesInDownrefs : list string -> Lookup (list string).

Lemma obsoleteFindings_demote code msg i obsoleted :
  obsoleteFindings FORGIVE_CHECKLIST code msg i obsoleted
  = map demote (obsoleteFindings NORMAL code msg i obsoleted).
Proof. unfold obsoleteFindings. destruct (0 <? _); reflexivity. Qed.

Lemma normativeLoop_demote refs :
  forall result,
    normativeLoop getStatusWeight fetchRemoteRfcInfo FORGIVE_CHECKLIST refs
                  (map demote result)
    = mapRes (map demote)
        (normativeLoop getStatusWeight fetchRemoteRfcInfo NORMAL refs result).
Proof.
  induction refs as [|r tl IH]; intros result; cbn; [reflexivity|].
  destruct (fetchRemoteRfcInfo r) as [v|]; cbn; [|reflexivity].
  destruct (definedStatus v) as [[i s]|].
  - destruct (obsoleted_by i) as [o|]; [|reflexivity].
    rewrite <- IH. f_equal.
    rewrite map_app, obsoleteFindings_demote. f_equal.
    destruct (getStatusWeight s); [reflexivity|].
    now rewrite map_app.
  - rewrite <- IH. f_equal. now rewrite map_app.
Qed.

Lemma unclassifiedLoop_demote refs :
  forall result,
    unclassifiedLoop fetchRemoteRfcInfo FORGIVE_CHECKLIST refs
                     (map demote result)
    = mapRes (map demote)
        (unclassifiedLoop fetchRemoteRfcInfo NORMAL refs result).
Proof.
  induction refs as [|r tl IH]; intros result; cbn; [reflexivity|].
  destruct (fetchRemoteRfcInfo r) as [v|]; cbn; [|reflexivity].
  destruct (definedStatus v) as [[i s]|].
  - destruct (obsoleted_by i) as [o|]; [|reflexivity].
    rewrite <- IH. f_equal.
    now rewrite map_app, obsoleteFindings_demote.
  - rewrite <- IH. f_equal. now rewrite map_app.
Qed.

Lemma informativeLoop_demote refs :
  forall result,
    informativeLoop fetchRemoteRfcInfo FORGIVE_CHECKLIST refs
                    (map demote result)
    = mapRes (map demote)
        (informativeLoop fetchRemoteRfcInfo NORMAL refs result).
Proof.
  induction refs as [|r tl IH]; intros result; cbn; [reflexivity|].
  destruct (fetchRemoteRfcInfo r) as [v|]; cbn; [|reflexivity].
  destruct (definedStatus v) as [[i s]|].
  - destruct (obsoleted_by i) as [o|]; [|reflexivity].
    rewrite <- IH. f_equal.
    now rewrite map_app, obsoleteFindings_demote.
  - rewrite <- IH. f_equal. now rewrite map_app.
Qed.

Lemma downrefFindings_demote ms :
  downrefFindings FORGIVE_CHECKLIST ms = map demote (downrefFindings NORMAL ms).
Proof.
  unfold downrefFindings. induction ms as [|m tl IH]; cbn in *;
    [reflexivity | now rewrite IH].
Qed.

Lemma mapRes_bind {A B C} (g : B -> C) (x : Res A) (f : A -> Res B) :
  mapRes g (bind x f) = bind x (fun a => mapRes g (f a)).
Proof. destruct x; reflexivity. Qed.

Lemma bind_ext {A B} (x : Res A) (f g : A -> Res B) :
  (forall a, f a = g a) -> bind x f = bind x g.
Proof. intros H. destruct x; cbn; [apply H | reflexivity]. Qed.

End Modes.

(** X9: the mode FORGIVE_CHECKLIST changes nothing but severities: each of
    validateDownrefs, validateNormativeReferences,
    validateUnclassifiedReferences and validateInformativeReferences looks
    up the same references as in mode NORMAL, throws exactly when it throws
    there, and returns the findings of mode NORMAL in the same order with
    every Error turned into a Warning. *)
Theorem forgiving_mode_only_demotes_errors :
  forall getStatusWeight fetchRemoteRfcInfo checkReferencesInDownrefs doc,
    validateDownrefs checkReferencesInDownrefs doc FORGIVE_CHECKLIST
    = mapRes (map demote)
        (validateDownrefs checkReferencesInDownrefs doc NORMAL)
    /\ validateNormativeReferences getStatusWeight fetchRemoteRfcInfo doc
         FORGIVE_CHECKLIST
       = mapRes (map demote)
           (validateNormativeReferences getStatusWeight fetchRemoteRfcInfo doc
              NORMAL)
    /\ validateUnclassifiedReferences fetchRemoteRfcInfo doc FORGIVE_CHECKLIST
       = mapRes (map demote)
           (validateUnclassifiedReferences fetchRemoteRfcInfo doc NORMAL)
    /\ validateInformativeReferences fetchRemoteRfcInfo doc FORGIVE_CHECKLIST
       = mapRes (map demote)
           (validateInformativeReferences fetchRemoteRfcInfo doc NORMAL).
Proof.
  intros gw fetch check doc. repeat split.
  - unfold validateDownrefs. destruct doc as [t|x].
    + rewrite mapRes_bind. apply bind_ext. intros ms. cbn.
      now rewrite downrefFindings_demote.
    + rewrite mapRes_bind. apply bind_ext. intros refs.
      rewrite mapRes_bind. apply bind_ext. intros ms. cbn.
      now rewrite downrefFindings_demote.
  - unfold validateNormativeReferences. rewrite mapRes_bind.
    apply bind_ext. intros refs.
    exact (normativeLoop_demote gw fetch refs []).
  - unfold validateUnclassifiedReferences. rewrite mapRes_bind.
    apply bind_ext. intros refs.
    exact (unclassifiedLoop_demote fetch refs []).
  - unfold validateInformativeReferences. rewrite mapRes_bind.
    apply bind_ext. intros refs.
    exact (informativeLoop_demote fetch refs []).
Qed.

Section Drafts.

Variable fetchRemoteDocInfoJson : string -> Lookup DraftInfo.
Hypothesis resolves : forall d, exists v, fetchRemoteDocInfoJson d = Resolved v.

Lemma draftLoop_warns drafts :
  forall result,
    exists added,
      draftLoop fetchRemoteDocInfoJson drafts result = Ok (result ++ added)
      /\ forallb isWarning added = true
      /\ length added <= length drafts.
Proof.
  induction drafts as [|dr tl IH]; intros result; cbn [draftLoop].
  - exists []. rewrite app_nil_r. split; [|split]; [reflexivity.. | cbn; lia].
  - destruct (resolves dr) as [v ->]. cbn [await bind].
    match goal with
    | |- context [match ?x with Some s => _ | None => _ end] =>
        destruct x as [s|]
    end.
    + destruct (String.eqb (toLowerCase s) "rfc").
      * match goal with
        | |- context [draftLoop _ tl (result ++ [?f])] =>
            destruct (IH (result ++ [f])) as [added [E [Hw Hl]]];
              exists (f :: added)
        end.
        rewrite E, <- app_assoc.
        split; [|split]; [reflexivity | exact Hw | cbn; lia].
      * destruct (IH result) as [added [E [Hw Hl]]]. exists added.
        split; [|split]; [exact E | exact Hw | cbn; lia].
    + match goal with
      | |- context [draftLoop _ tl (result ++ [?f])] =>
          destruct (IH (result ++ [f])) as [added [E [Hw Hl]]];
            exists (f :: added)
      end.
      rewrite E, <- app_assoc.
      split; [|split]; [reflexivity | exact Hw | cbn; lia].
Qed.

End Drafts.

(** X10: on a text document, when every lookup of a draft resolves (to
    whatever value, null included), vlidateDraftReferences returns and
    does not throw, in every mode and without one; what it returns holds
    Warnings only, and at most one finding for each draft reference of the
    references section. *)
Theorem draft_validator_returns_warnings_only :
  forall fetchRemoteDocInfoJson doc mode,
    (forall d, exists v, fetchRemoteDocInfoJson d = Resolved v) ->
    exists findings,
      vlidateDraftReferences fetchRemoteDocInfoJson (TxtDoc doc) mode
      = Ok findings
      /\ forallb isWarning findings = true
      /\ length findings
         <= length (Txt.referenceSectionDraftReferences (lexOf doc)).
Proof.
  intros fetch doc mode Hres. unfold vlidateDraftReferences.
  assert (exists findings,
             draftLoop fetch
               (normalizeDraftReferences
                  (map Txt.value
                       (Txt.referenceSectionDraftReferences (lexOf doc)))) []
             = Ok findings
             /\ forallb isWarning findings = true
             /\ length findings
                <= length (Txt.referenceSectionDraftReferences (lexOf doc)))
    as Hloop.
  { destruct (draftLoop_warns fetch Hres
                (normalizeDraftReferences
                   (map Txt.value
                        (Txt.referenceSectionDraftReferences (lexOf doc)))) [])
      as [added [E [Hw Hl]]].
    exists added. split; [|split]; [exact E | exact Hw |].
    etransitivity; [exact Hl|]. unfold normalizeDraftReferences.
    etransitivity; [apply filter_length_le|]. now rewrite !length_map. }
  destruct mode as [[]|]; try exact Hloop.
  exists []. split; [|split]; [reflexivity.. | cbn; lia].
Qed.

Lemma draft_validator_returns_warnings_only_witness :
  exists findings,
    vlidateDraftReferences draftStates (TxtDoc draftsDoc) (Some NORMAL)
    = Ok findings
    /\ forallb isWarning findings = true
    /\ length findings
       <= length (Txt.referenceSectionDraftReferences (lexOf draftsDoc)).
Proof.
  apply (draft_validator_returns_warnings_only draftStates draftsDoc
           (Some NORMAL)).
  intros d. unfold draftStates.
  destruct (String.eqb d "draft-ietf-quic-qpack"); eexists; reflexivity.
Defined.

Section Anchors.

Lemma greedy_total (p : ascii -> bool) cs :
  forall l pv,
    Forall (fun c => p c = true) l ->
    exists pv', greedy p Some pv l cs = Some (MState pv' [] cs).
Proof.
  induction l as [|c tl IH]; intros pv Hl; cbn.
  - now exists pv.
  - inversion Hl as [|? ? Hc Htl]; subst. rewrite Hc.
    destruct (IH (Some c) Htl) as [pv' ->]. now exists pv'.
Qed.

Lemma search_reach_suffix r :
  forall tl pv idx x,
    search r pv tl idx = Some x ->
    exists pre pv' tl' fin,
      tl = pre ++ tl' /\ Reach r (MState pv' tl' []) fin.
Proof.
  induction tl as [|c tl IH]; intros pv idx x H;
    rewrite search_unfold in H;
    destruct (m r _ Some) as [fin|] eqn:E; try discriminate.
  - apply m_sound in E. destruct E as [st' [Hr Hk]]. inversion Hk; subst st'.
    exists [], pv, [], fin. now split.
  - apply m_sound in E. destruct E as [st' [Hr Hk]]. inversion Hk; subst st'.
    exists [], pv, (c :: tl), fin. now split.
  - destruct (IH _ _ _ H) as [pre [pv' [tl' [fin [E1 HR]]]]].
    exists (c :: pre), pv', tl', fin. split; [cbn; congruence | exact HR].
Qed.

(** A text without a digit has no match of DIGITS_RE. *)
Lemma no_digit_no_match (s : string) :
  existsb is_digit (list_ascii_of_string s) = false ->
  exec DIGITS_RE s = None.
Proof.
  intros H. unfold exec, search_from.
  assert ((length (list_ascii_of_string s) <? 0) = false) as ->
    by reflexivity.
  cbn [skipn].
  destruct (search DIGITS_RE None (list_ascii_of_string s) 0) as [x|] eqn:E;
    [|reflexivity].
  exfalso. destruct (search_reach_suffix _ _ _ _ _ E)
    as [pre [pv' [tl' [fin [E1 HR]]]]].
  unfold DIGITS_RE in HR.
  destruct (Reach_plus_chr _ _ _ HR) as [l [El [Hl [Hne _]]]].
  cbn [rest] in El. rewrite E1, El in H.
  destruct l as [|c l]; [congruence|].
  inversion Hl as [|? ? Hc _]; subst.
  rewrite existsb_app in H. apply orb_false_elim in H as [_ H].
  cbn in H. rewrite Hc in H. discriminate.
Qed.

Lemma letter_is_no_digit (x a : ascii) :
  is_alpha x = true -> eq_ci x a = true -> is_digit a = false.
Proof.
  destruct x as [[] [] [] [] [] [] [] []]; intros Hx; try discriminate Hx;
    clear Hx;
    destruct a as [[] [] [] [] [] [] [] []]; intros H;
    try reflexivity; discriminate H.
Qed.

(** The text of an anchor that /^RFC\d+$/i accepts. *)
Lemma anchor_shape (s : string) :
  test RFC_ANCHOR_RE s = true ->
  exists a b c n,
    list_ascii_of_string s = a :: b :: c :: n
    /\ is_digit a = false /\ is_digit b = false /\ is_digit c = false
    /\ n <> [] /\ Forall (fun c => is_digit c = true) n.
Proof.
  unfold test, RFC_ANCHOR_RE, cats. rewrite exec_bol.
  destruct (m _ _ Some) as [fin|] eqn:E; [|discriminate]. intros _.
  apply m_sound in E. destruct E as [st' [HR _]].
  cbn [liti] in HR. unfold chi in HR.
  inv_reach.
  match goal with
  | H : Reach (Plus (Chr _)) _ _ |- _ =>
      destruct (Reach_plus_chr _ _ _ H) as [l [El [Hl [Hne _]]]]
  end.
  cbn [rest] in *.
  match goal with
  | H : rest ?b = [] |- _ => rewrite H, app_nil_r in El
  end.
  subst.
  do 4 eexists.
  split; [first [reflexivity | eassumption | symmetry; eassumption]|].
  repeat split; try assumption;
    eapply letter_is_no_digit; try eassumption; reflexivity.
Qed.

Lemma firstDigits_anchor (s : string) a b c n :
  list_ascii_of_string s = a :: b :: c :: n ->
  is_digit a = false -> is_digit b = false -> is_digit c = false ->
  n <> [] -> Forall (fun c => is_digit c = true) n ->
  firstDigits s = Ok (string_of_list_ascii n).
Proof.
  intros Es Ha Hb Hc Hne Hn. unfold firstDigits, exec, search_from.
  rewrite Es.
  assert ((length (a :: b :: c :: n) <? 0) = false) as -> by reflexivity.
  cbn [skipn]. unfold DIGITS_RE, Plus.
  rewrite search_unfold, m_cat, m_chr, Ha.
  rewrite search_unfold, m_cat, m_chr, Hb.
  rewrite search_unfold, m_cat, m_chr, Hc.
  destruct n as [|d ds]; [congruence|].
  inversion Hn as [|? ? Hd Hds]; subst.
  rewrite search_unfold, m_cat, m_chr, Hd, m_star_chr. cbn [prev rest caps].
  destruct (greedy_total is_digit [] ds (Some d) Hds) as [pv' ->].
  cbv zeta. cbn [rest]. rewrite Nat.sub_0_r, firstn_all. reflexivity.
Qed.

Lemma forEach_app {A S} (body : S -> A -> Res S) (xs ys : list A) (acc : S) :
  forEach body (xs ++ ys) acc
  = bind (forEach body xs acc) (forEach body ys).
Proof.
  revert acc. induction xs as [|x xs IH]; intros acc; cbn; [reflexivity|].
  destruct (body acc x); cbn; [apply IH | reflexivity].
Qed.

(** One turn of the loop of normalizeXmlReferences on an attribute
    value. *)
Lemma normalize_step (acc : list string) (ref : JsVal) :
  isAttributeValue ref = true ->
  (if test RFC_ANCHOR_RE (toString ref)
   then match ref with
        | JStr s => bind (firstDigits s)
                         (fun n => Ok (acc ++ [("RFC " ++ n)%string]))
        | _ => Throw TypeError
        end
   else if test DRAFT_RE (toString ref)
        then match ref with
             | JStr s => Ok (acc ++ [stripDraft (trim s)])
             | _ => Throw TypeError
             end
        else Ok acc)
  = Ok (acc ++ normalizedAnchor ref).
Proof.
  destruct ref as [| |[]| |s| |]; try discriminate; intros _.
  - vm_compute (test _ _). vm_compute (normalizedAnchor _).
    now rewrite app_nil_r.
  - vm_compute (test _ _). vm_compute (normalizedAnchor _).
    now rewrite app_nil_r.
  - cbn [toString normalizedAnchor].
    destruct (test RFC_ANCHOR_RE s) eqn:E.
    + destruct (anchor_shape s E) as [a [b [c [n [Es [Ha [Hb [Hc [Hne Hn]]]]]]]]].
      rewrite (firstDigits_anchor s a b c n Es Ha Hb Hc Hne Hn), Es.
      reflexivity.
    + destruct (test DRAFT_RE s); [reflexivity | now rewrite app_nil_r].
Qed.

Lemma normalize_from (refs : list JsVal) :
  forall acc,
    forallb isAttributeValue refs = true ->
    forEach (fun normalizedReferences ref =>
      if test RFC_ANCHOR_RE (toString ref) then
        match ref with
        | JStr s =>
            bind (firstDigits s)
                 (fun rfcNumber =>
                    Ok (normalizedReferences ++ [("RFC " ++ rfcNumber)%string]))
        | _ => Throw TypeError
        end
      else if test DRAFT_RE (toString ref) then
        match ref with
        | JStr s => Ok (normalizedReferences ++ [stripDraft (trim s)])
        | _ => Throw TypeError
        end
      else Ok normalizedReferences) refs acc
    = Ok (acc ++ flat_map normalizedAnchor refs).
Proof.
  induction refs as [|ref tl IH]; intros acc H; cbn [forEach flat_map].
  - now rewrite app_nil_r.
  - cbn in H. apply andb_prop in H as [Hr Ht].
    rewrite (normalize_step acc ref Hr). cbn [bind].
    rewrite (IH _ Ht), app_assoc. reflexivity.
Qed.

Lemma forEach_throws {A S} (body : S -> A -> Res S) (e : Exn) x :
  (forall acc, body acc x = Throw e) ->
  (forall acc y e', body acc y = Throw e' -> e' = e) ->
  forall xs acc, In x xs -> forEach body xs acc = Throw e.
Proof.
  intros Hx Hall. induction xs as [|y ys IH]; intros acc Hin; [contradiction|].
  cbn. destruct Hin as [->|Hin].
  - now rewrite Hx.
  - destruct (body acc y) as [acc'|e'] eqn:E; cbn.
    + now apply IH.
    + now rewrite (Hall _ _ _ E).
Qed.

End Anchors.

(** X11: on a list of attribute values as the XML parser gives them
    (strings, and booleans for attributes without a value)
    normalizeXmlReferences does not throw; its result is, in the order of
    the list, RFC, a blank and the digits for each string that is the
    letters RFC (in either case) followed by digits only, the trimmed string
    without brackets at its ends and without a version suffix for each other
    string that holds the letters draft, and nothing for the rest. *)
Theorem normalizeXmlReferences_on_attribute_values :
  forall refs,
    forallb isAttributeValue refs = true ->
    normalizeXmlReferences refs = Ok (flat_map normalizedAnchor refs).
Proof.
  intros refs H. unfold normalizeXmlReferences.
  exact (normalize_from refs [] H).
Qed.

Lemma normalizeXmlReferences_on_attribute_values_witness :
  normalizeXmlReferences
    [JStr "rfc8446"; JBool true; JStr " [draft-ietf-tls-esni-17] "; JStr "X"]
  = Ok ["RFC 8446"; "draft-ietf-tls-esni"].
Proof.
  rewrite (normalizeXmlReferences_on_attribute_values
             [JStr "rfc8446"; JBool true; JStr " [draft-ietf-tls-esni-17] ";
              JStr "X"]);
    vm_compute; reflexivity.
Defined.

(** X12: validateNormativeReferences throws a TypeError on an XML document
    that has, among its normalised references, one that begins with the
    letters RFC and holds no digit (an anchor such as RFC-draft): the match
    of the digits is null and its first element is read.  This happens in
    every mode but SUBMISSION and before any lookup. *)
Theorem normative_xml_reference_without_digits_throws :
  forall getStatusWeight fetchRemoteRfcInfo doc mode refs r,
    mode <> SUBMISSION ->
    xmlReferences doc = Ok refs ->
    In r refs ->
    startsWith "RFC" r = true ->
    existsb is_digit (list_ascii_of_string r) = false ->
    validateNormativeReferences getStatusWeight fetchRemoteRfcInfo
                                (XmlDoc doc) mode
    = Throw TypeError.
Proof.
  intros gw fetch doc mode refs r Hm Hx Hin Hs Hd.
  assert (normativeReferences (XmlDoc doc) = Throw TypeError) as E.
  { unfold normativeReferences. rewrite Hx. cbn [bind].
    apply (forEach_throws _ TypeError r).
    - intros acc. unfold firstDigits. now rewrite (no_digit_no_match r Hd).
    - intros acc y e'. unfold firstDigits.
      destruct (exec DIGITS_RE y); cbn; [discriminate | congruence].
    - apply filter_In. now split. }
  unfold validateNormativeReferences. rewrite E.
  destruct mode; [reflexivity | reflexivity | congruence].
Qed.

Lemma normative_xml_reference_without_digits_throws_witness :
  validateNormativeReferences (fun _ => None) (fun _ => Resolved None)
                              (XmlDoc (xmlWithAnchor "RFC-draft")) NORMAL
  = Throw TypeError.
Proof.
  apply (normative_xml_reference_without_digits_throws
           (fun _ => None) (fun _ => Resolved None)
           (xmlWithAnchor "RFC-draft") NORMAL ["RFC-draft"] "RFC-draft");
    [discriminate | vm_compute; reflexivity | now left
    | vm_compute; reflexivity | vm_compute; reflexivity].
Defined.

Section DefinedReferences.

Lemma extract_from (sections : list JsVal) :
  forall acc,
    forallb hasNoReferenceArray sections = true ->
    forEach (fun definedReferences section =>
        bind (path ["reference"] section) (fun reference =>
        match reference with
        | JArr refs =>
            forEach (fun defined ref =>
              bind (path ["_attr"] ref) (fun attr =>
              if JsValue.truthy attr then
                bind (path ["anchor"] attr) (fun anchor =>
                Ok (if JsValue.truthy anchor then defined ++ [anchor]
                    else defined))
              else Ok defined)) refs definedReferences
        | _ => Ok definedReferences
        end)) sections acc
    = Ok acc.
Proof.
  induction sections as [|s tl IH]; intros acc H; cbn [forEach];
    [reflexivity|].
  cbn in H. apply andb_prop in H as [Hs Ht].
  assert (exists v, path ["reference"] s = Ok v
                    /\ match v with JArr _ => False | _ => True end)
    as [v [-> Hv]].
  { destruct s; try discriminate Hs; cbn; try (eexists; split; [reflexivity|exact I]).
    cbn in Hs. destruct (JsValue.lookup "reference" props);
      try discriminate Hs; eexists; split; try reflexivity; exact I. }
  cbn [bind]. destruct v; try contradiction; cbn [bind]; now apply IH.
Qed.

End DefinedReferences.

(** X13: extractDefinedReferences takes anchors from a references section
    only when its reference property is an array: sections with a single
    reference object, or with none, add nothing, so that for a list of such
    sections the result is empty. *)
Theorem sections_without_reference_array_give_no_anchor :
  forall sections,
    forallb hasNoReferenceArray sections = true ->
    extractDefinedReferences (JArr sections) = Ok [].
Proof.
  intros sections H. unfold extractDefinedReferences.
  exact (extract_from sections [] H).
Qed.

Lemma sections_without_reference_array_give_no_anchor_witness :
  extractDefinedReferences
    (JArr [JObj [("reference",
                  JObj [("_attr", JObj [("anchor", JStr "RFC2119")])])];
           JObj [("name", JStr "Informative References")]])
  = Ok [].
Proof.
  apply (sections_without_reference_array_give_no_anchor
           [JObj [("reference",
                   JObj [("_attr", JObj [("anchor", JStr "RFC2119")])])];
            JObj [("name", JStr "Informative References")]]).
  vm_compute. reflexivity.
Defined.

(** X14: when the back matter of an XML document holds its references
    sections as one object and not as an array (what the XML parser gives
    for a single references element), reading the references throws a
    TypeError: validateDownrefs, validateNormativeReferences and
    vlidateDraftReferences throw it in mode NORMAL and FORGIVE_CHECKLIST,
    before any remote helper is called. *)
Theorem single_references_section_throws :
  forall getStatusWeight fetchRemoteRfcInfo fetchRemoteDocInfoJson
         checkReferencesInDownrefs doc props mode,
    mode <> SUBMISSION ->
    path ["rfc"; "back"; "references"; "references"] (Xml.data doc)
    = Ok (JObj props) ->
    validateDownrefs checkReferencesInDownrefs (XmlDoc doc) mode
    = Throw TypeError
    /\ validateNormativeReferences getStatusWeight fetchRemoteRfcInfo
         (XmlDoc doc) mode
       = Throw TypeError
    /\ vlidateDraftReferences fetchRemoteDocInfoJson (XmlDoc doc) (Some mode)
       = Throw TypeError.
Proof.
  intros gw fetch fetchDraft check doc props mode Hm Hp.
  assert (xmlReferences doc = Throw TypeError) as E
    by (unfold xmlReferences; rewrite Hp; reflexivity).
  unfold validateDownrefs, validateNormativeReferences, normativeReferences,
    vlidateDraftReferences.
  rewrite E. destruct mode; try congruence; repeat split; reflexivity.
Qed.

Lemma single_references_section_throws_witness :
  validateDownrefs (fun _ => Resolved (Some [])) (XmlDoc xmlOneSection) NORMAL
  = Throw TypeError
  /\ validateNormativeReferences (fun _ => None) (fun _ => Resolved None)
       (XmlDoc xmlOneSection) NORMAL
     = Throw TypeError
  /\ vlidateDraftReferences (fun _ => Resolved None) (XmlDoc xmlOneSection)
       (Some NORMAL)
     = Throw TypeError.
Proof.
  eapply (single_references_section_throws
            (fun _ => None) (fun _ => Resolved None) (fun _ => Resolved None)
            (fun _ => Resolved (Some [])) xmlOneSection _ NORMAL);
    [discriminate | vm_compute; reflexivity].
Defined.

(** X15: validateUnclassifiedReferences and validateInformativeReferences
    read the list of the text parser, data.extractedElements, whatever the
    type of the document: on an XML document, whose tree has no such
    property, both throw a TypeError in the modes NORMAL and
    FORGIVE_CHECKLIST, before any lookup. *)
Theorem xml_document_has_no_extracted_elements :
  forall fetchRemoteRfcInfo doc mode,
    mode <> SUBMISSION ->
    JsValue.prop "extractedElements" (Xml.data doc) = Some JUndefined ->
    validateUnclassifiedReferences fetchRemoteRfcInfo (XmlDoc doc) mode
    = Throw TypeError
    /\ validateInformativeReferences fetchRemoteRfcInfo (XmlDoc doc) mode
       = Throw TypeError.
Proof.
  intros fetch doc mode Hm Hp.
  assert (forall n, referencesOf n (XmlDoc doc) = Throw TypeError) as E.
  { intros n. unfold referencesOf. cbn [path]. rewrite Hp. reflexivity. }
  unfold validateUnclassifiedReferences, validateInformativeReferences.
  rewrite !E. destruct mode; try congruence; split; reflexivity.
Qed.

Lemma xml_document_has_no_extracted_elements_witness :
  validateUnclassifiedReferences (fun _ => Resolved None)
                                 (XmlDoc (xmlWithAnchor "RFC2119")) NORMAL
  = Throw TypeError
  /\ validateInformativeReferences (fun _ => Resolved None)
                                   (XmlDoc (xmlWithAnchor "RFC2119")) NORMAL
     = Throw TypeError.
Proof.
  apply (xml_document_has_no_extracted_elements
           (fun _ => Resolved None) (xmlWithAnchor "RFC2119") NORMAL);
    [discriminate | vm_compute; reflexivity].
Defined.

(* ================================================================== *)
(** ** The XML adapter                                                 *)
(* ================================================================== *)

Section Inversions.

Lemma Reach_cat_inv r1 r2 a c :
  Reach (Cat r1 r2) a c -> exists b, Reach r1 a b /\ Reach r2 b c.
Proof. intros H; inversion H; subst; eauto. Qed.

Lemma Reach_alt_inv r1 r2 a b :
  Reach (Alt r1 r2) a b -> Reach r1 a b \/ Reach r2 a b.
Proof. intros H; inversion H; subst; auto. Qed.

Lemma Reach_group_inv n r a b' :
  Reach (Group n r) a b' ->
  exists b,
    Reach r a b
    /\ b' = MState (prev b) (rest b)
              (set_cap n (firstn (length (rest a) - length (rest b)) (rest a))
                       (caps b)).
Proof. intros H; inversion H; subst; eauto. Qed.

Lemma Reach_ch_inv c a b :
  Reach (ch c) a b -> rest a = c :: rest b /\ caps b = caps a.
Proof.
  unfold ch. intros H; inversion H; subst. cbn.
  match goal with
  | H : Ascii.eqb _ _ = true |- _ => apply Ascii.eqb_eq in H; subst
  end.
  now split.
Qed.

Lemma Reach_lit s :
  forall a b,
    Reach (lit s) a b ->
    rest a = list_ascii_of_string s ++ rest b /\ caps b = caps a.
Proof.
  induction s as [|c s IH]; intros a b H; cbn [lit] in H.
  - inversion H; subst. now split.
  - destruct s as [|c' s'].
    + apply Reach_ch_inv in H. exact H.
    + apply Reach_cat_inv in H as [b1 [H1 H2]].
      apply Reach_ch_inv in H1 as [E1 C1].
      apply IH in H2 as [E2 C2].
      split; [|congruence].
      rewrite E1, E2. reflexivity.
Qed.

Lemma forallb_of_Forall {A} (p : A -> bool) (l : list A) :
  Forall (fun c => p c = true) l -> forallb p l = true.
Proof. intros H. apply forallb_forall. now apply Forall_forall. Qed.

Lemma blank_run (l : list ascii) :
  Forall (fun c => is_space c = true) l -> l <> [] -> isBlankRun l = true.
Proof.
  intros Hl Hne. destruct l; [congruence|].
  now apply forallb_of_Forall in Hl.
Qed.

End Inversions.

Section Entities.

(** What a match of externalEntityRgx holds. *)
Lemma entity_match pv tl fin x :
  Reach Xml.externalEntityRgx (MState pv tl []) fin ->
  groups x = caps fin ->
  matched x
  = string_of_list_ascii (firstn (length tl - length (rest fin)) tl) ->
  entityReassembles (Xml.entityOf x).
Proof.
  unfold Xml.externalEntityRgx, cats. intros H Hg Hm.
  apply Reach_cat_inv in H as [s1 [H1 H]].
  apply Reach_lit in H1 as [E1 C1].
  apply Reach_cat_inv in H as [s2 [H2 H]].
  apply Reach_plus_chr in H2 as [w1 [E2 [W1 [N1 C2]]]].
  apply Reach_cat_inv in H as [s3 [H3 H]].
  apply Reach_group_inv in H3 as [s3' [H3 ->]].
  apply Reach_plus_chr in H3 as [nm [E3 [Hnm [Nnm C3]]]].
  apply Reach_cat_inv in H as [s4 [H4 H]].
  apply Reach_plus_chr in H4 as [w2 [E4 [W2 [N2 C4]]]].
  apply Reach_cat_inv in H as [s5 [H5 H]].
  apply Reach_group_inv in H5 as [s5' [H5 ->]].
  assert (exists ty, rest s4 = list_ascii_of_string ty ++ rest s5'
                     /\ caps s5' = caps s4
                     /\ (ty = "SYSTEM" \/ ty = "PUBLIC")) as [ty [E5 [C5 Hty]]].
  { apply Reach_alt_inv in H5 as [H5|H5].
    - apply (Reach_lit "SYSTEM") in H5 as [E C].
      exists "SYSTEM". split; [exact E|]. split; auto.
    - apply (Reach_lit "PUBLIC") in H5 as [E C].
      exists "PUBLIC". split; [exact E|]. split; auto. }
  apply Reach_cat_inv in H as [s6 [H6 H]].
  apply Reach_plus_chr in H6 as [w3 [E6 [W3 [N3 C6]]]].
  apply Reach_cat_inv in H as [s7 [H7 H]].
  apply Reach_ch_inv in H7 as [E7 C7].
  apply Reach_cat_inv in H as [s8 [H8 H]].
  apply Reach_group_inv in H8 as [s8' [H8 ->]].
  apply Reach_star_chr in H8 as [u [E8 [Hu C8]]].
  apply Reach_cat_inv in H as [s9 [H9 H]].
  apply Reach_ch_inv in H9 as [E9 C9].
  apply Reach_ch_inv in H as [E10 C10].
  cbn [rest caps prev] in *.
  assert (tl = (list_ascii_of_string "<!ENTITY" ++ w1 ++ nm ++ w2
                ++ list_ascii_of_string ty ++ w3
                ++ Xml.dquote :: u ++ [Xml.dquote; ">"%char]) ++ rest fin)
    as Etl.
  { rewrite E1, E2, E3, E4, E5, E6, E7, E8, E9, E10.
    repeat (rewrite <- ?app_assoc; cbn [app]). reflexivity. }
  rewrite E3, firstn_read in C4.
  rewrite E5, firstn_read in C6.
  rewrite E8, firstn_read in C9.
  assert (caps fin = set_cap 3 u (set_cap 2 (list_ascii_of_string ty)
                                    (set_cap 1 nm []))) as Ecaps.
  { rewrite C10, C9, C8, C7, C6, C5, C4, C3, C2, C1. reflexivity. }
  unfold entityReassembles, Xml.entityOf, group.
  rewrite Hg, Ecaps, Hm, Etl, firstn_read. cbn [set_cap get_cap filter fst
    negb Nat.eqb option_map Xml.original Xml.name Xml.type Xml.url].
  rewrite !list_ascii_of_string_of_list_ascii.
  exists w1, w2, w3.
  split; [now apply blank_run|]. split; [now apply blank_run|].
  split; [now apply blank_run|]. split; [reflexivity|].
  split; [destruct nm; [congruence | reflexivity]|].
  split; [now apply forallb_of_Forall|].
  split; [rewrite string_of_list_ascii_of_string; exact Hty|].
  now apply forallb_of_Forall.
Qed.

End Entities.

(** X16: every external entity that the XML adapter records gives back its
    declaration from its parts: the original text is the keyword, white
    space, the name (one or more letters, digits, hyphens, dots or
    underscores), white space, the type, which is SYSTEM or PUBLIC, white
    space, and the url between double quotes followed by the closing
    bracket; the url holds no line break. *)
Theorem recorded_entity_reassembles :
  forall rawText e,
    In e (Xml.externalEntitiesOf rawText) -> entityReassembles e.
Proof.
  intros rawText e H. unfold Xml.externalEntitiesOf in H.
  apply in_map_iff in H as [x [<- Hx]].
  pose proof (matches_from_reach Xml.externalEntityRgx rawText
                (S (String.length rawText)) 0) as Hall.
  rewrite Forall_forall in Hall.
  destruct (Hall x Hx) as [pv [tl [fin [HR [Hg Hm]]]]].
  eapply entity_match; eassumption.
Qed.

Lemma recorded_entity_reassembles_witness :
  entityReassembles
    (Xml.mkExternalEntity
       ("<!ENTITY  rfc2119 SYSTEM " ++ dq ++ "https://example.org/rfc2119.xml"
        ++ dq ++ ">")
       "rfc2119" "SYSTEM" "https://example.org/rfc2119.xml").
Proof.
  apply (recorded_entity_reassembles entityText).
  vm_compute. left. reflexivity.
Defined.

Section NoEntity.

Lemma startsWithList_app (p l : list ascii) : startsWithList p (p ++ l) = true.
Proof.
  induction p as [|c p IH]; cbn; [reflexivity|].
  now rewrite Ascii.eqb_refl, IH.
Qed.

Lemma occurs_app (p pre l : list ascii) : occurs p (pre ++ p ++ l) = true.
Proof.
  induction pre as [|c pre IH].
  - cbn [app]. destruct (p ++ l) eqn:E; cbn [occurs]; rewrite <- E;
      now rewrite startsWithList_app.
  - cbn [app occurs]. rewrite IH. apply orb_true_r.
Qed.

Lemma no_keyword_no_entity (s : string) :
  occurs (list_ascii_of_string "<!ENTITY") (list_ascii_of_string s) = false ->
  matchAll Xml.externalEntityRgx s = [].
Proof.
  intros H. unfold matchAll. cbn [matches_from]. unfold search_from.
  assert ((length (list_ascii_of_string s) <? 0) = false) as ->
    by reflexivity.
  cbn [skipn].
  destruct (search _ None (list_ascii_of_string s) 0) as [x|] eqn:E;
    [|reflexivity].
  exfalso. destruct (search_reach_suffix _ _ _ _ _ E)
    as [pre [pv' [tl' [fin [E1 HR]]]]].
  unfold Xml.externalEntityRgx, cats in HR.
  apply Reach_cat_inv in HR as [s1 [H1 _]].
  apply Reach_lit in H1 as [E2 _]. cbn [rest] in E2.
  rewrite E1, E2, occurs_app in H. discriminate.
Qed.

End NoEntity.

(** X17: a text in which the keyword of an entity declaration, the
    characters <!ENTITY, does not occur is handed to the XML parser as it
    is, and no external entity is recorded for it: the document is what the
    parser makes of the unchanged text, or the failure that it reports. *)
Theorem text_without_entity_keyword_is_parsed_unchanged :
  forall XMLParser_parse rawText filename,
    occurs (list_ascii_of_string "<!ENTITY") (list_ascii_of_string rawText)
    = false ->
    Xml.cleanRawText rawText = rawText
    /\ Xml.externalEntitiesOf rawText = []
    /\ Xml.parse XMLParser_parse rawText filename
       = match XMLParser_parse rawText with
         | inr data => Xml.Parsed (Xml.mkXMLDocObject filename [] data)
         | inl message => Xml.XML_PARSING_FAILED message
         end.
Proof.
  intros P rawText filename H.
  pose proof (no_keyword_no_entity rawText H) as E.
  assert (Xml.cleanRawText rawText = rawText) as E1.
  { unfold Xml.cleanRawText, delete_all. rewrite E. cbn [without skipn].
    apply string_of_list_ascii_of_string. }
  assert (Xml.externalEntitiesOf rawText = []) as E2
    by (unfold Xml.externalEntitiesOf; now rewrite E).
  split; [exact E1|]. split; [exact E2|].
  unfold Xml.parse. now rewrite E1, E2.
Qed.

Lemma text_without_entity_keyword_is_parsed_unchanged_witness :
  Xml.cleanRawText "<rfc><!-- no entity --></rfc>"
  = "<rfc><!-- no entity --></rfc>"
  /\ Xml.externalEntitiesOf "<rfc><!-- no entity --></rfc>" = []
  /\ Xml.parse (fun _ => inr JNull) "<rfc><!-- no entity --></rfc>" "d.xml"
     = match (fun _ : string => @inr string JsVal JNull)
               "<rfc><!-- no entity --></rfc>" with
       | inr data => Xml.Parsed (Xml.mkXMLDocObject "d.xml" [] data)
       | inl message => Xml.XML_PARSING_FAILED message
       end.
Proof.
  apply (text_without_entity_keyword_is_parsed_unchanged
           (fun _ => inr JNull) "<rfc><!-- no entity --></rfc>" "d.xml").
  vm_compute. reflexivity.
Defined.

(* ================================================================== *)
(** ** The category and the obsoletes / updates checks                 *)
(* ================================================================== *)

(** X18: validateCategory reads docName as a string: on an XML document
    whose rfc element has no docName attribute, or has one without a value,
    it throws a TypeError, in every mode, SUBMISSION included; on every
    other XML document it returns, in every mode the same, at most one
    finding, a Warning, and none when the category is one of the five
    allowed values. *)
Theorem validateCategory_needs_docName :
  forall doc mode,
    match Metadata.get ["rfc"; "_attr"; "docName"] (Xml.data doc) with
    | JStr _ =>
        exists findings,
          Metadata.validateCategory (XmlDoc doc) mode = Ok findings
          /\ length findings <= 1
          /\ forallb isWarning findings = true
          /\ (Metadata.isAllowedCategory
                (Metadata.get ["rfc"; "_attr"; "category"] (Xml.data doc))
              = true -> findings = [])
    | _ => Metadata.validateCategory (XmlDoc doc) mode = Throw TypeError
    end.
Proof.
  intros doc mode. unfold Metadata.validateCategory.
  destruct (Metadata.get ["rfc"; "_attr"; "docName"] (Xml.data doc)) as
    [| | | |n| |]; try reflexivity.
  set (cat := Metadata.get ["rfc"; "_attr"; "category"] (Xml.data doc)).
  assert (Metadata.isAllowedCategory cat = true -> JsValue.truthy cat = true)
    as Ht.
  { destruct cat as [| | | |c| |]; try discriminate.
    destruct c; [discriminate | reflexivity]. }
  destruct (negb (startsWith "draft-" n) && negb (JsValue.truthy cat)) eqn:E1.
  - eexists. split; [reflexivity|]. split; [cbn; lia|].
    split; [reflexivity|]. intros Ha. rewrite (Ht Ha) in E1.
    rewrite andb_false_r in E1. discriminate.
  - destruct (JsValue.truthy cat && negb (Metadata.isAllowedCategory cat))
      eqn:E2.
    + eexists. split; [reflexivity|]. split; [cbn; lia|].
      split; [reflexivity|]. intros Ha. rewrite Ha in E2.
      rewrite andb_false_r in E2. discriminate.
    + eexists. split; [reflexivity|]. split; [cbn; lia|].
      split; reflexivity.
Qed.

Section ObsoletesLoop.

Variable fetch : string -> Lookup Metadata.RemoteRfc.

Lemma length_list_ascii (r : string) :
  length (list_ascii_of_string r) = String.length r.
Proof. induction r as [|a r IH]; cbn; [reflexivity | now rewrite IH]. Qed.

Lemma test_g_digits_start (r : string) :
  isDigits r = true ->
  test_g Metadata.RFC_NUM_RE 0 r = (true, String.length r).
Proof.
  unfold isDigits. intros H. apply andb_prop in H as [Ht Hd].
  unfold test_g, exec_g, search_from.
  assert ((length (list_ascii_of_string r) <? 0) = false) as ->
    by reflexivity.
  cbn [skipn]. rewrite <- (length_list_ascii r).
  destruct (list_ascii_of_string r) as [|c l] eqn:E.
  { destruct r; [discriminate Ht | discriminate E]. }
  cbn in Hd. apply andb_prop in Hd as [Hc Hl].
  unfold Metadata.RFC_NUM_RE, Plus.
  rewrite search_unfold, m_cat, m_chr, Hc, m_star_chr. cbn [prev rest caps].
  destruct (greedy_total is_digit [] l (Some c)) as [pv' ->].
  { apply Forall_forall. now apply forallb_forall. }
  cbv zeta. cbn [rest endIndex]. rewrite Nat.sub_0_r. reflexivity.
Qed.

Lemma test_g_at_end (r : string) :
  test_g Metadata.RFC_NUM_RE (String.length r) r = (false, 0).
Proof.
  unfold test_g, exec_g, search_from.
  rewrite <- (length_list_ascii r), Nat.ltb_irrefl, skipn_all.
  rewrite search_unfold. reflexivity.
Qed.

Lemma obsoletesLoop_cons li r tl result :
  Metadata.obsoletesLoop fetch li (r :: tl) result
  = bind (Metadata.obsoletesLoop fetch li [r] result)
         (fun p => Metadata.obsoletesLoop fetch (snd p) tl (fst p)).
Proof.
  cbn [Metadata.obsoletesLoop].
  destruct (test_g Metadata.RFC_NUM_RE li r) as [b li'].
  destruct b; [|reflexivity].
  destruct (fetch r) as [v|]; cbn [await bind]; [|reflexivity].
  destruct v as [i|]; [|reflexivity].
  destruct (Metadata.r_obsoleted_by i) as [[|o os]|]; reflexivity.
Qed.

Lemma obsoletesLoop_single_index r result p :
  isDigits r = true ->
  Metadata.obsoletesLoop fetch 0 [r] result = Ok p ->
  snd p = String.length r.
Proof.
  intros Hd. cbn [Metadata.obsoletesLoop].
  rewrite (test_g_digits_start r Hd).
  destruct (fetch r) as [v|]; cbn [await bind]; [|discriminate].
  destruct v as [i|]; [|intros H; inversion H; reflexivity].
  destruct (Metadata.r_obsoleted_by i) as [[|o os]|];
    intros H; inversion H; reflexivity.
Qed.

Lemma obsoletesLoop_skips r tl result :
  Metadata.obsoletesLoop fetch (String.length r) (r :: tl) result
  = Metadata.obsoletesLoop fetch 0 tl result.
Proof.
  cbn [Metadata.obsoletesLoop]. now rewrite test_g_at_end.
Qed.

Lemma obsoletesLoop_alternates k :
  forall n refs result,
    length refs <= n ->
    (forall r, In r refs -> isDigits r = true /\ String.length r = k) ->
    Metadata.obsoletesLoop fetch 0 refs result
    = mapRes (fun out => (out, if Nat.even (length refs) then 0 else k))
             (obsoletesLookups fetch (everyOther refs) result).
Proof.
  induction n as [|n IH]; intros refs result Hn Hall.
  - destruct refs; [reflexivity | cbn in Hn; lia].
  - destruct refs as [|r1 [|r2 tl]]; [reflexivity| |].
    + destruct (Hall r1 (or_introl eq_refl)) as [Hd Hk].
      cbn [everyOther obsoletesLookups length Nat.even].
      destruct (Metadata.obsoletesLoop fetch 0 [r1] result) as [p|e] eqn:E;
        [|reflexivity].
      cbn [bind mapRes]. rewrite <- Hk, <- (obsoletesLoop_single_index _ _ _ Hd E).
      now destruct p.
    + destruct (Hall r1 (or_introl eq_refl)) as [Hd1 Hk1].
      destruct (Hall r2 (or_intror (or_introl eq_refl))) as [Hd2 Hk2].
      rewrite obsoletesLoop_cons.
      cbn [everyOther obsoletesLookups].
      destruct (Metadata.obsoletesLoop fetch 0 [r1] result) as [p|e] eqn:E;
        [|reflexivity].
      cbn [bind].
      rewrite (obsoletesLoop_single_index _ _ _ Hd1 E), Hk1.
      pose proof (obsoletesLoop_skips r2 tl (fst p)) as Hskip.
      rewrite Hk2 in Hskip. rewrite Hskip.
      rewrite (IH tl (fst p)).
      * cbn [length Nat.even]. reflexivity.
      * cbn in Hn. lia.
      * intros r Hr. apply Hall. now right; right.
Qed.

End ObsoletesLoop.

(** X19: the test of validateObsoleteUpdateRef for a number is made with a
    module-level expression that carries its position from one reference
    to the next: in the loop over the references of the obsoletes
    attribute, started at position 0 on numbers of one common length, only
    the first, third, fifth, ... reference is looked up and can get a
    finding; the second, fourth, ... fail the test and are passed over; the
    position left behind is 0 after an even number of references and the
    common length after an odd one. *)
Theorem obsoletes_loop_looks_up_every_other_number :
  forall fetch refs k result,
    (forall r, In r refs -> isDigits r = true /\ String.length r = k) ->
    Metadata.obsoletesLoop fetch 0 refs result
    = mapRes (fun out => (out, if Nat.even (length refs) then 0 else k))
             (obsoletesLookups fetch (everyOther refs) result).
Proof.
  intros fetch refs k result H.
  now apply (obsoletesLoop_alternates fetch k (length refs)).
Qed.

Lemma obsoletes_loop_looks_up_every_other_number_witness :
  Metadata.obsoletesLoop notFound 0 ["2616"; "7230"; "7231"] []
  = mapRes (fun out => (out, if Nat.even 3 then 0 else 4))
           (obsoletesLookups notFound ["2616"; "7231"] []).
Proof.
  apply (obsoletes_loop_looks_up_every_other_number notFound
           ["2616"; "7230"; "7231"] 4 []).
  intros r [<-|[<-|[<-|[]]]]; split; reflexivity.
Defined.

Section WarningsOnly.

Variable fetch : string -> Lookup Metadata.RemoteRfc.
Variable abstractNumbers :
  Metadata.Mention -> nat -> JsVal -> Res (list string).

Lemma forallb_snoc {A} (p : A -> bool) (l : list A) (x : A) :
  forallb p l = true -> p x = true -> forallb p (l ++ [x]) = true.
Proof. intros Hl Hx. rewrite forallb_app, Hl. cbn. now rewrite Hx. Qed.

Lemma obsoletesLoop_warns refs :
  forall li result out li',
    forallb isWarning result = true ->
    Metadata.obsoletesLoop fetch li refs result = Ok (out, li') ->
    forallb isWarning out = true.
Proof.
  induction refs as [|r tl IH]; intros li result out li' Hr E;
    cbn [Metadata.obsoletesLoop] in E.
  - inversion E; subst. exact Hr.
  - destruct (test_g Metadata.RFC_NUM_RE li r) as [[|] li1];
      [|eapply IH; eassumption].
    destruct (fetch r) as [v|]; cbn [await bind] in E; [|discriminate].
    destruct v as [i|].
    + destruct (Metadata.r_obsoleted_by i) as [[|o os]|];
        (eapply IH; [|exact E]); try exact Hr;
        now apply forallb_snoc.
    + eapply IH; [|exact E]. now apply forallb_snoc.
Qed.

Lemma updatesLoop_warns refs :
  forall li result out li',
    forallb isWarning result = true ->
    Metadata.updatesLoop fetch li refs result = Ok (out, li') ->
    forallb isWarning out = true.
Proof.
  induction refs as [|r tl IH]; intros li result out li' Hr E;
    cbn [Metadata.updatesLoop] in E.
  - inversion E; subst. exact Hr.
  - destruct (test_g Metadata.RFC_NUM_RE li r) as [[|] li1];
      [|eapply IH; eassumption].
    destruct (fetch r) as [v|]; cbn [await bind] in E; [|discriminate].
    destruct v as [i|].
    + destruct (Metadata.r_obsoleted_by i) as [[|o os]|];
        try (eapply IH; [|exact E]; now apply forallb_snoc);
        destruct (Metadata.r_updated_by i) as [[|u us]|];
        (eapply IH; [|exact E]); try exact Hr;
        now apply forallb_snoc.
    + eapply IH; [|exact E]. now apply forallb_snoc.
Qed.

Lemma mentionFindings_warn a b c d :
  forallb isWarning (Metadata.mentionFindings a b c d) = true.
Proof.
  unfold Metadata.mentionFindings.
  rewrite !forallb_app.
  repeat (apply andb_true_intro; split);
    apply forallb_forall; intros f Hf;
    apply in_map_iff in Hf as [ref [<- _]]; reflexivity.
Qed.

End WarningsOnly.

(** X20: whatever validateObsoleteUpdateRef returns, in whatever mode,
    online or offline, and whatever the lookups and the abstract give, holds
    Warnings only: no finding of this check is an Error or a Comment. *)
Theorem obsolete_update_check_returns_warnings_only :
  forall fetch abstractNumbers doc mode offline li out li',
    Metadata.validateObsoleteUpdateRef fetch abstractNumbers doc mode offline li
    = Ok (out, li') ->
    forallb isWarning out = true.
Proof.
  intros fetch abs doc mode offline li out li'.
  unfold Metadata.validateObsoleteUpdateRef.
  assert (forall x,
             bind (Metadata.attributeList
                     (Metadata.get ["rfc"; "_attr"; "obsoletes"] (Xml.data x)))
               (fun obsoletesRefs =>
                bind (Metadata.attributeList
                        (Metadata.get ["rfc"; "_attr"; "updates"] (Xml.data x)))
                  (fun updatesRefs =>
                   let abstract :=
                     match Metadata.get ["rfc"; "front"; "abstract"]
                                        (Xml.data x) with
                     | JUndefined => JObj []
                     | v => v
                     end in
                   bind (abs Metadata.obsoletes li abstract)
                     (fun obsoletesAbs =>
                      bind (abs Metadata.updates li abstract)
                        (fun updatesAbs =>
                         let result :=
                           Metadata.mentionFindings obsoletesRefs updatesRefs
                             obsoletesAbs updatesAbs in
                         if offline then Ok (result, li)
                         else
                           bind (Metadata.obsoletesLoop fetch li obsoletesRefs
                                                        result)
                             (fun r1 =>
                              Metadata.updatesLoop fetch (snd r1) updatesRefs
                                                   (fst r1))))))
             = Ok (out, li') ->
             forallb isWarning out = true) as Hxml.
  { intros x.
    destruct (Metadata.attributeList _) as [oRefs|]; [|discriminate].
    cbn [bind].
    destruct (Metadata.attributeList _) as [uRefs|]; [|discriminate].
    cbn [bind]. cbv zeta.
    destruct (abs Metadata.obsoletes li _) as [oAbs|]; [|discriminate].
    cbn [bind].
    destruct (abs Metadata.updates li _) as [uAbs|]; [|discriminate].
    cbn [bind].
    destruct offline.
    - intros H; inversion H; subst. apply mentionFindings_warn.
    - destruct (Metadata.obsoletesLoop fetch li oRefs _) as [[r1 li1]|] eqn:E1;
        [|discriminate].
      cbn [bind fst snd]. intros E2.
      eapply updatesLoop_warns; [|exact E2].
      eapply obsoletesLoop_warns; [|exact E1].
      apply mentionFindings_warn. }
  destruct mode; destruct doc as [t|x];
    try (intros H; inversion H; reflexivity); apply Hxml.
Qed.

Lemma obsolete_update_check_returns_warnings_only_witness :
  forallb isWarning
    [Metadata.warning "OBSOLETES_NOT_IN_ABSTRACT"
       "The document states that it obsoletes RFC 2616 but doesn't explicitely mention it in the <abstract> section."
       Metadata.abstractRef;
     Metadata.warning "OBSOLETES_RFC_NOT_FOUND"
       "The <rfc> field states that it obsoletes RFC 2616 but no matching RFC could be found on rfc-editor.org."
       Metadata.obsoletesRef]
  = true.
Proof.
  apply (obsolete_update_check_returns_warnings_only
           notFound (fun _ _ _ => Ok [])
           (XmlDoc (xmlWithAttributes [("obsoletes", JStr "2616")]))
           NORMAL false 0 _ 4).
  vm_compute. reflexivity.
Defined.

(* ================================================================== *)
(** ** What the text parser reads from the whole text                  *)
(* ================================================================== *)

Section WholeText.
Import Txt.

Lemma digit_is_no_space (c : ascii) : is_digit c = true -> is_space c = false.
Proof.
  destruct c as [[] [] [] [] [] [] [] []]; intros H;
    try reflexivity; discriminate H.
Qed.

Lemma drop_space_digits (l : list ascii) :
  Forall (fun c => is_digit c = true) l -> drop_space l = l.
Proof.
  intros H. destruct l as [|c l]; [reflexivity|].
  inversion H; subst. cbn. now rewrite digit_is_no_space.
Qed.

Lemma trim_digits (l : list ascii) :
  Forall (fun c => is_digit c = true) l ->
  trim (string_of_list_ascii l) = string_of_list_ascii l.
Proof.
  intros H. unfold trim. rewrite list_ascii_of_string_of_list_ascii.
  rewrite (drop_space_digits l H).
  rewrite (drop_space_digits (rev l) (Forall_rev H)).
  now rewrite rev_involutive.
Qed.

(** The text of a match of NUMBER_RE. *)
Lemma number_match pv tl fin x :
  Reach NUMBER_RE (MState pv tl []) fin ->
  matched x
  = string_of_list_ascii (firstn (length tl - length (rest fin)) tl) ->
  isDigits (trim (matched x)) = true.
Proof.
  unfold NUMBER_RE, cats, d. intros H ->.
  apply Reach_cat_inv in H as [s1 [H1 H]].
  apply Reach_cat_inv in H as [s2 [H2 H3]].
  inversion H1; subst. inversion H3; subst.
  apply Reach_plus_chr in H2 as [l [E [Hl [Hne _]]]].
  cbn [rest] in E. rewrite E, firstn_read, (trim_digits l Hl).
  now apply isDigits_of_list.
Qed.

Lemma extractRfcNumbers_digits (text : string) (r : regex) :
  Forall (fun n => isDigits n = true) (extractRfcNumbers text r).
Proof.
  unfold extractRfcNumbers. apply Forall_forall. intros n Hn.
  apply in_flat_map in Hn as [x [_ Hn]].
  destruct (group 1 x) as [rfcList|]; [|contradiction].
  destruct (Js.truthy rfcList); [|contradiction].
  apply in_map_iff in Hn as [y [<- Hy]].
  pose proof (matches_from_reach NUMBER_RE rfcList
                (S (String.length rfcList)) 0) as Hall.
  rewrite Forall_forall in Hall.
  destruct (Hall y Hy) as [pv [tl [fin [HR [_ Hm]]]]].
  eapply number_match; eassumption.
Qed.

Lemma keywords_listed_once (kms : list rmatch) :
  forall acc,
    NoDup acc ->
    NoDup (fold_left (fun acc' km =>
                        if hasString (matched km) acc' then acc'
                        else acc' ++ [matched km]) kms acc).
Proof.
  induction kms as [|km tl IH]; intros acc H; cbn [fold_left]; [exact H|].
  apply IH. destruct (hasString (matched km) acc) eqn:E; [exact H|].
  apply NoDup_snoc; [exact H | now apply hasString_false].
Qed.

Lemma patterns_listed_once (text : string) (ps : list regex) :
  forall acc,
    NoDup acc ->
    NoDup (fold_left
             (fun acc0 pattern =>
                match matchAll pattern text with
                | first :: _ =>
                    fold_left (fun acc' km =>
                                 if hasString (matched km) acc' then acc'
                                 else acc' ++ [matched km])
                              (matchAll KEYWORDS_PATTERN (matched first)) acc0
                | [] => acc0
                end) ps acc).
Proof.
  induction ps as [|p ps IH]; intros acc H; cbn [fold_left]; [exact H|].
  apply IH. destruct (matchAll p text) as [|first rest0]; [exact H|].
  now apply keywords_listed_once.
Qed.

Lemma boilerplateKeywords_NoDup (text : string) :
  NoDup (boilerplateKeywords text).
Proof.
  unfold boilerplateKeywords. apply patterns_listed_once. constructor.
Qed.

End WholeText.

(** X21: the list of the key words that the text parser finds in the
    boilerplate holds no key word twice, whichever of the three boilerplate
    patterns match and whatever state the module was left in. *)
Theorem boilerplate_keywords_are_listed_once :
  forall ms rawText,
    NoDup (Txt.boilerplate2119Keywords (fst (Txt.wholeText ms rawText))).
Proof.
  intros ms rawText. unfold Txt.wholeText.
  repeat match goal with
         | |- context [let '(_, _) := ?x in _] => destruct x
         end.
  cbn. apply boilerplateKeywords_NoDup.
Qed.

(** X22: the numbers that the text parser collects for obsoletesRfc and
    updatesRfc are non-empty strings of decimal digits: of the list that
    follows the word obsoletes, replaces or updates only the numbers are
    kept, without the letters RFC, brackets or separators. *)
Theorem obsoleted_and_updated_numbers_are_digits :
  forall ms rawText,
    Forall (fun n => isDigits n = true)
           (Txt.obsoletesRfc (fst (Txt.wholeText ms rawText)))
    /\ Forall (fun n => isDigits n = true)
              (Txt.updatesRfc (fst (Txt.wholeText ms rawText))).
Proof.
  intros ms rawText. unfold Txt.wholeText.
  repeat match goal with
         | |- context [let '(_, _) := ?x in _] => destruct x
         end.
  cbn. split; apply extractRfcNumbers_digits.
Qed.

Section Organisations.
Import Txt.

Lemma fillOrg_back_run (v : string) (a : list Author) :
  forall b,
    forallb hasNoOrg a = true ->
    fillOrg_back v (a ++ b) = map (withOrg v) a ++ fillOrg_back v b.
Proof.
  induction a as [|x a IH]; intros b H; [reflexivity|].
  cbn in H. apply andb_prop in H as [Hx Ha].
  cbn [app fillOrg_back map]. unfold hasNoOrg in Hx.
  destruct (org x); [discriminate|]. now rewrite IH.
Qed.

Lemma fillOrg_back_stops (v : string) (b : list Author) :
  match b with
  | [] => true
  | x :: _ => match org x with Some _ => true | None => false end
  end = true ->
  fillOrg_back v b = b.
Proof.
  destruct b as [|x b]; [reflexivity|]. cbn.
  destruct (org x); [reflexivity | discriminate].
Qed.

End Organisations.

(** X23: the organisation of a header line goes to the authors at the end
    of the list that have none, back to the last author that has one
    (the empty organisation counts): these authors get it, in their order
    and with their names, and the authors before them stay as they are. *)
Theorem organisation_goes_to_trailing_authors :
  forall v before trailing,
    endsWithOrg before = true ->
    forallb hasNoOrg trailing = true ->
    Txt.fillOrg v (before ++ trailing) = before ++ map (withOrg v) trailing.
Proof.
  intros v before trailing Hb Ht. unfold Txt.fillOrg.
  rewrite rev_app_distr, fillOrg_back_run.
  - rewrite fillOrg_back_stops by exact Hb.
    now rewrite rev_app_distr, rev_involutive, <- map_rev, rev_involutive.
  - rewrite forallb_forall in *. intros x Hx. apply Ht. now apply in_rev.
Qed.

Lemma organisation_goes_to_trailing_authors_witness :
  Txt.fillOrg "Example Corp"
    ([Txt.mkAuthor "J. Doe" (Some "")]
     ++ [Txt.mkAuthor "A. Roe" None; Txt.mkAuthor "B. Poe" None])
  = [Txt.mkAuthor "J. Doe" (Some "")]
    ++ map (withOrg "Example Corp")
           [Txt.mkAuthor "A. Roe" None; Txt.mkAuthor "B. Poe" None].
Proof.
  apply (organisation_goes_to_trailing_authors "Example Corp"
           [Txt.mkAuthor "J. Doe" (Some "")]
           [Txt.mkAuthor "A. Roe" None; Txt.mkAuthor "B. Poe" None]);
    reflexivity.
Defined.

(* ================================================================== *)
(** ** The recursive extraction of utils.mjs                           *)
(* ================================================================== *)

Section Recursive.

Variables tagName attributeName : string.

#[local] Abbreviation extract :=
  (Utils.extractRecursiveByTagAndAttribute tagName attributeName).

#[local] Abbreviation visit := (visit tagName attributeName).

Lemma extract_obj props acc :
  extract (JObj props) acc
  = bind (Utils.ownTags attributeName (JsValue.lookup tagName props) acc)
         (fun values => forEach (fun vs p => visit vs (snd p)) props values).
Proof.
  cbn [Utils.extractRecursiveByTagAndAttribute].
  destruct (Utils.ownTags attributeName _ acc) as [values|]; [|reflexivity].
  cbn [bind]. revert values.
  induction props as [|[k v] tl IH]; intros values; [reflexivity|].
  cbn [forEach snd]. unfold visit at 1.
  destruct v; try (cbn [bind]; apply IH);
    match goal with
    | |- context [Utils.extractRecursiveByTagAndAttribute _ _ ?v values] =>
        destruct (Utils.extractRecursiveByTagAndAttribute
                    tagName attributeName v values);
          cbn [bind]; [apply IH | reflexivity]
    end.
Qed.

Lemma extract_arr items acc :
  extract (JArr items) acc = forEach visit items acc.
Proof.
  cbn [Utils.extractRecursiveByTagAndAttribute]. revert acc.
  induction items as [|v tl IH]; intros acc; [reflexivity|].
  cbn [forEach]. unfold visit at 1.
  destruct v; try (cbn [bind]; apply IH);
    match goal with
    | |- context [Utils.extractRecursiveByTagAndAttribute _ _ ?v acc] =>
        destruct (Utils.extractRecursiveByTagAndAttribute
                    tagName attributeName v acc);
          cbn [bind]; [apply IH | reflexivity]
    end.
Qed.

Lemma bind_Ok {A} (x : Res A) : bind x Ok = x.
Proof. destruct x; reflexivity. Qed.

Lemma forEach_extends {A} (body : list JsVal -> A -> Res (list JsVal))
      (items : list A) :
  (forall x, In x items ->
             forall acc, exists added, body acc x = Ok (acc ++ added)) ->
  forall acc, exists added, forEach body items acc = Ok (acc ++ added).
Proof.
  induction items as [|x tl IH]; intros H acc; cbn [forEach].
  - exists []. now rewrite app_nil_r.
  - destruct (H x (or_introl eq_refl) acc) as [a1 ->]. cbn [bind].
    destruct (IH (fun y Hy => H y (or_intror Hy)) (acc ++ a1)) as [a2 ->].
    exists (a1 ++ a2). now rewrite app_assoc.
Qed.

Lemma ownTags_extends found acc :
  found = JUndefined \/ wellDefined found = true ->
  exists added, Utils.ownTags attributeName found acc = Ok (acc ++ added).
Proof.
  intros H. unfold Utils.ownTags.
  destruct (JsValue.truthy found) eqn:Et;
    [|exists []; now rewrite app_nil_r].
  destruct H as [->|Hw]; [discriminate|].
  apply forEach_extends. intros t Ht acc0.
  assert (wellDefined t = true) as Hwt.
  { destruct found; try (destruct Ht as [<-|[]]; exact Hw).
    cbn in Hw. rewrite forallb_forall in Hw. now apply Hw. }
  assert (exists a, path ["_attr"] t = Ok a) as [a ->]
    by (destruct t; try discriminate; cbn; eexists; reflexivity).
  cbn [bind]. destruct (JsValue.truthy a) eqn:Ea;
    [|exists []; now rewrite app_nil_r].
  assert (exists x, path [attributeName] a = Ok x) as [x ->]
    by (destruct a; try discriminate; cbn; eexists; reflexivity).
  cbn [bind]. destruct (JsValue.truthy x);
    [eexists; reflexivity | exists []; now rewrite app_nil_r].
Qed.

Lemma lookup_wellDefined p props :
  forallb (fun q => wellDefined (snd q)) props = true ->
  JsValue.lookup p props = JUndefined
  \/ wellDefined (JsValue.lookup p props) = true.
Proof.
  induction props as [|[k v] tl IH]; intros H; cbn; [now left|].
  cbn in H. apply andb_prop in H as [Hv Ht].
  destruct (String.eqb k p); [now right | now apply IH].
Qed.

Lemma size_member {A} (f : A -> nat) (l : list A) (x : A) :
  In x l -> f x <= list_sum (map f l).
Proof.
  induction l as [|y l IH]; intros H; [contradiction|].
  change (list_sum (map f (y :: l))) with (f y + list_sum (map f l)).
  destruct H as [->|H]; [lia | specialize (IH H); lia].
Qed.

Lemma extract_extends :
  forall n v acc,
    treeSize v <= n -> wellDefined v = true ->
    exists added, extract v acc = Ok (acc ++ added).
Proof.
  induction n as [|n IH]; intros v acc Hn Hw.
  - destruct v; cbn in Hn; lia.
  - destruct v as [| |b|k|s|items|props]; try discriminate Hw;
      try (exists []; cbn; now rewrite app_nil_r).
    + rewrite extract_arr. apply forEach_extends. intros x Hx acc0.
      cbn in Hw. rewrite forallb_forall in Hw. specialize (Hw x Hx).
      pose proof (size_member treeSize items x Hx) as Hs. cbn in Hn.
      unfold visit. destruct x; try discriminate Hw;
        try (exists []; now rewrite app_nil_r);
        (apply IH; [lia | exact Hw]).
    + rewrite extract_obj. cbn in Hw.
      destruct (ownTags_extends (JsValue.lookup tagName props) acc
                  (lookup_wellDefined tagName props Hw)) as [a1 ->].
      cbn [bind].
      destruct (forEach_extends (fun vs p => visit vs (snd p)) props)
        with (acc := acc ++ a1) as [a2 ->].
      * intros [k x] Hx acc0. cbn [snd].
        rewrite forallb_forall in Hw. specialize (Hw (k, x) Hx). cbn in Hw.
        pose proof (size_member (fun p => treeSize (snd p)) props (k, x) Hx)
          as Hs. cbn in Hs, Hn.
        unfold visit. destruct x; try discriminate Hw;
          try (exists []; now rewrite app_nil_r);
          (apply IH; [lia | exact Hw]).
      * exists (a1 ++ a2). now rewrite app_assoc.
Qed.

Lemma forEach_visit_single (pre : list (string * JsVal)) k o post acc :
  forEach (fun vs p => visit vs (snd p))
          (pre ++ (k, JArr [JObj o]) :: post) acc
  = forEach (fun vs p => visit vs (snd p)) (pre ++ (k, JObj o) :: post) acc.
Proof.
  rewrite !forEach_app. apply bind_ext. intros values.
  cbn [forEach snd]. f_equal. unfold visit. rewrite extract_arr.
  cbn [forEach]. unfold visit. apply bind_Ok.
Qed.

Lemma lookup_single p (pre : list (string * JsVal)) k o post :
  Utils.ownTags attributeName
    (JsValue.lookup p (pre ++ (k, JArr [JObj o]) :: post))
  = Utils.ownTags attributeName
      (JsValue.lookup p (pre ++ (k, JObj o) :: post)).
Proof.
  induction pre as [|[k' v] pre IH]; cbn [app JsValue.lookup].
  - destruct (String.eqb k p); reflexivity.
  - destruct (String.eqb k' p); [reflexivity | exact IH].
Qed.

End Recursive.

(** X24: on a tree without null and undefined, as the XML parser builds
    it, extractRecursiveByTagAndAttribute returns and does not throw, and
    what it returns begins with the values that it was given: values are
    only added behind them. *)
Theorem recursive_extraction_returns_and_extends :
  forall tagName attributeName node extractedValues,
    wellDefined node = true ->
    exists added,
      Utils.extractRecursiveByTagAndAttribute tagName attributeName node
                                              extractedValues
      = Ok (extractedValues ++ added).
Proof.
  intros tag attr node acc H.
  exact (extract_extends tag attr (treeSize node) node acc (le_n _) H).
Qed.

Lemma recursive_extraction_returns_and_extends_witness :
  exists added,
    Utils.extractRecursiveByTagAndAttribute "reference" "anchor" backTree
                                            [JStr "RFC0001"]
    = Ok ([JStr "RFC0001"] ++ added).
Proof.
  apply (recursive_extraction_returns_and_extends "reference" "anchor"
           backTree [JStr "RFC0001"]).
  vm_compute. reflexivity.
Defined.

(** X25: unlike extractDefinedReferences, the recursive extraction takes a
    single element as a list of one: an object that holds one element
    under a name gives the same values as the object that holds the array
    of that one element under the name, wherever in the tree the name
    stands. *)
Theorem single_element_is_read_as_array_of_one :
  forall tagName attributeName pre k o post extractedValues,
    Utils.extractRecursiveByTagAndAttribute tagName attributeName
      (JObj (pre ++ (k, JArr [JObj o]) :: post)) extractedValues
    = Utils.extractRecursiveByTagAndAttribute tagName attributeName
        (JObj (pre ++ (k, JObj o) :: post)) extractedValues.
Proof.
  intros tag attr pre k o post acc.
  rewrite !extract_obj, lookup_single. apply bind_ext. intros values.
  apply forEach_visit_single.
Qed.

Section Boilerplate.
Import Txt.

Lemma m_lit (s : string) :
  forall pv l cs (k : mstate -> option mstate),
    if startsWithList (list_ascii_of_string s) l
    then exists pv',
        m (lit s) (MState pv l cs) k
        = k (MState pv' (skipn (length (list_ascii_of_string s)) l) cs)
    else m (lit s) (MState pv l cs) k = None.
Proof.
  induction s as [|c s IH]; intros pv l cs k.
  - cbn. now exists pv.
  - assert (m (lit (String c s)) (MState pv l cs) k
            = m (ch c) (MState pv l cs)
                (fun st1 => m (lit s) st1 k)) as ->.
    { destruct s; [|reflexivity]. cbn [lit]. unfold ch.
      destruct l as [|x l]; cbn; [reflexivity|].
      destruct (Ascii.eqb c x); reflexivity. }
    cbn [list_ascii_of_string startsWithList]. unfold ch.
    destruct l as [|x l]; [reflexivity|].
    rewrite m_chr. destruct (Ascii.eqb c x); cbn [andb]; [|reflexivity].
    specialize (IH (Some x) l cs k).
    destruct (startsWithList (list_ascii_of_string s) l);
      [|exact IH].
    destruct IH as [pv' ->]. now exists pv'.
Qed.

Lemma search_lit (s : string) :
  forall l pv idx,
    match search (lit s) pv l idx with Some _ => true | None => false end
    = occurs (list_ascii_of_string s) l.
Proof.
  induction l as [|c l IH]; intros pv idx; rewrite search_unfold;
    cbn [occurs];
    pose proof (m_lit s pv) as H.
  - specialize (H [] [] Some).
    destruct (startsWithList (list_ascii_of_string s) []).
    + destruct H as [pv' ->]. reflexivity.
    + rewrite H. reflexivity.
  - specialize (H (c :: l) [] Some).
    destruct (startsWithList (list_ascii_of_string s) (c :: l)).
    + destruct H as [pv' ->]. reflexivity.
    + rewrite H. cbn [orb]. apply IH.
Qed.

Lemma test_g_lit (s text : string) :
  fst (test_g (lit s) 0 text)
  = occurs (list_ascii_of_string s) (list_ascii_of_string text).
Proof.
  unfold test_g, exec_g, search_from.
  assert ((length (list_ascii_of_string text) <? 0) = false) as ->
    by reflexivity.
  cbn [skipn]. rewrite <- (search_lit s (list_ascii_of_string text) None 0).
  destruct (search _ _ _ _); reflexivity.
Qed.

Lemma countParts_head text r ps li lis :
  (0 <? fst (countParts text ((r, true) :: ps) (li :: lis)))
  = fst (test_g r li text).
Proof.
  cbn [countParts]. destruct (test_g r li text) as [[|] li'];
    [destruct (countParts text ps lis) | ]; reflexivity.
Qed.

(** With every position at 0, hasBoilerplateMatch is decided by the first
    part: the groups begin with the same expression, and a group whose
    first part matches gives the result at once. *)
Lemma hasBoilerplateMatch_first text r :
  forall groups lis,
    Forall2 (fun g l => exists ps ls, g = (r, true) :: ps /\ l = 0 :: ls)
            groups lis ->
    groups <> [] ->
    fst (hasBoilerplateMatch text groups lis) = fst (test_g r 0 text).
Proof.
  induction 1 as [|g l gs ls [ps [ls0 [-> ->]]] Hrest IH]; intros Hne;
    [congruence|].
  cbn [hasBoilerplateMatch].
  pose proof (countParts_head text r ps 0 ls0) as Hc.
  destruct (countParts text ((r, true) :: ps) (0 :: ls0)) as [n li'].
  cbn [fst] in Hc. rewrite Hc.
  destruct (fst (test_g r 0 text)) eqn:Eb; [reflexivity|].
  destruct gs as [|g2 gs].
  - inversion Hrest; subst. reflexivity.
  - destruct (hasBoilerplateMatch text (g2 :: gs) ls) as [b rest0].
    cbn [fst] in *. apply IH. discriminate.
Qed.

End Boilerplate.

(** X26: on a freshly loaded module the flag similar2119boilerplate is
    decided by the first of the parts alone: it is true exactly when the
    normalised text holds the words The key words followed by a blank; the
    other parts of the three groups, the key words in quotes and the
    reference to RFC 2119 or RFC 8174, do not enter into it. *)
Theorem similar_boilerplate_needs_the_first_words_only :
  forall rawText,
    Txt.similar2119boilerplate (fst (Txt.wholeText Txt.fresh rawText))
    = occurs (list_ascii_of_string "The key words ")
             (list_ascii_of_string (Txt.normalize rawText)).
Proof.
  intros rawText. unfold Txt.wholeText.
  repeat match goal with
         | |- context [let '(_, _) := ?x in _] => destruct x eqn:?
         end.
  cbn [fst Txt.similar2119boilerplate].
  rewrite <- (test_g_lit "The key words " (Txt.normalize rawText)).
  match goal with
  | H : Txt.hasBoilerplateMatch ?t ?g ?l = (?b, _) |- ?b = _ =>
      assert (b = fst (Txt.hasBoilerplateMatch t g l)) as ->
        by (rewrite H; reflexivity)
  end.
  apply (hasBoilerplateMatch_first (Txt.normalize rawText) Txt.part_keyWords).
  - unfold Txt.BOILERPLATE_PARTS, Txt.fresh. cbn.
    repeat constructor; do 2 eexists; split; reflexivity.
  - discriminate.
Qed.

Section DocumentKind.
Import Txt.

Lemma lexLine_docKind n line t st :
  docKind (loc (lexLine n line t st)) = docKind (loc st).
Proof.
  unfold lexLine.
  destruct (scanLine _ _ _ _ _) as [lx2 inCode].
  destruct (inlineCodeCheck _ _ _ _ _) as [lx3 li]. reflexivity.
Qed.

Lemma abstractBlock_docKind n line t st :
  docKind (loc (abstractBlock n line t st)) = docKind (loc st).
Proof.
  unfold abstractBlock.
  destruct (String.eqb _ _); [reflexivity|].
  destruct (_ && _); [|reflexivity].
  destruct (_ || _); reflexivity.
Qed.

Lemma sectionBlock_docKind n t st :
  docKind (loc (sectionBlock n t st)) = docKind (loc st).
Proof.
  unfold sectionBlock.
  destruct (isSectionHeading t); [|reflexivity].
  destruct (matchedSection t); reflexivity.
Qed.

Lemma subsectionBlock_docKind t st :
  docKind (loc (subsectionBlock t st)) = docKind (loc st).
Proof.
  unfold subsectionBlock.
  destruct (test_g _ _ _) as [isSub li].
  destruct (_ && _); reflexivity.
Qed.

Lemma contentBlock_docKind t st st' :
  contentBlock t st = inr st' -> docKind (loc st') = docKind (loc st).
Proof.
  unfold contentBlock.
  destruct (currentSection _); [|intros H; inversion H; reflexivity].
  destruct (_ && _); [|intros H; inversion H; reflexivity].
  destruct (get _ _); [|discriminate].
  intros H; inversion H; reflexivity.
Qed.

(** Behind the first header block the document kind is not written. *)
Lemma structLine_docKind n line t st st' st1 b :
  headerBlock n line t st = inr (st1, b) ->
  structLine n line t st = inr st' ->
  docKind (loc st') = docKind (loc st1).
Proof.
  intros Hb. unfold structLine. rewrite Hb.
  destruct b; [intros H; inversion H; reflexivity|].
  destruct (isSlugLine _ _); [intros H; inversion H; reflexivity|].
  destruct (headerBlock2 _ _ _).
  - intros H; inversion H; subst. cbn. apply abstractBlock_docKind.
  - intros H. apply contentBlock_docKind in H.
    now rewrite H, subsectionBlock_docKind, sectionBlock_docKind,
      abstractBlock_docKind.
Qed.

(** The document kind is written on the lines that extend an open header
    and on no other. *)
Lemma stepLine_docKind n line st st' :
  h_start (m_header (str st)) = 0
  \/ h_closed (m_header (str st)) = true
  \/ h_end (m_header (str st)) + 1 < n ->
  stepLine n line st = inr st' ->
  docKind (loc st') = docKind (loc st).
Proof.
  intros Hcase. destruct (skipped line) eqn:Hs.
  - unfold skipped, hasFormFeed in Hs. unfold stepLine.
    destruct (existsb _ _); [intros H; inversion H; reflexivity|].
    cbn [orb] in Hs. rewrite Hs. intros H; inversion H; reflexivity.
  - rewrite (stepLine_text _ _ _ Hs).
    destruct (structLine _ _ _ _) as [e|st2] eqn:E; [discriminate|].
    intros H; inversion H; subst st2.
    rewrite <- (lexLine_docKind n line (trim line) st).
    destruct (headerBlock n line (trim line)
                (lexLine n line (trim line) st)) as [e|[st1 b]] eqn:Hb.
    { unfold structLine in E. rewrite Hb in E. discriminate. }
    rewrite (structLine_docKind _ _ _ _ _ _ _ Hb E).
    revert Hb. unfold headerBlock. rewrite lexLine_str.
    destruct (h_start (m_header (str st)) =? 0) eqn:E0.
    + destruct (firstHeaderLine _ _ _); [discriminate|].
      intros H'; inversion H'; reflexivity.
    + apply Nat.eqb_neq in E0.
      destruct Hcase as [Hc|[Hc|Hc]]; [congruence | |].
      * rewrite Hc. intros H'; inversion H'; reflexivity.
      * destruct (negb _); [|intros H'; inversion H'; reflexivity].
        assert ((h_end (m_header (str st)) + 1 <? n) = true) as ->
          by (apply Nat.ltb_lt; exact Hc).
        intros H'; inversion H'; reflexivity.
Qed.

Lemma loop_closed_docKind ls :
  forall n st n' st',
    h_start (m_header (str st)) <> 0 ->
    h_closed (m_header (str st)) = true ->
    loop n ls st = inr (n', st') ->
    docKind (loc st') = docKind (loc st).
Proof.
  intros n st n' st' Hh Hc E.
  refine (proj2 (proj1 (loop_invariant
            (fun _ s => (h_start (m_header (str s)) <> 0
                         /\ h_closed (m_header (str s)) = true)
                        /\ docKind (loc s) = docKind (loc st))
            _ ls n st n' st' _ E))).
  - intros k line s s' [[H1 H2] H3] Es.
    destruct (stepLine_closed _ _ _ _ H1 H2 Es) as [F1 _].
    rewrite F1, (stepLine_docKind _ _ _ _ (or_intror (or_introl H2)) Es).
    repeat split; assumption.
  - repeat split; assumption.
Qed.

End DocumentKind.

(** X27: the document kind is read on the lines that extend the header
    and not on its first line: a parsed text whose header is a single line
    (the next line with text stands below a blank line or a page break)
    has no document kind, also when that line names an Internet-Draft or a
    Request for Comments. *)
Theorem single_line_header_gives_no_document_kind :
  forall ms rawText filename doc pre h gap t post,
    fst (Txt.parse ms rawText filename) = Txt.Parsed doc ->
    split LF rawText = pre ++ h :: gap ++ t :: post ->
    forallb skipped pre = true ->
    isText h = true ->
    gap <> [] -> forallb skipped gap = true ->
    isText t = true ->
    Txt.doc_docKind doc = None.
Proof.
  intros ms rawText filename doc pre h gap t post H Hl Hpre Hh Hgne Hg Ht.
  destruct (parse_parsed _ _ _ _ H) as [n [st [E ->]]].
  cbn [Txt.doc_docKind]. rewrite Hl in E.
  set (st0 := Txt.initial (Txt.lineRe (snd (Txt.wholeText ms rawText)))) in E.
  destruct (loop_skipped pre 0 st0 (h :: gap ++ t :: post) Hpre)
    as [st1 [E1 [S1 [L1 _]]]].
  rewrite E1 in E. clear E1. cbn [Nat.add Txt.loop] in E.
  unfold isText in Hh, Ht. apply negb_true_iff in Hh, Ht.
  destruct (Txt.stepLine (S (length pre)) h st1) as [[e r]|st2] eqn:E2;
    [discriminate|].
  assert (Txt.h_start (Txt.m_header (Txt.str st1)) = 0) as H0
    by (rewrite S1; reflexivity).
  destruct (stepLine_opens _ _ _ _ H0 Hh E2) as [F1 _].
  pose proof (stepLine_docKind _ _ _ _ (or_introl H0) E2) as D2.
  destruct (loop_skipped gap (S (length pre)) st2 (t :: post) Hg)
    as [st3 [E3 [S3 [L3 _]]]].
  rewrite E3 in E. clear E3. cbn [Txt.loop] in E.
  destruct (Txt.stepLine _ t st3) as [[e r]|st4] eqn:E4; [discriminate|].
  assert (length gap <> 0) as Hlen by (destruct gap; cbn; congruence).
  assert (Txt.h_end (Txt.m_header (Txt.str st3)) + 1
          < S (S (length pre) + length gap)) as Hend
    by (rewrite S3, F1; cbn; lia).
  destruct (stepLine_closes _ _ _ _
              (ltac:(rewrite S3, F1; cbn; lia)
                : Txt.h_start (Txt.m_header (Txt.str st3)) <> 0)
              (ltac:(rewrite S3, F1; reflexivity)
                : Txt.h_closed (Txt.m_header (Txt.str st3)) = false)
              Hend Ht E4) as [G1 _].
  pose proof (stepLine_docKind _ _ _ _ (or_intror (or_intror Hend)) E4) as D4.
  rewrite (loop_closed_docKind _ _ _ _ _
             (ltac:(rewrite G1, S3, F1; cbn; lia)
               : Txt.h_start (Txt.m_header (Txt.str st4)) <> 0)
             (ltac:(rewrite G1; reflexivity)
               : Txt.h_closed (Txt.m_header (Txt.str st4)) = true) E).
  rewrite D4, L3, D2, L1. reflexivity.
Qed.

Lemma single_line_header_gives_no_document_kind_witness :
  Txt.doc_docKind
    (parsedOrEmpty (Txt.parse Txt.fresh oneLineHeaderText "draft.txt"))
  = None.
Proof.
  apply (single_line_header_gives_no_document_kind
           Txt.fresh oneLineHeaderText "draft.txt" _ []
           "Internet-Draft                                            J. Doe"
           [""] "                        A Sample Document"
           ["                      draft-doe-sample-00"]);
    try (vm_compute; reflexivity); discriminate.
Defined.

(* ================================================================== *)
(** ** From the draft references of the parser to the names looked up  *)
(* ================================================================== *)

Section Brackets.

Lemma nameChar_is_no_bracket (x : ascii) :
  is_nameChar x = true -> Ascii.eqb "]" x = false.
Proof.
  destruct x as [[] [] [] [] [] [] [] []]; intros H;
    try reflexivity; discriminate H.
Qed.

Lemma brackets_first (tl : list ascii) :
  m BRACKETS_RE (MState None ("["%char :: tl) []) Some
  = Some (MState (Some "["%char) tl []).
Proof. reflexivity. Qed.

Lemma brackets_inside (pv x : ascii) (tl : list ascii) :
  Ascii.eqb "]" x = false ->
  m BRACKETS_RE (MState (Some pv) (x :: tl) []) Some = None.
Proof.
  intros H. unfold BRACKETS_RE. cbn [m ch prev rest caps]. now rewrite H.
Qed.

Lemma brackets_last (pv : ascii) :
  m BRACKETS_RE (MState (Some pv) ["]"%char] []) Some
  = Some (MState (Some "]"%char) [] []).
Proof. reflexivity. Qed.

Lemma brackets_end (pv : option ascii) :
  m BRACKETS_RE (MState pv [] []) Some = None.
Proof. destruct pv; reflexivity. Qed.

Lemma search_body (body : list ascii) :
  forall pv idx,
    forallb is_nameChar body = true ->
    search BRACKETS_RE (Some pv) (body ++ ["]"%char]) idx
    = Some (RMatch (idx + length body) (S (idx + length body)) "]" []).
Proof.
  induction body as [|x body IH]; intros pv idx H; cbn [app];
    rewrite search_unfold.
  - rewrite brackets_last. cbv zeta. cbn [rest caps length firstn Nat.sub].
    cbn [string_of_list_ascii].
    now rewrite Nat.add_0_r, Nat.add_1_r.
  - cbn in H. apply andb_prop in H as [Hx Hb].
    rewrite (brackets_inside pv x _ (nameChar_is_no_bracket x Hx)).
    rewrite (IH x (S idx) Hb). cbn [length].
    now rewrite Nat.add_succ_r.
Qed.

#[local] Abbreviation bracketed body := ("["%char :: body ++ ["]"%char]).

Lemma bracketed_length (body : list ascii) :
  length (bracketed body) = S (S (length body)).
Proof. cbn [length]. now rewrite length_app, Nat.add_1_r. Qed.

Lemma brackets_at_0 (body : list ascii) :
  search_from BRACKETS_RE (string_of_list_ascii (bracketed body)) 0
  = Some (RMatch 0 1 "[" []).
Proof.
  unfold search_from. rewrite list_ascii_of_string_of_list_ascii.
  rewrite (proj2 (Nat.ltb_ge _ _)) by lia.
  cbn [skipn]. rewrite search_unfold, brackets_first.
  cbv zeta. cbn [rest caps].
  replace (length (bracketed body) - length (body ++ ["]"%char])) with 1
    by (cbn [length]; lia).
  reflexivity.
Qed.

Lemma brackets_at_1 (body : list ascii) :
  forallb is_nameChar body = true ->
  search_from BRACKETS_RE (string_of_list_ascii (bracketed body)) 1
  = Some (RMatch (S (length body)) (S (S (length body))) "]" []).
Proof.
  intros Hb. unfold search_from. rewrite list_ascii_of_string_of_list_ascii.
  rewrite (proj2 (Nat.ltb_ge _ _)) by (rewrite bracketed_length; lia).
  cbn [nth_error skipn].
  exact (search_body body "["%char 1 Hb).
Qed.

Lemma brackets_at_end (body : list ascii) :
  search_from BRACKETS_RE (string_of_list_ascii (bracketed body))
              (S (S (length body)))
  = None.
Proof.
  unfold search_from. rewrite list_ascii_of_string_of_list_ascii.
  rewrite (proj2 (Nat.ltb_ge _ _)) by (rewrite bracketed_length; lia).
  rewrite skipn_all2 by (rewrite bracketed_length; lia).
  rewrite search_unfold, brackets_end. reflexivity.
Qed.

Lemma matchAll_brackets (body : list ascii) :
  forallb is_nameChar body = true ->
  matchAll BRACKETS_RE (string_of_list_ascii (bracketed body))
  = [RMatch 0 1 "[" [];
     RMatch (S (length body)) (S (S (length body))) "]" []].
Proof.
  intros Hb. unfold matchAll.
  rewrite <- length_list_ascii, list_ascii_of_string_of_list_ascii,
    bracketed_length.
  cbn [matches_from]. rewrite brackets_at_0.
  cbn [endIndex index Nat.eqb]. rewrite (brackets_at_1 body Hb).
  cbn [endIndex index].
  rewrite (proj2 (Nat.eqb_neq (S (S (length body))) (S (length body))))
    by lia.
  now rewrite brackets_at_end.
Qed.

Lemma delete_all_brackets (body : list ascii) :
  forallb is_nameChar body = true ->
  delete_all BRACKETS_RE (string_of_list_ascii (bracketed body))
  = string_of_list_ascii body.
Proof.
  intros Hb. unfold delete_all.
  rewrite (matchAll_brackets body Hb), list_ascii_of_string_of_list_ascii.
  cbn [without index endIndex]. f_equal.
  assert (skipn (S (S (length body))) (bracketed body) = []) as ->
    by (apply skipn_all2; rewrite bracketed_length; lia).
  cbn [Nat.sub skipn firstn app].
  rewrite Nat.sub_0_r, app_nil_r.
  replace (length body) with (length body + 0) by lia.
  rewrite firstn_app_2. cbn [firstn]. apply app_nil_r.
Qed.

Lemma draft_token_body (tok : string) :
  isDraftToken tok = true ->
  exists body,
    tok = string_of_list_ascii (bracketed body)
    /\ forallb is_nameChar body = true
    /\ unbracket tok = string_of_list_ascii body.
Proof.
  unfold isDraftToken, unbracket. intros H.
  destruct (list_ascii_of_string tok) as [|c l0] eqn:E; [discriminate|].
  destruct (Ascii.eqb c "["%char) eqn:Ec.
  2:{ destruct c as [[] [] [] [] [] [] [] []]; try discriminate Ec;
        discriminate H. }
  apply Ascii.eqb_eq in Ec. subst c.
  destruct (rev l0) as [|c rb] eqn:Er; [discriminate|].
  destruct (Ascii.eqb c "]"%char) eqn:Ec.
  2:{ destruct c as [[] [] [] [] [] [] [] []]; try discriminate Ec;
        discriminate H. }
  apply Ascii.eqb_eq in Ec. subst c.
  assert (l0 = rev rb ++ ["]"%char]) as El
    by (rewrite <- (rev_involutive l0), Er; reflexivity).
  exists (rev rb). split; [|split].
  - rewrite <- El, <- E. symmetry. apply string_of_list_ascii_of_string.
  - apply forallb_rev. destruct rb; [discriminate | exact H].
  - cbn [List.tl]. rewrite El. now rewrite removelast_last.
Qed.

End Brackets.

(** X28: the names that vlidateDraftReferences and validateDownrefs take
    from a parsed text are the draft references of the references section
    without their two brackets: for every parsed text,
    normalizeDraftReferences gives, in order, each recorded reference
    without its first and last character and without a version suffix of a
    hyphen and two digits, if what is left holds the letters draft. *)
Theorem parsed_draft_names_lose_their_brackets :
  forall ms rawText filename doc,
    fst (Txt.parse ms rawText filename) = Txt.Parsed doc ->
    normalizeDraftReferences
      (map Txt.value (Txt.referenceSectionDraftReferences (lexOf doc)))
    = filter namesDraft
        (map (fun tok => delete_first VERSION_RE (unbracket tok))
             (map Txt.value (Txt.referenceSectionDraftReferences (lexOf doc)))).
Proof.
  intros ms rawText filename doc H.
  destruct (parse_drafts_listed _ _ _ _ H) as [_ [_ Hd]].
  unfold normalizeDraftReferences, namesDraft. f_equal.
  apply map_ext_in. intros tok Hin.
  apply in_map_iff in Hin as [el [<- Hel]].
  rewrite Forall_forall in Hd. specialize (Hd el Hel).
  destruct (draft_token_body _ Hd) as [body [E [Hb Hu]]].
  unfold stripDraft. rewrite Hu. rewrite E at 1.
  now rewrite (delete_all_brackets body Hb).
Qed.

Lemma parsed_draft_names_lose_their_brackets_witness :
  normalizeDraftReferences
    (map Txt.value (Txt.referenceSectionDraftReferences (lexOf draftsDoc)))
  = ["draft-ietf-quic-qpack"].
Proof.
  rewrite (parsed_draft_names_lose_their_brackets
             Txt.fresh draftsText "draft.txt" draftsDoc);
    vm_compute; reflexivity.
Defined.

(* ================================================================== *)
(** ** Sections that are started again                                 *)
(* ================================================================== *)

Section Restarted.
Import Txt.

Lemma restarted_later n ms ct :
  restartedEmpty n ms ct -> restartedEmpty (S n) ms ct.
Proof.
  intros [H1 H2]. split; [|exact H2]. intros c. specialize (H1 c). lia.
Qed.

Lemma restarted_closeAt n c ms ct :
  restartedEmpty n ms ct ->
  restartedEmpty n (put c (closeAt n (get c ms)) ms) ct.
Proof.
  intros [H1 H2]. split; intros c'.
  - destruct (SectionName_eq_dec c c') as [<-|Hne].
    + rewrite get_put_same. cbn. apply H1.
    + rewrite get_put_other by assumption. apply H1.
  - destruct (SectionName_eq_dec c c') as [<-|Hne].
    + rewrite get_put_same. cbn. intros _ Hlt. specialize (H1 c). lia.
    + rewrite get_put_other by assumption. apply H2.
Qed.

Lemma restarted_closeCurrent n cs ms ct :
  restartedEmpty n ms ct -> restartedEmpty n (closeCurrent n cs ms) ct.
Proof.
  intros H. unfold closeCurrent. destruct cs as [c|]; [|exact H].
  destruct (negb _); [|exact H]. now apply restarted_closeAt.
Qed.

Lemma restarted_start n c ms ct :
  restartedEmpty n ms ct ->
  restartedEmpty (S n) (put c (setStart (S n) (get c ms)) ms)
                 (put c (Some []) ct).
Proof.
  intros [H1 H2]. split; intros c'.
  - destruct (SectionName_eq_dec c c') as [<-|Hne].
    + rewrite get_put_same. cbn. lia.
    + rewrite get_put_other by assumption. specialize (H1 c'). lia.
  - destruct (SectionName_eq_dec c c') as [<-|Hne].
    + rewrite !get_put_same. reflexivity.
    + rewrite !get_put_other by assumption. apply H2.
Qed.

Lemma restarted_push n c ls ms ct :
  restartedEmpty n ms ct ->
  closed (get c ms) = false ->
  restartedEmpty n ms (put c (Some ls) ct).
Proof.
  intros [H1 H2] Hc. split; [exact H1|]. intros c' Hcl Hlt.
  destruct (SectionName_eq_dec c c') as [<-|Hne]; [congruence|].
  rewrite get_put_other by assumption. now apply H2.
Qed.

#[local] Abbreviation holds n st :=
  (restartedEmpty n (markers (str st)) (content (str st))).

Lemma abstractBlock_other n line t st :
  String.eqb t "Abstract" = false ->
  holds n st -> holds n (abstractBlock (S n) line t st).
Proof.
  intros Ht H. unfold abstractBlock. rewrite Ht.
  destruct (_ && _); [|exact H].
  destruct (_ || _); [|exact H].
  cbn [str set_str markers content set_markers].
  rewrite Nat.sub_succ, Nat.sub_0_r. now apply restarted_closeAt.
Qed.

Lemma abstractBlock_abstract n line t st :
  String.eqb t "Abstract" = true ->
  holds n st ->
  holds (S n) (abstractBlock (S n) line t st)
  /\ isSectionHeading t = false.
Proof.
  intros Ht H. split.
  - unfold abstractBlock. rewrite Ht.
    cbn [str set_loc set_str markers content set_content set_markers].
    now apply restarted_start.
  - apply String.eqb_eq in Ht. subst t. vm_compute. reflexivity.
Qed.

Lemma sectionBlock_restarted n t st :
  holds n st -> holds (S n) (sectionBlock (S n) t st).
Proof.
  intros H. unfold sectionBlock.
  destruct (isSectionHeading t); [|now apply restarted_later].
  rewrite Nat.sub_succ, Nat.sub_0_r.
  pose proof (restarted_closeCurrent n (currentSection (loc st)) _ _ H) as Hc.
  destruct (matchedSection t) as [c|].
  - cbn [str set_loc set_str markers content set_content set_markers].
    now apply restarted_start.
  - cbn [str set_loc set_str markers content set_markers].
    now apply restarted_later.
Qed.

Lemma contentBlock_restarted n t st st' :
  holds n st -> contentBlock t st = inr st' -> holds n st'.
Proof.
  intros H. unfold contentBlock.
  destruct (currentSection _) as [c|]; [|intros E; inversion E; now subst].
  destruct (negb (start _ =? 0) && negb (closed _)) eqn:E0;
    [|intros E; inversion E; now subst].
  apply andb_prop in E0 as [_ E0]. apply negb_true_iff in E0.
  destruct (get c (content (str st))); [|discriminate].
  intros E; inversion E; subst.
  cbn [str set_str markers content set_content].
  now apply restarted_push.
Qed.

Lemma holds_same n (st st' : St) :
  markers (str st') = markers (str st) /\ content (str st') = content (str st) ->
  holds n st -> holds n st'.
Proof. intros [-> ->]. trivial. Qed.

Lemma structLine_restarted n line t st st' :
  holds n st -> structLine (S n) line t st = inr st' -> holds (S n) st'.
Proof.
  intros H. unfold structLine.
  destruct (headerBlock (S n) line t st) as [e|[st1 b]] eqn:E; [discriminate|].
  apply headerBlock_sections in E.
  pose proof (holds_same n st st1 E H) as H1.
  destruct b; [intros E'; inversion E'; subst; now apply restarted_later|].
  destruct (isSlugLine _ _);
    [intros E'; inversion E'; subst; cbn; now apply restarted_later|].
  assert (holds (S n) (abstractBlock (S n) line t st1)
          /\ holds (S n) (sectionBlock (S n) t
                           (abstractBlock (S n) line t st1))) as [H2 H3].
  { destruct (String.eqb t "Abstract") eqn:Et.
    - destruct (abstractBlock_abstract n line t st1 Et H1) as [Ha Hh].
      split; [exact Ha|]. unfold sectionBlock. rewrite Hh. exact Ha.
    - pose proof (abstractBlock_other n line t st1 Et H1) as Ha.
      split; [now apply restarted_later | now apply sectionBlock_restarted]. }
  destruct (headerBlock2 _ _ _) as [s|] eqn:E2.
  - intros E'; inversion E'; subst.
    apply headerBlock2_sections in E2. destruct E2 as [Em Ec].
    cbn [str set_str]. rewrite Em, Ec. exact H2.
  - intros E'. eapply contentBlock_restarted; [|exact E'].
    now rewrite subsectionBlock_str.
Qed.

Lemma stepLine_restarted n line st st' :
  holds n st -> stepLine (S n) line st = inr st' -> holds (S n) st'.
Proof.
  intros H. destruct (skipped line) eqn:Hs.
  - destruct (stepLine_skipped (S n) line st Hs) as [st1 [E E1]].
    rewrite E. intros E'; inversion E'; subst. rewrite E1.
    now apply restarted_later.
  - rewrite (stepLine_text _ _ _ Hs).
    destruct (structLine _ _ _ _) as [e|st2] eqn:E; [discriminate|].
    intros E'; inversion E'; subst.
    eapply structLine_restarted; [|exact E]. now rewrite lexLine_str.
Qed.

End Restarted.

(** X29: a marker that is closed is never opened again, and lines are
    added to a section only while its marker is open: in every parsed
    text, a section whose marker ends before it starts (what a second
    heading of the section leaves behind, as with Overview after
    Introduction) has an empty list of lines; the lines that stood under
    its first heading are gone and those under the second are not
    taken. *)
Theorem restarted_section_has_no_lines :
  forall ms rawText filename doc c,
    fst (Txt.parse ms rawText filename) = Txt.Parsed doc ->
    Txt.closed (Txt.get c (Txt.markers (Txt.data_str (Txt.data doc)))) = true ->
    Txt.end_ (Txt.get c (Txt.markers (Txt.data_str (Txt.data doc))))
    < Txt.start (Txt.get c (Txt.markers (Txt.data_str (Txt.data doc)))) ->
    Txt.get c (Txt.content (Txt.data_str (Txt.data doc))) = Some [].
Proof.
  intros ms rawText filename doc c H.
  destruct (parse_parsed _ _ _ _ H) as [n [st [E ->]]].
  cbn [Txt.data Txt.data_str Txt.markers Txt.content Txt.set_markers].
  assert (restartedEmpty n (Txt.markers (Txt.str st))
                         (Txt.content (Txt.str st))) as Hinv.
  { refine (proj1 (loop_invariant
              (fun k s => restartedEmpty k (Txt.markers (Txt.str s))
                                         (Txt.content (Txt.str s)))
              stepLine_restarted _ 0 _ n st _ E)).
    split; intros c0; [destruct c0; cbn; lia | destruct c0; discriminate]. }
  apply (restarted_closeCurrent n (Txt.currentSection (Txt.loc st))) in Hinv.
  destruct Hinv as [_ H2]. apply H2.
Qed.

Lemma restarted_section_has_no_lines_witness :
  Txt.get Txt.introduction
    (Txt.content
       (Txt.data_str
          (Txt.data (parsedOrEmpty
                       (Txt.parse Txt.fresh twoIntroductionsText "d.txt")))))
  = Some [].
Proof.
  apply (restarted_section_has_no_lines Txt.fresh twoIntroductionsText
           "d.txt" _ Txt.introduction);
    vm_compute; reflexivity.
Defined.

(* ================================================================== *)
(** ** The position that the subsection pattern carries                *)
(* ================================================================== *)

Section SubsectionPosition.
Import Txt.

(** From a position behind the start, an expression that begins with the
    start anchor finds nothing, and the position goes back to 0. *)
Lemma test_g_behind_start (r : regex) (li : nat) (t : string) :
  1 <= li -> test_g (Cat Bol r) li t = (false, 0).
Proof.
  intros Hli. unfold test_g, exec_g, search_from.
  destruct (length (list_ascii_of_string t) <? li) eqn:E; [reflexivity|].
  apply Nat.ltb_ge in E.
  destruct li as [|i]; [lia|].
  destruct (nth_error (list_ascii_of_string t) i) as [c|] eqn:En.
  - now rewrite search_bol_later.
  - apply nth_error_None in En. lia.
Qed.

Lemma subsection_match_position (t : string) (li : nat) :
  test_g SUBSECTION_PATTERN 0 t = (true, li) -> 1 <= li.
Proof.
  unfold test_g, exec_g.
  change (search_from SUBSECTION_PATTERN t 0) with (exec SUBSECTION_PATTERN t).
  unfold SUBSECTION_PATTERN, cats. rewrite exec_bol.
  destruct (m _ _ Some) as [fin|] eqn:E; [|discriminate].
  cbv zeta. cbn [endIndex]. intros H. inversion H; subst li. clear H.
  apply m_sound in E. destruct E as [st' [HR Hk]]. inversion Hk; subst st'.
  apply Reach_cat_inv in HR as [s1 [H1 H2]].
  unfold d in H1. apply Reach_plus_chr in H1 as [ds [E1 [_ [Hne _]]]].
  apply Reach_rest in H2 as [l2 E2]. cbn [rest] in E1.
  rewrite E1, E2, !length_app.
  destruct ds; [congruence | cbn [length]; lia].
Qed.

(** A line that reaches the subsection detection with the position behind
    the start changes nothing but the position. *)
Lemma subsectionBlock_behind_start (t : string) (st : St) :
  1 <= SUBSECTION_PATTERN_lastIndex (re st) ->
  subsectionBlock t st
  = mkSt (pageCount st) (lex st) (str st) (loc st)
         (mkReState (INLINE_CODE_FORMAT_lastIndex (re st)) 0).
Proof.
  intros Hli. unfold subsectionBlock.
  unfold SUBSECTION_PATTERN at 1. unfold cats at 1.
  rewrite (test_g_behind_start _ _ t Hli).
  reflexivity.
Qed.

End SubsectionPosition.

(** X30: the subsection pattern is a module-level expression with the g
    flag, and its test carries its position from one line to the next: of
    two lines that reach the subsection detection one after the other, the
    first of which matches the pattern, the second is never taken as a
    subsection heading, whatever it holds; the current subsection stays as
    the first line left it, and the position goes back to 0. *)
Theorem line_after_subsection_heading_is_not_tested :
  forall st first second,
    Txt.SUBSECTION_PATTERN_lastIndex (Txt.re st) = 0 ->
    fst (test_g Txt.SUBSECTION_PATTERN 0 first) = true ->
    Txt.currentSubSection
      (Txt.loc (Txt.subsectionBlock second (Txt.subsectionBlock first st)))
    = Txt.currentSubSection (Txt.loc (Txt.subsectionBlock first st))
    /\ Txt.SUBSECTION_PATTERN_lastIndex
         (Txt.re (Txt.subsectionBlock second (Txt.subsectionBlock first st)))
       = 0.
Proof.
  intros st first second H0 Hm.
  destruct (test_g Txt.SUBSECTION_PATTERN 0 first) as [b li] eqn:E1.
  cbn [fst] in Hm. subst b.
  pose proof (subsection_match_position first li E1) as Hli.
  assert (Txt.SUBSECTION_PATTERN_lastIndex
            (Txt.re (Txt.subsectionBlock first st)) = li) as Eli.
  { unfold Txt.subsectionBlock. rewrite H0, E1.
    destruct (_ && _); reflexivity. }
  rewrite (subsectionBlock_behind_start second (Txt.subsectionBlock first st))
    by (rewrite Eli; exact Hli).
  cbn [Txt.loc Txt.re Txt.SUBSECTION_PATTERN_lastIndex].
  split; reflexivity.
Qed.

Lemma line_after_subsection_heading_is_not_tested_witness :
  Txt.currentSubSection
    (Txt.loc (Txt.subsectionBlock "8.2.  Informative References"
                (Txt.subsectionBlock "8.1.  Normative References"
                   (Txt.initial (Txt.mkReState 0 0)))))
  = Txt.currentSubSection
      (Txt.loc (Txt.subsectionBlock "8.1.  Normative References"
                  (Txt.initial (Txt.mkReState 0 0))))
  /\ Txt.SUBSECTION_PATTERN_lastIndex
       (Txt.re (Txt.subsectionBlock "8.2.  Informative References"
                  (Txt.subsectionBlock "8.1.  Normative References"
                     (Txt.initial (Txt.mkReState 0 0)))))
     = 0.
Proof.
  apply (line_after_subsection_heading_is_not_tested
           (Txt.initial (Txt.mkReState 0 0))
           "8.1.  Normative References" "8.2.  Informative References");
    vm_compute; reflexivity.
Defined.

(* ================================================================== *)
(** * The RFC references of a parsed text, line by line                *)
(* ================================================================== *)

(** ** The filing of the RFC numbers of a line *)

Section Filing.

Import Txt.








End Filing.



(** The two lists of that text: each number once in the list it belongs
    to, the entries with the subsection of their heading. *)
Example repeatedReferences_buckets :
  bucketsOf (lexOfParse (Txt.parse Txt.fresh repeatedReferencesText "draft.txt"))
  = (["2119"],
     [Txt.mkRefEntry "2119" (Some Txt.normative_references);
      Txt.mkRefEntry "4086" (Some Txt.normative_references)])
  /\ map rfcNumbersOn
         ["   See RFC 2119 and, once more, RFC 2119.";
          "   [RFC2119]  Bradner, S., Key words, RFC 2119."]
     = [["2119"; "2119"]; ["2119"; "2119"]].
Proof. split; vm_compute; reflexivity. Qed.

(* ================================================================== *)
(** * The obsolete normative reference                                 *)
(* ================================================================== *)

(** ** The references that validateNormativeReferences looks up *)

Section LookedUp.
















End LookedUp.



